(** * game-components: a shallow embedding of the three core widgets

    The development follows the JavaScript sources of the repository:
    - [LivingWccell], the cell of a cellular automaton
      (packages/living-wccell/src/living-wccell.js);
    - [ConvgameObject], the physics body (class ConvgameObject);
    - [GameTetris], the Tetris engine (class GameTetris).

    Every method that the properties below talk about is translated from its
    source text.  A component instance is a record of its fields; a method is
    a function from the record to the updated record, together with what it
    returns and the notifications ([CustomEvent]s) it dispatches.  Painting
    on the canvas and the Lit rendering life cycle only read the state; the
    Tetris engine records the calls of its painting methods, and what the
    painting of the board reads and loops over is modelled on its own.

    The file has two halves: the three models first, then, module by module,
    what is proved about them. *)

From Stdlib Require Import ZArith List Bool String Lia Arith Sorted.
From Stdlib Require Import Floats Reals.
Import ListNotations.

Set Implicit Arguments.

(* ===================================================================== *)
(** * The cellular-automaton cell *)
(* ===================================================================== *)

Module LivingWccell.

Local Open Scope nat_scope.

(** [CellRules]: the neighbour counts that give birth and survival. *)
Record CellRules := mkRules {
  birth : list nat;
  survival : list nat
}.

Definition CONWAY_RULES : CellRules := {| birth := [3]; survival := [2; 3] |}.

(** The exported presets, [CellularRules]. *)
Module CellularRules.
Definition CONWAY := {| birth := [3]; survival := [2; 3] |}.
Definition HIGHLIFE := {| birth := [3; 6]; survival := [2; 3] |}.
Definition DAY_AND_NIGHT :=
  {| birth := [3; 6; 7; 8]; survival := [3; 4; 6; 7; 8] |}.
Definition SEEDS := {| birth := [2]; survival := [] |}.
Definition LIFE_WITHOUT_DEATH :=
  {| birth := [3]; survival := [0; 1; 2; 3; 4; 5; 6; 7; 8] |}.
Definition MAZE := {| birth := [3]; survival := [1; 2; 3; 4; 5] |}.
Definition REPLICATOR := {| birth := [1; 3; 5; 7]; survival := [1; 3; 5; 7] |}.
Definition TWO_BY_TWO := {| birth := [3; 6]; survival := [1; 2; 5] |}.
End CellularRules.

(** The fields of a [LivingWccell] instance.  [_nextState] is [null]
    ([None]) or the boolean computed by [calculateNextState]. *)
Record Cell := mkCell {
  alive : bool;
  x : Z;
  y : Z;
  generation : nat;
  age : nat;
  rules : CellRules;
  neighborCount : nat;
  showGeneration : bool;
  cellId : string;
  _nextState : option bool
}.

(** Payloads of the dispatched events. *)
Inductive Event :=
| state_change (alive previousAlive : bool) (x y : Z)
               (age generation : nat) (cellId : string)
| generation_update (generation previousGeneration : nat) (x y : Z)
                    (alive : bool) (age : nat)
| cell_click (x y : Z) (alive : bool) (cellId : string).

(** The constructor's defaults. *)
Definition new : Cell :=
  {| alive := false; x := 0%Z; y := 0%Z; generation := 0; age := 0;
     rules := CONWAY_RULES; neighborCount := 0; showGeneration := false;
     cellId := EmptyString; _nextState := None |}.

(** Field assignments. *)
Definition set_alive (v : bool) (c : Cell) : Cell :=
  mkCell v (x c) (y c) (generation c) (age c) (rules c) (neighborCount c)
         (showGeneration c) (cellId c) (_nextState c).
Definition set_age (v : nat) (c : Cell) : Cell :=
  mkCell (alive c) (x c) (y c) (generation c) v (rules c) (neighborCount c)
         (showGeneration c) (cellId c) (_nextState c).
Definition set_generation (v : nat) (c : Cell) : Cell :=
  mkCell (alive c) (x c) (y c) v (age c) (rules c) (neighborCount c)
         (showGeneration c) (cellId c) (_nextState c).
Definition set_rules (v : CellRules) (c : Cell) : Cell :=
  mkCell (alive c) (x c) (y c) (generation c) (age c) v (neighborCount c)
         (showGeneration c) (cellId c) (_nextState c).
Definition set_neighborCount (v : nat) (c : Cell) : Cell :=
  mkCell (alive c) (x c) (y c) (generation c) (age c) (rules c) v
         (showGeneration c) (cellId c) (_nextState c).
Definition set_nextState (v : option bool) (c : Cell) : Cell :=
  mkCell (alive c) (x c) (y c) (generation c) (age c) (rules c)
         (neighborCount c) (showGeneration c) (cellId c) v.

(** [Array.prototype.includes] on an array of numbers. *)
Definition includes (l : list nat) (n : nat) : bool := existsb (Nat.eqb n) l.

(** [_dispatchStateChange]: the payload is read from the current fields;
    [previousAlive] is the negation of the current [alive]. *)
Definition _dispatchStateChange (c : Cell) : Event :=
  state_change (alive c) (negb (alive c)) (x c) (y c) (age c)
               (generation c) (cellId c).

(** [setAlive(alive)]. *)
Definition setAlive (a : bool) (c : Cell) : Cell * list Event :=
  let previousState := alive c in
  let c1 := set_alive a c in
  let c2 := if a && negb previousState then set_age 1 c1
            else if negb a then set_age 0 c1
            else c1 in
  if Bool.eqb previousState a then (c2, [])
  else (c2, [_dispatchStateChange c2]).

Definition toggle (c : Cell) : Cell * list Event := setAlive (negb (alive c)) c.

(** [calculateNextState(aliveNeighbors)]: returns the computed state, the
    updated cell and the events dispatched (none). *)
Definition calculateNextState (aliveNeighbors : nat) (c : Cell)
  : bool * Cell * list Event :=
  let c1 := set_neighborCount aliveNeighbors c in
  let c2 :=
    if alive c1
    then set_nextState (Some (includes (survival (rules c1)) aliveNeighbors)) c1
    else set_nextState (Some (includes (birth (rules c1)) aliveNeighbors)) c1 in
  match _nextState c2 with
  | Some r => (r, c2, [])
  | None => (false, c2, [])   (* not reached: the field was just assigned *)
  end.

(** [applyNextState()]. *)
Definition applyNextState (c : Cell) : Cell * list Event :=
  match _nextState c with
  | None => (c, [])
  | Some next =>
      let previousState := alive c in
      let c1 := set_alive next c in
      let c2 :=
        if alive c1
        then (if previousState then set_age (age c1 + 1) c1 else set_age 1 c1)
        else set_age 0 c1 in
      let c3 := set_nextState None c2 in
      if Bool.eqb previousState (alive c3) then (c3, [])
      else (c3, [_dispatchStateChange c3])
  end.

(** [updateGeneration(gen)]. *)
Definition updateGeneration (gen : nat) (c : Cell) : Cell * list Event :=
  let previousGen := generation c in
  let c1 := set_generation gen c in
  if Nat.eqb previousGen gen then (c1, [])
  else (c1, [generation_update gen previousGen (x c1) (y c1) (alive c1) (age c1)]).

(** [reset()]. *)
Definition reset (c : Cell) : Cell :=
  set_nextState None
    (set_neighborCount 0 (set_generation 0 (set_age 0 (set_alive false c)))).

(** [setRules(birth, survival)]. *)
Definition setRules (b s : list nat) (c : Cell) : Cell :=
  set_rules {| birth := b; survival := s |} c.

(** [getPosition()] and [getState()]. *)
Definition getPosition (c : Cell) : Z * Z := (x c, y c).

Record State := mkState {
  state_alive : bool;
  state_age : nat;
  state_generation : nat;
  state_x : Z;
  state_y : Z
}.

Definition getState (c : Cell) : State :=
  mkState (alive c) (age c) (generation c) (x c) (y c).

(** [_getAgeClass()]. *)
Definition _getAgeClass (c : Cell) : string :=
  if negb (alive c) then ""
  else if Nat.eqb (age c) 1 then "age-1"
  else if Nat.eqb (age c) 2 then "age-2"
  else if Nat.eqb (age c) 3 then "age-3"
  else "age-old".

(** [_handleClick(e)]: the cell toggles, then reports the click. *)
Definition _handleClick (c : Cell) : Cell * list Event :=
  let '(c1, evs) := toggle c in
  (c1, evs ++ [cell_click (x c1) (y c1) (alive c1) (cellId c1)]).

(** [_handleKeyDown(e)] with [key = e.key]. *)
Definition _handleKeyDown (key : string) (c : Cell) : Cell * list Event :=
  if String.eqb key "Enter" || String.eqb key " " then
    let '(c1, evs) := toggle c in
    (c1, evs ++ [cell_click (x c1) (y c1) (alive c1) (cellId c1)])
  else (c, []).

(** ** Vocabulary of the statements *)

(** The age agrees with the state: a dead cell has age 0 and a live cell
    has lived for at least one generation. *)
Definition age_consistent (c : Cell) : Prop :=
  (alive c = false -> age c = 0) /\ (alive c = true -> 1 <= age c).

(** One generation of a cell that sees [n] live neighbours: the calculate
    phase followed by the apply phase. *)
Definition step (n : nat) (c : Cell) : Cell * list Event :=
  applyNextState (snd (fst (calculateNextState n c))).

(** What the rule set says about a cell with [n] live neighbours. *)
Definition rule (c : Cell) (n : nat) : bool :=
  if alive c then includes (survival (rules c)) n
  else includes (birth (rules c)) n.

End LivingWccell.
(* ===================================================================== *)
(** * The physics body *)
(* ===================================================================== *)

Module ConvgameObject.

(** ** JavaScript numbers

    The physics code only uses the arithmetic below.  It is kept abstract so
    that every property proved from the shape of the code holds for the
    IEEE-754 doubles the program runs on ([Number_float]) as well as for
    the real numbers ([Number_R]), where rounding is absent. *)
Class Number (F : Type) := {
  num_zero : F;                    (* the literal 0 *)
  num_one : F;                     (* the literal 1 *)
  num_two : F;                     (* the literal 2 *)
  num_add : F -> F -> F;           (* a + b *)
  num_sub : F -> F -> F;           (* a - b *)
  num_mul : F -> F -> F;           (* a * b *)
  num_div : F -> F -> F;           (* a / b *)
  num_neg : F -> F;                (* -a *)
  num_sqrt : F -> F;               (* Math.sqrt(a) *)
  num_min : F -> F -> F;           (* Math.min(a, b) *)
  num_lt : F -> F -> bool;         (* a < b *)
  num_eq : F -> F -> bool          (* a === b *)
}.

Declare Scope num_scope.
Delimit Scope num_scope with num.
Notation "a + b" := (num_add a b) : num_scope.
Notation "a - b" := (num_sub a b) : num_scope.
Notation "a * b" := (num_mul a b) : num_scope.
Notation "a / b" := (num_div a b) : num_scope.
Notation "- a" := (num_neg a) : num_scope.
Notation "a <? b" := (num_lt a b) : num_scope.
Notation "a >? b" := (num_lt b a) : num_scope.
Notation "a === b" := (num_eq a b) (at level 70, no associativity) : num_scope.
Notation "a !== b" := (negb (num_eq a b)) (at level 70, no associativity) : num_scope.

(** [Math.min] on doubles: NaN when an argument is NaN, and -0 below +0. *)
Definition Math_min (a b : float) : float :=
  if (PrimFloat.is_nan a || PrimFloat.is_nan b)%bool then PrimFloat.nan
  else if PrimFloat.ltb a b then a
  else if PrimFloat.ltb b a then b
  else if PrimFloat.get_sign a then a else b.

(** The numbers of the running program: binary64 with round-to-nearest. *)
#[export] Instance Number_float : Number float := {|
  num_zero := 0%float;
  num_one := 1%float;
  num_two := 2%float;
  num_add := PrimFloat.add;
  num_sub := PrimFloat.sub;
  num_mul := PrimFloat.mul;
  num_div := PrimFloat.div;
  num_neg := PrimFloat.opp;
  num_sqrt := PrimFloat.sqrt;
  num_min := Math_min;
  num_lt := PrimFloat.ltb;
  num_eq := PrimFloat.eqb
|}.

(** The same operations on the reals: arithmetic without rounding. *)
#[export] Instance Number_R : Number R := {|
  num_zero := 0%R;
  num_one := 1%R;
  num_two := 2%R;
  num_add := Rplus;
  num_sub := Rminus;
  num_mul := Rmult;
  num_div := Rdiv;
  num_neg := Ropp;
  num_sqrt := R_sqrt.sqrt;
  num_min := Rmin;
  num_lt := fun a b => if Rlt_dec a b then true else false;
  num_eq := fun a b => if Req_dec_T a b then true else false
|}.

Section Body.

Context {F : Type} {N : Number F}.
Local Open Scope num_scope.

(** [bounds]: [{ minX, maxX, minY, maxY }].  A key that is absent takes the
    default of the destructuring in [_checkBounds]: 0 for a lower bound and
    [Infinity] for an upper bound, which no number exceeds. *)
Record Bounds := mkBounds {
  minX : option F;
  maxX : option F;
  minY : option F;
  maxY : option F
}.

(** The fields of a [ConvgameObject] that the physics reads and writes. *)
Record Body := mkBody {
  x : F;
  y : F;
  width : F;
  height : F;
  velocityX : F;
  velocityY : F;
  mass : F;
  friction : F;
  restitution : F;
  isStatic : bool;
  bounds : option Bounds;
  _accelerationX : F;
  _accelerationY : F
}.

Record BoundingBox := mkBox {
  box_x : F; box_y : F; box_width : F; box_height : F
}.

(** Payloads of the dispatched events. *)
Inductive Event :=
| boundary_hit (boundary : string) (x y : F)
| position_change (x y previousX previousY velocityX velocityY : F)
| collision (thisBox otherBox : BoundingBox).

(** Field assignments. *)
Definition set_x (v : F) (b : Body) : Body :=
  mkBody v (y b) (width b) (height b) (velocityX b) (velocityY b) (mass b)
         (friction b) (restitution b) (isStatic b) (bounds b)
         (_accelerationX b) (_accelerationY b).
Definition set_y (v : F) (b : Body) : Body :=
  mkBody (x b) v (width b) (height b) (velocityX b) (velocityY b) (mass b)
         (friction b) (restitution b) (isStatic b) (bounds b)
         (_accelerationX b) (_accelerationY b).
Definition set_velocityX (v : F) (b : Body) : Body :=
  mkBody (x b) (y b) (width b) (height b) v (velocityY b) (mass b)
         (friction b) (restitution b) (isStatic b) (bounds b)
         (_accelerationX b) (_accelerationY b).
Definition set_velocityY (v : F) (b : Body) : Body :=
  mkBody (x b) (y b) (width b) (height b) (velocityX b) v (mass b)
         (friction b) (restitution b) (isStatic b) (bounds b)
         (_accelerationX b) (_accelerationY b).
Definition set_accelerationX (v : F) (b : Body) : Body :=
  mkBody (x b) (y b) (width b) (height b) (velocityX b) (velocityY b) (mass b)
         (friction b) (restitution b) (isStatic b) (bounds b)
         v (_accelerationY b).
Definition set_accelerationY (v : F) (b : Body) : Body :=
  mkBody (x b) (y b) (width b) (height b) (velocityX b) (velocityY b) (mass b)
         (friction b) (restitution b) (isStatic b) (bounds b)
         (_accelerationX b) v.

Definition getBoundingBox (b : Body) : BoundingBox :=
  mkBox (x b) (y b) (width b) (height b).

(** [getCenter()]: the pair [(x, y)] of the centre. *)
Definition getCenter (b : Body) : F * F :=
  (x b + width b / num_two, y b + height b / num_two).

(** [const { minX = 0, ... } = this.bounds]: a lower bound defaults to 0. *)
Definition lower (m : option F) : F :=
  match m with Some v => v | None => num_zero end.

(** [_checkBounds()].  [hitBoundary] is the single local variable of the
    source: the vertical test overwrites what the horizontal test stored,
    and one event at most is dispatched at the end. *)
Definition _checkBounds (b : Body) : Body * list Event :=
  match bounds b with
  | None => (b, [])
  | Some bd =>
      let hitBoundary : option string := None in
      let '(b, hitBoundary) :=
        if x b <? lower (minX bd) then
          let b := set_x (lower (minX bd)) b in
          let b := set_velocityX (- velocityX b * restitution b) b in
          (b, Some "left"%string)
        else
          match maxX bd with
          | Some maxX =>
              if x b + width b >? maxX then
                let b := set_x (maxX - width b) b in
                let b := set_velocityX (- velocityX b * restitution b) b in
                (b, Some "right"%string)
              else (b, hitBoundary)
          | None => (b, hitBoundary)  (* nothing is [> Infinity] *)
          end in
      let '(b, hitBoundary) :=
        if y b <? lower (minY bd) then
          let b := set_y (lower (minY bd)) b in
          let b := set_velocityY (- velocityY b * restitution b) b in
          (b, Some "top"%string)
        else
          match maxY bd with
          | Some maxY =>
              if y b + height b >? maxY then
                let b := set_y (maxY - height b) b in
                let b := set_velocityY (- velocityY b * restitution b) b in
                (b, Some "bottom"%string)
              else (b, hitBoundary)
          | None => (b, hitBoundary)  (* nothing is [> Infinity] *)
          end in
      match hitBoundary with
      | Some edge => (b, [boundary_hit edge (x b) (y b)])
      | None => (b, [])
      end
  end.

(** [update(deltaTime = 1)]. *)
Definition update (deltaTime : F) (b : Body) : Body * list Event :=
  if isStatic b then (b, [])
  else
    let previousX := x b in
    let previousY := y b in
    (* Apply acceleration to velocity *)
    let b := set_velocityX (velocityX b + _accelerationX b * deltaTime) b in
    let b := set_velocityY (velocityY b + _accelerationY b * deltaTime) b in
    (* Apply friction *)
    let b := set_velocityX (velocityX b * friction b) b in
    let b := set_velocityY (velocityY b * friction b) b in
    (* Update position *)
    let b := set_x (x b + velocityX b * deltaTime) b in
    let b := set_y (y b + velocityY b * deltaTime) b in
    (* Reset acceleration after applying *)
    let b := set_accelerationX num_zero b in
    let b := set_accelerationY num_zero b in
    (* Check bounds *)
    let '(b, hits) :=
      match bounds b with
      | Some _ => _checkBounds b
      | None => (b, [])
      end in
    (* Dispatch position change event if moved *)
    if ((x b !== previousX) || (y b !== previousY))%bool
    then (b, hits ++ [position_change (x b) (y b) previousX previousY
                                      (velocityX b) (velocityY b)])
    else (b, hits).

(** [collidesWith(other)]; [None] is the [null] argument. *)
Definition collidesWith (other : option Body) (b : Body) : bool * list Event :=
  match other with
  | None => (false, [])
  | Some o =>
      let thisBox := getBoundingBox b in
      let otherBox := getBoundingBox o in
      let collides :=
        ((box_x thisBox <? box_x otherBox + box_width otherBox) &&
         (box_x thisBox + box_width thisBox >? box_x otherBox) &&
         (box_y thisBox <? box_y otherBox + box_height otherBox) &&
         (box_y thisBox + box_height thisBox >? box_y otherBox))%bool in
      if collides then (true, [collision thisBox otherBox]) else (false, [])
  end.

(** [applyForce(forceX, forceY)]. *)
Definition applyForce (forceX forceY : F) (b : Body) : Body :=
  if isStatic b then b
  else
    let b := set_accelerationX (_accelerationX b + forceX / mass b) b in
    set_accelerationY (_accelerationY b + forceY / mass b) b.

(** [applyImpulse(impulseX, impulseY)]. *)
Definition applyImpulse (impulseX impulseY : F) (b : Body) : Body :=
  if isStatic b then b
  else
    let b := set_velocityX (velocityX b + impulseX / mass b) b in
    set_velocityY (velocityY b + impulseY / mass b) b.

(** [this.resolveCollision(other)] for two objects; the result is the pair
    of the updated [this] and [other]. *)
Definition resolveCollision (this other : Body) : Body * Body :=
  if (isStatic this && isStatic other)%bool then (this, other)
  else
    let thisCenter := getCenter this in
    let otherCenter := getCenter other in
    (* Calculate collision normal *)
    let dx := fst otherCenter - fst thisCenter in
    let dy := snd otherCenter - snd thisCenter in
    let distance := num_sqrt (dx * dx + dy * dy) in
    if distance === num_zero then (this, other)
    else
      let nx := dx / distance in
      let ny := dy / distance in
      (* Relative velocity *)
      let dvx := velocityX this - velocityX other in
      let dvy := velocityY this - velocityY other in
      (* Relative velocity along normal *)
      let dvn := dvx * nx + dvy * ny in
      (* Don't resolve if velocities are separating *)
      if dvn >? num_zero then (this, other)
      else
        let restitution' := num_min (restitution this) (restitution other) in
        let totalMass :=
          if isStatic this then mass other
          else if isStatic other then mass this
          else mass this + mass other in
        let impulse := - (num_one + restitution') * dvn / totalMass in
        (* Apply impulse *)
        let this' :=
          if negb (isStatic this) then
            let t := set_velocityX (velocityX this - impulse * mass other * nx) this in
            set_velocityY (velocityY t - impulse * mass other * ny) t
          else this in
        let other' :=
          if negb (isStatic other) then
            let o := set_velocityX (velocityX other + impulse * mass this' * nx) other in
            set_velocityY (velocityY o + impulse * mass this' * ny) o
          else other in
        (this', other').

(** ** Vocabulary of the statements

    The definitions below are not methods of the class: they name the
    quantities that the description of the physics speaks about. *)

(** The state after the three integration steps and the reset of the
    acceleration, before any boundary handling. *)
Definition integrate (deltaTime : F) (b : Body) : Body :=
  let vx := (velocityX b + _accelerationX b * deltaTime) * friction b in
  let vy := (velocityY b + _accelerationY b * deltaTime) * friction b in
  mkBody (x b + vx * deltaTime) (y b + vy * deltaTime) (width b) (height b)
         vx vy (mass b) (friction b) (restitution b) (isStatic b) (bounds b)
         num_zero num_zero.

(** Which edge a body lies beyond. *)
Definition hitsLeft (bd : Bounds) (b : Body) : bool := x b <? lower (minX bd).
Definition hitsRight (bd : Bounds) (b : Body) : bool :=
  negb (hitsLeft bd b) &&
  match maxX bd with Some m => x b + width b >? m | None => false end.
Definition hitsTop (bd : Bounds) (b : Body) : bool := y b <? lower (minY bd).
Definition hitsBottom (bd : Bounds) (b : Body) : bool :=
  negb (hitsTop bd b) &&
  match maxY bd with Some m => y b + height b >? m | None => false end.

(** The position an axis is clamped to. *)
Definition clampedX (bd : Bounds) (b : Body) : F :=
  if hitsLeft bd b then lower (minX bd)
  else match maxX bd with
       | Some m => if x b + width b >? m then m - width b else x b
       | None => x b
       end.
Definition clampedY (bd : Bounds) (b : Body) : F :=
  if hitsTop bd b then lower (minY bd)
  else match maxY bd with
       | Some m => if y b + height b >? m then m - height b else y b
       | None => y b
       end.

(** The boundary-hit events of a log, and the edges they name. *)
Definition is_boundary_hit (e : Event) : bool :=
  match e with boundary_hit _ _ _ => true | _ => false end.
Definition boundary_hits (evs : list Event) : list Event :=
  filter is_boundary_hit evs.
Definition names_edge (edge : string) (e : Event) : bool :=
  match e with boundary_hit s _ _ => String.eqb s edge | _ => false end.
Definition notifies (edge : string) (evs : list Event) : bool :=
  existsb (names_edge edge) evs.

(** The quantities of the collision response, in the order the description
    introduces them: the unit normal from this centre to the other's, the
    relative velocity along it, the effective restitution, the total mass
    and the impulse. *)
Definition center_dx (this other : Body) : F :=
  fst (getCenter other) - fst (getCenter this).
Definition center_dy (this other : Body) : F :=
  snd (getCenter other) - snd (getCenter this).
Definition center_distance (this other : Body) : F :=
  num_sqrt (center_dx this other * center_dx this other
            + center_dy this other * center_dy this other).
Definition normalX (this other : Body) : F :=
  center_dx this other / center_distance this other.
Definition normalY (this other : Body) : F :=
  center_dy this other / center_distance this other.
Definition normal_velocity (this other : Body) : F :=
  (velocityX this - velocityX other) * normalX this other
  + (velocityY this - velocityY other) * normalY this other.
Definition effective_restitution (this other : Body) : F :=
  num_min (restitution this) (restitution other).
Definition total_mass (this other : Body) : F :=
  if isStatic this then mass other
  else if isStatic other then mass this
  else mass this + mass other.
Definition impulse_of (this other : Body) : F :=
  - (num_one + effective_restitution this other) * normal_velocity this other
  / total_mass this other.

(** A body with new velocity components and everything else as before. *)
Definition with_velocity (vx vy : F) (b : Body) : Body :=
  mkBody (x b) (y b) (width b) (height b) vx vy (mass b) (friction b)
         (restitution b) (isStatic b) (bounds b)
         (_accelerationX b) (_accelerationY b).

(** Total momentum of a pair, per axis. *)
Definition momentumX (a b : Body) : F :=
  mass a * velocityX a + mass b * velocityX b.
Definition momentumY (a b : Body) : F :=
  mass a * velocityY a + mass b * velocityY b.

(** [setPosition(x, y)], [setVelocity(vx, vy)] and [stop()]. *)
Definition setPosition (px py : F) (b : Body) : Body := set_y py (set_x px b).

Definition setVelocity (vx vy : F) (b : Body) : Body :=
  set_velocityY vy (set_velocityX vx b).

Definition stop (b : Body) : Body :=
  set_accelerationY num_zero
    (set_accelerationX num_zero
       (set_velocityY num_zero (set_velocityX num_zero b))).

(** [this.distanceTo(other)]. *)
Definition distanceTo (this other : Body) : F :=
  let thisCenter := getCenter this in
  let otherCenter := getCenter other in
  let dx := fst otherCenter - fst thisCenter in
  let dy := snd otherCenter - snd thisCenter in
  num_sqrt (dx * dx + dy * dy).

(** The fields that no physics method assigns. *)
Definition same_shape (b b' : Body) : Prop :=
  width b' = width b /\ height b' = height b /\ mass b' = mass b
  /\ friction b' = friction b /\ restitution b' = restitution b
  /\ isStatic b' = isStatic b /\ bounds b' = bounds b.

End Body.

Arguments Bounds F : clear implicits.
Arguments Body F : clear implicits.
Arguments Event F : clear implicits.
Arguments BoundingBox F : clear implicits.

(** ** Sample scenes *)

Module Samples.

(** The arena of the boundary tests: [{ minX: 0, maxX: 200, minY: 0, maxY: 200 }]. *)
Definition arena : Bounds float :=
  mkBounds (Some 0%float) (Some 200%float) (Some 0%float) (Some 200%float).

(** [<convgame-object x="-10" y="50" velocity-x="-5" friction="1"
    restitution="1">] with the arena as [bounds]. *)
Definition left_bouncer : Body float :=
  mkBody (-10)%float 50%float 50%float 50%float (-5)%float 0%float 1%float
         1%float 1%float false (Some arena) 0%float 0%float.

(** A body that leaves the arena through its top-left corner. *)
Definition corner_bouncer : Body float :=
  mkBody (-10)%float (-10)%float 50%float 50%float (-5)%float (-5)%float
         1%float 1%float 1%float false (Some arena) 0%float 0%float.

(** Two unit masses, their centres 30 apart horizontally and 40 vertically,
    the first moving with velocity (-1, 0), that is, away from the second,
    which is at rest. *)
Definition ball (px py vx vy : float) : Body float :=
  mkBody px py 50%float 50%float vx vy 1%float 1%float 1%float false None
         0%float 0%float.
Definition ball_a : Body float := ball 0 0 (-1) 0.
Definition ball_b : Body float := ball 30 40 0 0.

(** Two unit masses on one horizontal line, 100 apart, moving towards each
    other at speed 2 each: a head-on approach. *)
Definition head_on_a : Body float := ball 0 0 2 0.
Definition head_on_b : Body float := ball 100 0 (-2) 0.

(** A body 33.3 wide between 0 and 199.9 (both rounded to doubles), moving
    right at 10 from x = 165. *)
Definition tight_fit : Body float :=
  mkBody 165%float 0%float 0x1.0a66666666666p+5%float 10%float 10%float
         0%float 1%float 1%float 1%float false
         (Some (mkBounds (Some 0%float) (Some 0x1.8fccccccccccdp+7%float)
                         (Some 0%float) (Some 200%float)))
         0%float 0%float.

(** The same two bodies over the reals. *)
Definition real_ball (px py vx vy : R) : Body R :=
  mkBody px py 50%R 50%R vx vy 1%R 1%R 1%R false None 0%R 0%R.
Definition real_ball_a : Body R := real_ball 0 0 (-1) 0.
Definition real_ball_b : Body R := real_ball 30 40 0 0.

End Samples.

End ConvgameObject.

(* ===================================================================== *)
(** * The Tetris engine *)
(* ===================================================================== *)

Module GameTetris.

Local Open Scope Z_scope.

(** ** Data *)

(** A shape is a matrix of 0/1 numbers; a non-zero entry is an occupied
    cell. *)
Definition Shape := list (list Z).

(** The entries of [TETROMINOES], in the order of [Object.keys]. *)
Definition TETROMINOES : list (string * (Shape * string)) :=
  [ ("I", ([[0; 0; 0; 0]; [1; 1; 1; 1]; [0; 0; 0; 0]; [0; 0; 0; 0]], "#00f0f0"));
    ("O", ([[1; 1]; [1; 1]], "#f0f000"));
    ("T", ([[0; 1; 0]; [1; 1; 1]; [0; 0; 0]], "#a000f0"));
    ("S", ([[0; 1; 1]; [1; 1; 0]; [0; 0; 0]], "#00f000"));
    ("Z", ([[1; 1; 0]; [0; 1; 1]; [0; 0; 0]], "#f00000"));
    ("J", ([[1; 0; 0]; [1; 1; 1]; [0; 0; 0]], "#0000f0"));
    ("L", ([[0; 0; 1]; [1; 1; 1]; [0; 0; 0]], "#f0a000")) ]%string.

Definition TETROMINO_KEYS : list string := map fst TETROMINOES.

(** A piece in play: [{ type, shape, color }]. *)
Record Piece := mkPiece {
  type : string;
  shape : Shape;
  color : string
}.

(** A board cell is [null] or the colour of the piece locked there. *)
Definition Cell := option string.
Definition Board := list (list Cell).

(** The score is the only number of the engine that can leave the
    integers: [lineScores[n]] is [undefined] beyond its last index, and
    [undefined * level] is [NaN]. *)
Inductive Num := num (z : Z) | NaN.

Definition plus (a b : Num) : Num :=
  match a, b with
  | num p, num q => num (p + q)
  | _, _ => NaN
  end.

(** Payloads of the dispatched events. *)
Inductive Event :=
| game_start (level speed : Z)
| game_over (score : Num) (level lines : Z)
| line_clear (lines totalLines : Z) (score : Num)
| score_update (score previousScore pointsAdded : Num)
| level_up (level speed lines : Z)
| piece_lock (piece : string) (x y : Z).

(** What a method does to the outside: an event, or a call that repaints
    the board or the preview canvas (both only read the state). *)
Inductive Effect :=
| dispatch (e : Event)
| render
| renderPreview.

(** The fields of a [GameTetris] instance.  [_gameLoop] is the handle of
    the interval timer: [Some ms] while a timer of period [ms] is pending,
    [None] for [null].  [log] records the effects in the order they
    happened.  The fields that only configure the painting ([cellSize],
    [showGhost], [showGrid]) are left out. *)
Record Game := mkGame {
  width : Z;
  height : Z;
  speed : Z;
  score : Num;
  level : Z;
  lines : Z;
  paused : bool;
  gameOver : bool;
  gameStarted : bool;
  _board : Board;
  _currentPiece : option Piece;
  _currentX : Z;
  _currentY : Z;
  _nextPiece : option Piece;
  _gameLoop : option Z;
  _linesForNextLevel : Z;
  log : list Effect
}.

(** The constructor's defaults. *)
Definition new : Game :=
  mkGame 10 20 1000 (num 0) 1 0 false false false [] None 0 0 None None 10 [].

(** Field assignments. *)
Definition set_score (v : Num) (g : Game) : Game :=
  mkGame (width g) (height g) (speed g) v (level g) (lines g) (paused g)
         (gameOver g) (gameStarted g) (_board g) (_currentPiece g)
         (_currentX g) (_currentY g) (_nextPiece g) (_gameLoop g)
         (_linesForNextLevel g) (log g).
Definition set_level (v : Z) (g : Game) : Game :=
  mkGame (width g) (height g) (speed g) (score g) v (lines g) (paused g)
         (gameOver g) (gameStarted g) (_board g) (_currentPiece g)
         (_currentX g) (_currentY g) (_nextPiece g) (_gameLoop g)
         (_linesForNextLevel g) (log g).
Definition set_lines (v : Z) (g : Game) : Game :=
  mkGame (width g) (height g) (speed g) (score g) (level g) v (paused g)
         (gameOver g) (gameStarted g) (_board g) (_currentPiece g)
         (_currentX g) (_currentY g) (_nextPiece g) (_gameLoop g)
         (_linesForNextLevel g) (log g).
Definition set_paused (v : bool) (g : Game) : Game :=
  mkGame (width g) (height g) (speed g) (score g) (level g) (lines g) v
         (gameOver g) (gameStarted g) (_board g) (_currentPiece g)
         (_currentX g) (_currentY g) (_nextPiece g) (_gameLoop g)
         (_linesForNextLevel g) (log g).
Definition set_gameOver (v : bool) (g : Game) : Game :=
  mkGame (width g) (height g) (speed g) (score g) (level g) (lines g)
         (paused g) v (gameStarted g) (_board g) (_currentPiece g)
         (_currentX g) (_currentY g) (_nextPiece g) (_gameLoop g)
         (_linesForNextLevel g) (log g).
Definition set_gameStarted (v : bool) (g : Game) : Game :=
  mkGame (width g) (height g) (speed g) (score g) (level g) (lines g)
         (paused g) (gameOver g) v (_board g) (_currentPiece g)
         (_currentX g) (_currentY g) (_nextPiece g) (_gameLoop g)
         (_linesForNextLevel g) (log g).
Definition set_board (v : Board) (g : Game) : Game :=
  mkGame (width g) (height g) (speed g) (score g) (level g) (lines g)
         (paused g) (gameOver g) (gameStarted g) v (_currentPiece g)
         (_currentX g) (_currentY g) (_nextPiece g) (_gameLoop g)
         (_linesForNextLevel g) (log g).
Definition set_currentPiece (v : option Piece) (g : Game) : Game :=
  mkGame (width g) (height g) (speed g) (score g) (level g) (lines g)
         (paused g) (gameOver g) (gameStarted g) (_board g) v
         (_currentX g) (_currentY g) (_nextPiece g) (_gameLoop g)
         (_linesForNextLevel g) (log g).
Definition set_currentX (v : Z) (g : Game) : Game :=
  mkGame (width g) (height g) (speed g) (score g) (level g) (lines g)
         (paused g) (gameOver g) (gameStarted g) (_board g) (_currentPiece g)
         v (_currentY g) (_nextPiece g) (_gameLoop g)
         (_linesForNextLevel g) (log g).
Definition set_currentY (v : Z) (g : Game) : Game :=
  mkGame (width g) (height g) (speed g) (score g) (level g) (lines g)
         (paused g) (gameOver g) (gameStarted g) (_board g) (_currentPiece g)
         (_currentX g) v (_nextPiece g) (_gameLoop g)
         (_linesForNextLevel g) (log g).
Definition set_nextPiece (v : option Piece) (g : Game) : Game :=
  mkGame (width g) (height g) (speed g) (score g) (level g) (lines g)
         (paused g) (gameOver g) (gameStarted g) (_board g) (_currentPiece g)
         (_currentX g) (_currentY g) v (_gameLoop g)
         (_linesForNextLevel g) (log g).
Definition set_gameLoop (v : option Z) (g : Game) : Game :=
  mkGame (width g) (height g) (speed g) (score g) (level g) (lines g)
         (paused g) (gameOver g) (gameStarted g) (_board g) (_currentPiece g)
         (_currentX g) (_currentY g) (_nextPiece g) v
         (_linesForNextLevel g) (log g).
Definition set_linesForNextLevel (v : Z) (g : Game) : Game :=
  mkGame (width g) (height g) (speed g) (score g) (level g) (lines g)
         (paused g) (gameOver g) (gameStarted g) (_board g) (_currentPiece g)
         (_currentX g) (_currentY g) (_nextPiece g) (_gameLoop g)
         v (log g).
Definition set_log (v : list Effect) (g : Game) : Game :=
  mkGame (width g) (height g) (speed g) (score g) (level g) (lines g)
         (paused g) (gameOver g) (gameStarted g) (_board g) (_currentPiece g)
         (_currentX g) (_currentY g) (_nextPiece g) (_gameLoop g)
         (_linesForNextLevel g) v.

(** ** Methods as state transformers

    A method either returns a value and the state it leaves, or throws (a
    [TypeError] on reading a property of [null] or [undefined], a
    [RangeError] from [Array(n)]) in the state it had reached, or is cut
    off because the fuel handed to a [while] loop is used up. *)
Inductive Outcome (A : Type) : Type :=
| Return (a : A) (g : Game)
| Throw (g : Game)
| OutOfFuel.

Arguments Return {A} a g.
Arguments Throw {A} g.
Arguments OutOfFuel {A}.

Definition M (A : Type) : Type := Game -> Outcome A.

Definition ret {A : Type} (a : A) : M A := fun g => Return a g.

Definition bind {A B : Type} (m : M A) (k : A -> M B) : M B :=
  fun g =>
    match m g with
    | Return a g' => k a g'
    | Throw g' => Throw g'
    | OutOfFuel => OutOfFuel
    end.

Declare Scope tetris_scope.
Delimit Scope tetris_scope with tetris.
Notation "x <- m ;; k" := (bind m (fun x => k))
  (at level 61, m at next level, right associativity) : tetris_scope.
Notation "m ;; k" := (bind m (fun _ => k))
  (at level 61, right associativity) : tetris_scope.
Local Open Scope tetris_scope.

Definition throw {A : Type} : M A := fun g => Throw g.
Definition outOfFuel {A : Type} : M A := fun _ => OutOfFuel.

(** Reading a field, and assigning to the state. *)
Definition read {A : Type} (f : Game -> A) : M A := fun g => Return (f g) g.
Definition assign (f : Game -> Game) : M unit := fun g => Return tt (f g).

(** A value whose property is read next: [None] stands for [null] or
    [undefined] and throws. *)
Definition must {A : Type} (o : option A) : M A :=
  match o with
  | Some a => ret a
  | None => throw
  end.

(** [this._currentPiece], about to be dereferenced. *)
Definition currentPiece : M Piece := fun g => must (_currentPiece g) g.

Definition _dispatchEvent (e : Event) : M unit :=
  assign (fun g => set_log (log g ++ [dispatch e]) g).

(** [_render()] and [_renderPreview()] change nothing of the game: a call is
    recorded in the log.  What [_render()] reads of the game while it paints,
    and the loop it runs for the ghost piece, is [_render_body] below. *)
Definition _render : M unit := assign (fun g => set_log (log g ++ [render]) g).

Definition _renderPreview : M unit :=
  assign (fun g => set_log (log g ++ [renderPreview]) g).

(** [Array(n).fill(null)]; [Array(n)] raises a [RangeError] for a negative
    length. *)
Definition emptyRow (n : Z) : M (list Cell) :=
  if n <? 0 then throw else ret (repeat (@None string) (Z.to_nat n)).

(** [_initBoard()]. *)
Definition _initBoard : M unit :=
  assign (fun g =>
    set_board (repeat (repeat None (Z.to_nat (width g))) (Z.to_nat (height g))) g).

(** [_getRandomPiece()].  [rnd] is the value of
    [Math.floor(Math.random() * TETROMINO_KEYS.length)], one of 0..6. *)
Definition lookup (key : string) : option (Shape * string) :=
  option_map snd (find (fun e => String.eqb (fst e) key) TETROMINOES).

Definition _getRandomPiece (rnd : nat) : M Piece :=
  key <- must (nth_error TETROMINO_KEYS rnd) ;;
  entry <- must (lookup key) ;;
  ret {| type := key;
         shape := map (fun row => row) (fst entry);
         color := snd entry |}.

(** [_getCurrentSpeed()]. *)
Definition _getCurrentSpeed (g : Game) : Z :=
  Z.max 100 (speed g - (level g - 1) * 80).

(** [_stopGameLoop()] and [_startGameLoop()]. *)
Definition _stopGameLoop : M unit :=
  assign (fun g =>
    match _gameLoop g with
    | Some _ => set_gameLoop None g
    | None => g
    end).

Definition _startGameLoop : M unit :=
  _stopGameLoop ;;
  assign (fun g => set_gameLoop (Some (_getCurrentSpeed g)) g).

(** ** Validity of a position *)

(** Truthiness of a board entry: [null], [undefined] (an index past the end
    of the row) and the empty string are falsy. *)
Definition occupied (c : option Cell) : bool :=
  match c with
  | Some (Some s) => negb (String.eqb s "")
  | _ => false
  end.

(** The inner loop of [_isValidPosition] over the columns of one shape row.
    [Some false] is the early [return false]; [Some true] means the loop ran
    to its end; [None] is the [TypeError] of indexing a missing board row. *)
Fixpoint validCols (w h : Z) (board : Board) (cells : list Z)
         (x y row col : Z) : option bool :=
  match cells with
  | [] => Some true
  | c :: cells' =>
      if c =? 0 then validCols w h board cells' x y row (col + 1)
      else
        let newX := x + col in
        let newY := y + row in
        if (newX <? 0) || (newX >=? w) || (newY >=? h) then Some false
        else if newY >=? 0 then
          match nth_error board (Z.to_nat newY) with
          | None => None
          | Some r =>
              if occupied (nth_error r (Z.to_nat newX)) then Some false
              else validCols w h board cells' x y row (col + 1)
          end
        else validCols w h board cells' x y row (col + 1)
  end.

(** The outer loop over the rows of the shape. *)
Fixpoint validRows (w h : Z) (board : Board) (rows : Shape)
         (x y row : Z) : option bool :=
  match rows with
  | [] => Some true
  | cells :: rows' =>
      match validCols w h board cells x y row 0 with
      | Some true => validRows w h board rows' x y (row + 1)
      | r => r
      end
  end.

(** [_isValidPosition(shape, x, y)] as a function of the state it reads. *)
Definition isValidPosition (g : Game) (sh : Shape) (x y : Z) : option bool :=
  validRows (width g) (height g) (_board g) sh x y 0.

Definition _isValidPosition (sh : Shape) (x y : Z) : M bool :=
  fun g => must (isValidPosition g sh x y) g.

(** ** Moving and rotating *)

(** [_moveDown()]. *)
Definition _moveDown : M bool :=
  p <- currentPiece ;;
  x <- read _currentX ;;
  y <- read _currentY ;;
  ok <- _isValidPosition (shape p) x (y + 1) ;;
  if ok then
    assign (fun g => set_currentY (_currentY g + 1) g) ;;
    ret true
  else ret false.

(** [_moveLeft()] and [_moveRight()]. *)
Definition _moveLeft : M unit :=
  p <- currentPiece ;;
  x <- read _currentX ;;
  y <- read _currentY ;;
  ok <- _isValidPosition (shape p) (x - 1) y ;;
  if ok then
    assign (fun g => set_currentX (_currentX g - 1) g) ;;
    _render
  else ret tt.

Definition _moveRight : M unit :=
  p <- currentPiece ;;
  x <- read _currentX ;;
  y <- read _currentY ;;
  ok <- _isValidPosition (shape p) (x + 1) y ;;
  if ok then
    assign (fun g => set_currentX (_currentX g + 1) g) ;;
    _render
  else ret tt.

(** [_rotateMatrix(matrix)]: [rotated[col][rows - 1 - row] = matrix[row][col]]
    with [row] running from [rows - 1] down to 0, so row [col] of the result
    lists column [col] of the matrix from its last row to its first.
    [matrix[0].length] throws on an empty matrix; an entry missing from a
    short row is [undefined], which is falsy like 0. *)
Definition _rotateMatrix (matrix : Shape) : option Shape :=
  match matrix with
  | [] => None
  | first :: _ =>
      let cols := List.length first in
      Some (map (fun col => map (fun r => nth col r 0) (rev matrix))
                (seq 0 cols))
  end.

(** [this._currentPiece.shape = rotated]. *)
Definition assignShape (rotated : Shape) : M unit :=
  p <- currentPiece ;;
  assign (set_currentPiece (Some (mkPiece (type p) rotated (color p)))).

(** The [for (const kick of kicks)] loop of [_rotate]. *)
Fixpoint tryKicks (rotated : Shape) (kicks : list Z) : M unit :=
  match kicks with
  | [] => ret tt
  | kick :: kicks' =>
      x <- read _currentX ;;
      y <- read _currentY ;;
      ok <- _isValidPosition rotated (x + kick) y ;;
      if ok then
        assignShape rotated ;;
        assign (fun g => set_currentX (_currentX g + kick) g) ;;
        _render
      else tryKicks rotated kicks'
  end.

(** [_rotate()]. *)
Definition _rotate : M unit :=
  p <- currentPiece ;;
  rotated <- must (_rotateMatrix (shape p)) ;;
  x <- read _currentX ;;
  y <- read _currentY ;;
  ok <- _isValidPosition rotated x y ;;
  if ok then
    assignShape rotated ;;
    _render
  else tryKicks rotated [-1; 1; -2; 2].

(** ** Score, level and the end of the game *)

(** [_addScore(points)]. *)
Definition _addScore (points : Num) : M unit :=
  previousScore <- read score ;;
  assign (fun g => set_score (plus (score g) points) g) ;;
  s <- read score ;;
  _dispatchEvent (score_update s previousScore points).

(** [_levelUp()]. *)
Definition _levelUp : M unit :=
  assign (fun g => set_level (level g + 1) g) ;;
  assign (fun g => set_linesForNextLevel (_linesForNextLevel g + 10) g) ;;
  _startGameLoop ;;
  g <- read (fun g => g) ;;
  _dispatchEvent (level_up (level g) (_getCurrentSpeed g) (lines g)).

(** [_endGame()]. *)
Definition _endGame : M unit :=
  assign (set_gameOver true) ;;
  _stopGameLoop ;;
  g <- read (fun g => g) ;;
  _dispatchEvent (game_over (score g) (level g) (lines g)).

(** ** Locking and clearing *)

(** [row[x] = v] on an array: in range it replaces the entry; past the end
    it extends the row and leaves holes between the old end and [x].  A
    hole reads as [undefined], which is falsy, and [every] skips it, so the
    program cannot tell it from an empty string, which is falsy too and
    passes [cell !== null]: holes are written as [Some ""]. *)
Definition writeAt (x : nat) (v : Cell) (r : list Cell) : list Cell :=
  if (x <? List.length r)%nat then firstn x r ++ v :: skipn (S x) r
  else r ++ repeat (Some ""%string) (x - List.length r) ++ [v].

(** [this._board[y][x] = v]; throws when row [y] does not exist. *)
Definition writeBoard (y x : nat) (v : Cell) : M unit :=
  b <- read _board ;;
  r <- must (nth_error b y) ;;
  assign (set_board (firstn y b ++ writeAt x v r :: skipn (S y) b)).

(** The loops of [_lockPiece] over the columns and the rows of the shape. *)
Fixpoint lockCols (p : Piece) (cells : list Z) (row col : Z) : M unit :=
  match cells with
  | [] => ret tt
  | c :: cells' =>
      (if c =? 0 then ret tt
       else
         g <- read (fun g => g) ;;
         let y := _currentY g + row in
         let x := _currentX g + col in
         if (y >=? 0) && (y <? height g) && (x >=? 0) && (x <? width g)
         then writeBoard (Z.to_nat y) (Z.to_nat x) (Some (color p))
         else ret tt) ;;
      lockCols p cells' row (col + 1)
  end.

Fixpoint lockRows (p : Piece) (rows : Shape) (row : Z) : M unit :=
  match rows with
  | [] => ret tt
  | cells :: rows' =>
      lockCols p cells row 0 ;;
      lockRows p rows' (row + 1)
  end.

(** [_lockPiece()]. *)
Definition _lockPiece : M unit :=
  p <- currentPiece ;;
  lockRows p (shape p) 0 ;;
  g <- read (fun g => g) ;;
  _dispatchEvent (piece_lock (type p) (_currentX g) (_currentY g)).

(** [row.every(cell => cell !== null)]. *)
Definition isFull (r : list Cell) : bool :=
  forallb (fun c => match c with Some _ => true | None => false end) r.

(** The scan of [_clearLines]: [ys] are the row indices in the order they
    are visited, from [height - 1] down to 0; the indices of full rows are
    pushed in that order. *)
Fixpoint scanFull (ys : list nat) : M (list nat) :=
  match ys with
  | [] => ret []
  | y :: ys' =>
      b <- read _board ;;
      r <- must (nth_error b y) ;;
      rest <- scanFull ys' ;;
      ret (if isFull r then y :: rest else rest)
  end.

(** [this._board.splice(lineY, 1)] and [this._board.unshift(row)]. *)
Definition splice1 (lineY : nat) (b : Board) : Board :=
  firstn lineY b ++ skipn (S lineY) b.

Definition unshift (r : list Cell) (b : Board) : Board := r :: b.

(** The [for (const lineY of linesToClear)] loop. *)
Fixpoint removeLines (linesToClear : list nat) : M unit :=
  match linesToClear with
  | [] => ret tt
  | lineY :: rest =>
      assign (fun g => set_board (splice1 lineY (_board g)) g) ;;
      w <- read width ;;
      r <- emptyRow w ;;
      assign (fun g => set_board (unshift r (_board g)) g) ;;
      removeLines rest
  end.

Definition lineScores : list Z := [0; 100; 300; 500; 800].

(** [lineScores[n] * this.level]. *)
Definition linePoints (n : nat) (lvl : Z) : Num :=
  match nth_error lineScores n with
  | Some s => num (s * lvl)
  | None => NaN
  end.

(** [_clearLines()]. *)
Definition _clearLines : M unit :=
  h <- read height ;;
  linesToClear <- scanFull (rev (seq 0 (Z.to_nat h))) ;;
  if (List.length linesToClear =? 0)%nat then ret tt
  else
    removeLines linesToClear ;;
    lvl <- read level ;;
    _addScore (linePoints (List.length linesToClear) lvl) ;;
    assign (fun g => set_lines (lines g + Z.of_nat (List.length linesToClear)) g) ;;
    g <- read (fun g => g) ;;
    _dispatchEvent (line_clear (Z.of_nat (List.length linesToClear))
                               (lines g) (score g)) ;;
    if lines g >=? _linesForNextLevel g then _levelUp else ret tt.

(** ** Spawning, dropping and the tick *)

(** [_spawnPiece()]. *)
Definition _spawnPiece (rnd : nat) : M unit :=
  assign (fun g => set_currentPiece (_nextPiece g) g) ;;
  fresh <- _getRandomPiece rnd ;;
  assign (set_nextPiece (Some fresh)) ;;
  (* Center the piece *)
  p <- currentPiece ;;
  first <- must (nth_error (shape p) 0) ;;
  assign (fun g => set_currentX ((width g - Z.of_nat (List.length first)) / 2) g) ;;
  assign (set_currentY 0) ;;
  (* Check if spawn position is valid (game over if not) *)
  p <- currentPiece ;;
  x <- read _currentX ;;
  y <- read _currentY ;;
  ok <- _isValidPosition (shape p) x y ;;
  (if negb ok then _endGame else ret tt) ;;
  _renderPreview.

(** The [while] loop of [_hardDrop]; the result is [dropDistance]. *)
Fixpoint dropLoop (fuel : nat) (dropDistance : Z) : M Z :=
  match fuel with
  | O => outOfFuel
  | S fuel' =>
      p <- currentPiece ;;
      x <- read _currentX ;;
      y <- read _currentY ;;
      ok <- _isValidPosition (shape p) x (y + 1) ;;
      if ok then
        assign (fun g => set_currentY (_currentY g + 1) g) ;;
        dropLoop fuel' (dropDistance + 1)
      else ret dropDistance
  end.

(** [_hardDrop()]. *)
Definition _hardDrop (fuel : nat) (rnd : nat) : M unit :=
  dropDistance <- dropLoop fuel 0 ;;
  (* Award points for hard drop *)
  _addScore (num (dropDistance * 2)) ;;
  _lockPiece ;;
  _clearLines ;;
  _spawnPiece rnd ;;
  _render.

(** [_tick()]. *)
Definition _tick (rnd : nat) : M unit :=
  g <- read (fun g => g) ;;
  if paused g || gameOver g then ret tt
  else
    moved <- _moveDown ;;
    (if negb moved then
       _lockPiece ;;
       _clearLines ;;
       _spawnPiece rnd
     else ret tt) ;;
    _render.

(** [startGame()]; it draws two random pieces. *)
Definition startGame (rnd1 rnd2 : nat) : M unit :=
  _initBoard ;;
  assign (set_score (num 0)) ;;
  assign (set_level 1) ;;
  assign (set_lines 0) ;;
  assign (set_gameOver false) ;;
  assign (set_paused false) ;;
  assign (set_gameStarted true) ;;
  assign (set_linesForNextLevel 10) ;;
  fresh <- _getRandomPiece rnd1 ;;
  assign (set_nextPiece (Some fresh)) ;;
  _spawnPiece rnd2 ;;
  _startGameLoop ;;
  g <- read (fun g => g) ;;
  _dispatchEvent (game_start (level g) (_getCurrentSpeed g)).

(** [togglePause()]. *)
Definition togglePause : M unit :=
  g <- read (fun g => g) ;;
  if negb (gameStarted g) || gameOver g then ret tt
  else
    assign (fun g => set_paused (negb (paused g)) g) ;;
    p <- read paused ;;
    if p then _stopGameLoop else _startGameLoop.

(** [reset()]. *)
Definition reset : M unit :=
  _stopGameLoop ;;
  _initBoard ;;
  assign (set_score (num 0)) ;;
  assign (set_level 1) ;;
  assign (set_lines 0) ;;
  assign (set_gameOver false) ;;
  assign (set_paused false) ;;
  assign (set_gameStarted false) ;;
  assign (set_currentPiece None) ;;
  assign (set_nextPiece None) ;;
  _render ;;
  _renderPreview.

(** [_handleKeyDown(e)] with [key = e.key].  [rnd1] and [rnd2] are the random
    draws that the key may consume and [fuel] bounds the loop of a hard
    drop. *)
Definition isKey (key : string) (names : list string) : bool :=
  existsb (String.eqb key) names.

Definition _handleKeyDown (key : string) (fuel rnd1 rnd2 : nat) : M unit :=
  g <- read (fun g => g) ;;
  if negb (gameStarted g) || gameOver g then
    if isKey key ["Enter"; " "]%string then startGame rnd1 rnd2 else ret tt
  else if isKey key ["p"; "P"; "Escape"]%string then togglePause
  else if paused g then ret tt
  else if isKey key ["ArrowLeft"; "a"; "A"]%string then _moveLeft
  else if isKey key ["ArrowRight"; "d"; "D"]%string then _moveRight
  else if isKey key ["ArrowDown"; "s"; "S"]%string then
    moved <- _moveDown ;;
    (if moved then _addScore (num 1) else ret tt) ;;
    _render
  else if isKey key ["ArrowUp"; "w"; "W"; "x"; "X"]%string then _rotate
  else if isKey key [" "]%string then _hardDrop fuel rnd1
  else ret tt.

(** ** Vocabulary of the statements *)

(** The board has [height] rows of [width] cells, as [_initBoard] builds
    it. *)
Definition board_wf (g : Game) : Prop :=
  0 <= width g /\ 0 <= height g
  /\ List.length (_board g) = Z.to_nat (height g)
  /\ Forall (fun r => List.length r = Z.to_nat (width g)) (_board g).

(** The indices of the full rows of a board, the lowest row first. *)
Definition fullRows (b : Board) : list nat :=
  filter (fun y => isFull (nth y b [])) (rev (seq 0 (List.length b))).

(** One round of the removal loop on the board. *)
Definition removeLine (w : Z) (b : Board) (lineY : nat) : Board :=
  unshift (repeat None (Z.to_nat w)) (splice1 lineY b).

(** What line clearing is meant to produce: the rows that are not full, in
    their order, below as many empty rows as rows were removed. *)
Definition compacted (w : Z) (b : Board) : Board :=
  repeat (repeat None (Z.to_nat w)) (List.length (filter isFull b))
  ++ filter (fun r => negb (isFull r)) b.

(** The state that [_addScore(points)] leaves. *)
Definition afterAddScore (points : Num) (g : Game) : Game :=
  set_log (log g ++ [dispatch (score_update (plus (score g) points)
                                            (score g) points)])
          (set_score (plus (score g) points) g).

(** The state that [_levelUp()] leaves. *)
Definition afterLevelUp (g : Game) : Game :=
  let lvl := level g + 1 in
  let ms := Z.max 100 (speed g - (lvl - 1) * 80) in
  mkGame (width g) (height g) (speed g) (score g) lvl (lines g) (paused g)
         (gameOver g) (gameStarted g) (_board g) (_currentPiece g)
         (_currentX g) (_currentY g) (_nextPiece g) (Some ms)
         (_linesForNextLevel g + 10)
         (log g ++ [dispatch (level_up lvl ms (lines g))]).

(** The state that [_endGame()] leaves. *)
Definition afterEndGame (g : Game) : Game :=
  mkGame (width g) (height g) (speed g) (score g) (level g) (lines g)
         (paused g) true (gameStarted g) (_board g) (_currentPiece g)
         (_currentX g) (_currentY g) (_nextPiece g) None
         (_linesForNextLevel g)
         (log g ++ [dispatch (game_over (score g) (level g) (lines g))]).

(** The state of [_clearLines] after the rows [ls] were handled, the score
    awarded and the line-clear event dispatched, before the level check. *)
Definition afterClear (ls : list nat) (g : Game) : Game :=
  let n := Z.of_nat (List.length ls) in
  let points := linePoints (List.length ls) (level g) in
  let total := plus (score g) points in
  mkGame (width g) (height g) (speed g) total (level g) (lines g + n)
         (paused g) (gameOver g) (gameStarted g)
         (fold_left (removeLine (width g)) ls (_board g))
         (_currentPiece g) (_currentX g) (_currentY g) (_nextPiece g)
         (_gameLoop g) (_linesForNextLevel g)
         ((log g ++ [dispatch (score_update total (score g) points)])
          ++ [dispatch (line_clear n (lines g + n) total)]).

(** A piece of the current game with another shape. *)
Definition withShape (sh : Shape) (p : Piece) : Piece :=
  mkPiece (type p) sh (color p).

(** The state that a committed rotation leaves: the rotated shape, the
    column moved by the kick (if any), and one repaint. *)
Definition commitRotation (rotated : Shape) (kick : option Z) (g : Game) : Game :=
  mkGame (width g) (height g) (speed g) (score g) (level g) (lines g)
         (paused g) (gameOver g) (gameStarted g) (_board g)
         (option_map (withShape rotated) (_currentPiece g))
         (match kick with Some k => _currentX g + k | None => _currentX g end)
         (_currentY g) (_nextPiece g) (_gameLoop g) (_linesForNextLevel g)
         (log g ++ [render]).

(** Whether a shape fits at the current row, [dx] columns to the right. *)
Definition fits (g : Game) (sh : Shape) (dx : Z) : bool :=
  match isValidPosition g sh (_currentX g + dx) (_currentY g) with
  | Some true => true
  | _ => false
  end.

(** [n] ticks of the timer, with the random draws they would use. *)
Fixpoint ticks (rnds : list nat) : M unit :=
  match rnds with
  | [] => ret tt
  | rnd :: rnds' => _tick rnd ;; ticks rnds'
  end.

(** ** The ghost piece *)

(** The [while] loop of [_getGhostY]: it only reads the state. *)
Fixpoint ghostLoop (fuel : nat) (ghostY : Z) : M Z :=
  match fuel with
  | O => outOfFuel
  | S fuel' =>
      p <- currentPiece ;;
      x <- read _currentX ;;
      ok <- _isValidPosition (shape p) x (ghostY + 1) ;;
      if ok then ghostLoop fuel' (ghostY + 1) else ret ghostY
  end.

(** [_getGhostY()]. *)
Definition _getGhostY (fuel : nat) : M Z :=
  y <- read _currentY ;;
  ghostLoop fuel y.

(** ** Painting the board

    The body of [_render()] on a component that has its canvas, as far as it
    depends on the game.  The scan for the placed cells reads
    [this._board[y][x]] for every [y < height] and [x < width], which throws
    when row [y] is missing; then, with a current piece and [showGhost] set,
    [_getGhostY()] is called; the loops that draw the ghost and the current
    piece only read the shape.  The drawing calls touch the canvas and nothing
    of the game.  [showGhost] is a property of the component that only this
    method reads. *)
Fixpoint paintRows (ys : list nat) : M unit :=
  match ys with
  | [] => ret tt
  | y :: ys' =>
      w <- read width ;;
      (if 0 <? w then
         b <- read _board ;;
         _ <- must (nth_error b y) ;;
         ret tt
       else ret tt) ;;
      paintRows ys'
  end.

Definition _render_body (showGhost : bool) (fuel : nat) : M unit :=
  h <- read height ;;
  paintRows (seq 0 (Z.to_nat h)) ;;
  p <- read _currentPiece ;;
  match p with
  | Some _ => if showGhost then _getGhostY fuel ;; ret tt else ret tt
  | None => ret tt
  end.

(** ** More vocabulary *)

(** Entry [(r, c)] of a shape is an occupied cell. *)
Definition blockAt (sh : Shape) (r c : nat) : bool :=
  negb (nth c (nth r sh []) 0 =? 0).

(** The board entry at row [Y] and column [X], for indices on the board. *)
Definition cellAt (b : Board) (Y X : nat) : option Cell :=
  match nth_error b Y with
  | Some r => nth_error r X
  | None => None
  end.

(** A block placed at column [X] and row [Y] is acceptable: inside the side
    walls, above the floor and, when it is on the board, on a free cell. *)
Definition freeAt (g : Game) (X Y : Z) : Prop :=
  0 <= X < width g /\ Y < height g
  /\ (0 <= Y -> occupied (cellAt (_board g) (Z.to_nat Y) (Z.to_nat X)) = false).

(** A matrix of [r] rows and [c] columns. *)
Definition rect (sh : Shape) (r c : nat) : Prop :=
  List.length sh = r /\ Forall (fun row => List.length row = c) sh.

(** A shape that the engine can handle: a matrix with at least one row and
    one column. *)
Definition goodShape (sh : Shape) : Prop :=
  exists r c, (1 <= r)%nat /\ (1 <= c)%nat /\ rect sh r c.

(** How many cells of a shape are occupied. *)
Definition blockCount (sh : Shape) : nat :=
  List.length (filter (fun c => negb (c =? 0)) (List.concat sh)).

(** The current piece sits at a valid position. *)
Definition positionValid (g : Game) : Prop :=
  exists p, _currentPiece g = Some p
            /\ isValidPosition g (shape p) (_currentX g) (_currentY g) = Some true.

(** A shape with at least one occupied cell. *)
Definition hasBlock (sh : Shape) : Prop :=
  exists i j, blockAt sh i j = true.

(** A game in play: the board is well formed and both pieces are there,
    with shapes the engine can handle, each with an occupied cell. *)
Definition inPlay (g : Game) : Prop :=
  board_wf g
  /\ (exists p, _currentPiece g = Some p
                /\ goodShape (shape p) /\ hasBlock (shape p))
  /\ (exists q, _nextPiece g = Some q
                /\ goodShape (shape q) /\ hasBlock (shape q)).

(** Painting the game returns, whether the ghost piece is shown or not. *)
Definition paints (fuel : nat) (g : Game) : Prop :=
  forall showGhost : bool, _render_body showGhost fuel g = Return tt g.

(** The level bookkeeping agrees with the line count: the next threshold is
    ten times the level, and the lines cleared so far lie in the ten below
    it. *)
Definition levelMatchesLines (g : Game) : Prop :=
  _linesForNextLevel g = 10 * level g
  /\ 10 * (level g - 1) <= lines g < 10 * level g.

(** What a move leaves alone: everything but the piece, its position and
    the log. *)
Definition sameGame (g g' : Game) : Prop :=
  width g' = width g /\ height g' = height g /\ speed g' = speed g
  /\ score g' = score g /\ level g' = level g /\ lines g' = lines g
  /\ paused g' = paused g /\ gameOver g' = gameOver g
  /\ gameStarted g' = gameStarted g /\ _board g' = _board g
  /\ _nextPiece g' = _nextPiece g /\ _gameLoop g' = _gameLoop g
  /\ _linesForNextLevel g' = _linesForNextLevel g.

(** The cells that the loops of [_lockPiece] reach: column [X] is met in a
    row of the shape whose first entry is at column [c0], and cell [(Y, X)]
    is met in the rows of a shape whose first row is at row [r0]. *)
Fixpoint inCols (cells : list Z) (c0 X : Z) : bool :=
  match cells with
  | [] => false
  | c :: cells' => (negb (c =? 0) && (X =? c0)) || inCols cells' (c0 + 1) X
  end.

Fixpoint inRows (rows : Shape) (r0 cx Y X : Z) : bool :=
  match rows with
  | [] => false
  | cells :: rows' =>
      ((Y =? r0) && inCols cells cx X) || inRows rows' (r0 + 1) cx Y X
  end.

(** The board cells under the occupied cells of the current piece. *)
Definition covered (g : Game) (p : Piece) (Y X : nat) : bool :=
  inRows (shape p) (_currentY g) (_currentX g) (Z.of_nat Y) (Z.of_nat X).

(** A board of [H] rows of [W] cells. *)
Definition dims (b : Board) (H W : nat) : Prop :=
  List.length b = H /\ Forall (fun r => List.length r = W) b.

(** ** Sample games *)

Module Samples.

Definition X : Cell := Some "#f00000"%string.
Definition o : Cell := None.

(** A board four cells wide and four rows high whose two lowest rows are
    full, under a row with a single block. *)
Definition two_full : Game :=
  mkGame 4 4 1000 (num 0) 1 0 false false true
         [ [o; o; o; o];
           [X; o; o; o];
           [X; X; X; X];
           [X; X; X; X] ]
         None 0 0 None (Some 1000) 10 [].

(** The same board with one full row only. *)
Definition one_full : Game :=
  mkGame 4 4 1000 (num 0) 1 0 false false true
         [ [o; o; o; o];
           [o; o; o; o];
           [X; o; o; o];
           [X; X; X; X] ]
         None 0 0 None (Some 1000) 10 [].

Definition pieceT : Piece :=
  mkPiece "T" [[0; 1; 0]; [1; 1; 1]; [0; 0; 0]] "#a000f0".
Definition pieceO : Piece := mkPiece "O" [[1; 1]; [1; 1]] "#f0f000".

(** A game in play on the default 10 x 20 board, empty, with a T piece at
    the top. *)
Definition playing : Game :=
  mkGame 10 20 1000 (num 0) 1 0 false false true
         (repeat (repeat None 10) 20)
         (Some pieceT) 3 0 (Some pieceO) (Some 1000) 10 [].

(** The same game with the T piece two rows above its resting place. *)
Definition falling : Game :=
  mkGame 10 20 1000 (num 40) 1 0 false false true
         (repeat (repeat None 10) 20)
         (Some pieceT) 3 16 (Some pieceO) (Some 1000) 10 [].

(** A T piece pointing right, against the left wall: the empty first column
    of its matrix is outside the board, so the rotation needs a kick. *)
Definition pieceT_right : Piece :=
  mkPiece "T" [[0; 1; 0]; [0; 1; 1]; [0; 1; 0]] "#a000f0".
Definition at_left_wall : Game :=
  mkGame 10 20 1000 (num 0) 1 0 false false true
         (repeat (repeat None 10) 20)
         (Some pieceT_right) (-1) 5 (Some pieceO) (Some 1000) 10 [].

(** A board whose top rows are taken: the next piece cannot be placed. *)
Definition blocked : Game :=
  mkGame 4 4 1000 (num 700) 3 21 false false true
         [ [X; X; o; X];
           [X; X; o; X];
           [X; o; X; X];
           [X; X; o; X] ]
         (Some pieceO) 1 0 (Some pieceO) (Some 840) 30 [].

End Samples.

End GameTetris.

(* ===================================================================== *)
(** * Properties of the cell *)
(* ===================================================================== *)

Module LivingWccellFacts.
Import LivingWccell.

Lemma includes_conway_birth n : includes (birth CONWAY_RULES) n = Nat.eqb n 3.
Proof. unfold includes; simpl. now rewrite orb_false_r. Qed.

Lemma includes_conway_survival n :
  includes (survival CONWAY_RULES) n = Nat.eqb n 2 || Nat.eqb n 3.
Proof. unfold includes; simpl. now rewrite orb_false_r. Qed.

Lemma calculateNextState_eq n c :
  calculateNextState n c
  = (let r := if alive c then includes (survival (rules c)) n
              else includes (birth (rules c)) n in
     (r, set_nextState (Some r) (set_neighborCount n c), [])).
Proof. unfold calculateNextState; simpl. destruct (alive c); reflexivity. Qed.

(** C5. [calculateNextState n] records [n] in [neighborCount], stores in
    [_nextState] the value [survival.includes(n)] for a live cell and
    [birth.includes(n)] for a dead one, returns that value, leaves every
    other field as it was and dispatches nothing.  With the Conway rules a
    dead cell's result is alive exactly when [n = 3] and a live cell's
    exactly when [n] is 2 or 3 (for every [n], so in particular for 0..8). *)
Theorem calculateNextState_spec :
  forall (c : Cell) (n : nat),
    let r := if alive c then includes (survival (rules c)) n
             else includes (birth (rules c)) n in
    calculateNextState n c
      = (r, set_nextState (Some r) (set_neighborCount n c), [])
    /\ (let c' := snd (fst (calculateNextState n c)) in
        neighborCount c' = n /\ _nextState c' = Some r /\
        alive c' = alive c /\ age c' = age c /\ generation c' = generation c /\
        x c' = x c /\ y c' = y c /\ rules c' = rules c /\
        showGeneration c' = showGeneration c /\ cellId c' = cellId c)
    /\ (let conway := set_rules CONWAY_RULES c in
        let next := fst (fst (calculateNextState n conway)) in
        (alive c = false /\ (next = true <-> n = 3)) \/
        (alive c = true /\ (next = true <-> n = 2 \/ n = 3))).
Proof.
  intros c n r.
  split; [apply calculateNextState_eq|]. split.
  - rewrite calculateNextState_eq; simpl. repeat split.
  - cbv zeta. rewrite calculateNextState_eq.
    change (alive (set_rules CONWAY_RULES c)) with (alive c).
    change (rules (set_rules CONWAY_RULES c)) with CONWAY_RULES.
    cbn [fst].
    destruct (alive c) eqn:Ha; [right | left]; split; trivial.
    + rewrite includes_conway_survival, orb_true_iff, !Nat.eqb_eq. tauto.
    + rewrite includes_conway_birth, Nat.eqb_eq. tauto.
Qed.

(** C6. [applyNextState] does nothing (same cell, no event) when no pending
    state is stored.  With a pending state [p] it sets [alive] to [p], sets
    [age] to 1 for a birth, to the previous age plus one for a survival and
    to 0 when the cell is dead afterwards, clears the pending state, keeps
    the other fields, and dispatches exactly one state-change event when
    [alive] changed and none otherwise. *)
Theorem applyNextState_spec :
  forall c : Cell,
    match _nextState c with
    | None => applyNextState c = (c, [])
    | Some p =>
        let c' := fst (applyNextState c) in
        let evs := snd (applyNextState c) in
        alive c' = p
        /\ age c' = (if p then (if alive c then age c + 1 else 1) else 0)
        /\ _nextState c' = None
        /\ x c' = x c /\ y c' = y c /\ generation c' = generation c
        /\ rules c' = rules c /\ neighborCount c' = neighborCount c
        /\ showGeneration c' = showGeneration c /\ cellId c' = cellId c
        /\ evs = (if Bool.eqb (alive c) p then []
                  else [state_change p (alive c) (x c) (y c) (age c')
                                     (generation c) (cellId c)])
    end.
Proof.
  intros c. unfold applyNextState.
  destruct (_nextState c) as [p|] eqn:E; [|reflexivity].
  destruct p, (alive c) eqn:Ha; simpl; rewrite ?Ha; simpl; repeat split.
Qed.

(** A fresh cell has nothing pending, and a pending state is used once. *)
Lemma applyNextState_new : applyNextState new = (new, []).
Proof. reflexivity. Qed.

Lemma applyNextState_consumed (c : Cell) :
  applyNextState (fst (applyNextState c)) = (fst (applyNextState c), []).
Proof.
  unfold applyNextState at 2 3.
  destruct (_nextState c) as [p|] eqn:E.
  - destruct p, (alive c); reflexivity.
  - cbn. unfold applyNextState. now rewrite E.
Qed.

(** The two phases on the Conway cases of the test suite: a live cell with
    one neighbour dies, a dead cell with three is born with age 1. *)
Example underpopulation :
  let live := set_age 1 (set_alive true new) in
  let '(next, c, _) := calculateNextState 1 live in
  next = false
  /\ applyNextState c
     = (set_neighborCount 1 new, [state_change false true 0 0 0 0 ""]).
Proof. cbn. split; reflexivity. Qed.

Example birth_with_three :
  let '(next, c, _) := calculateNextState 3 new in
  next = true
  /\ applyNextState c
     = (set_age 1 (set_alive true (set_neighborCount 3 new)),
        [state_change true false 0 0 1 0 ""]).
Proof. cbn. split; reflexivity. Qed.

End LivingWccellFacts.

(* ===================================================================== *)
(** * Properties of the physics body *)
(* ===================================================================== *)

Module ConvgameObjectFacts.
Import ConvgameObject.
Local Open Scope num_scope.

Section Generic.

Context {F : Type} {N : Number F}.

(** [_checkBounds] field by field. *)
Lemma _checkBounds_fields (bd : Bounds F) (m : Body F) :
  bounds m = Some bd ->
  let b' := fst (_checkBounds m) in
  x b' = clampedX bd m /\ y b' = clampedY bd m
  /\ velocityX b' = (if hitsLeft bd m || hitsRight bd m
                     then - velocityX m * restitution m else velocityX m)
  /\ velocityY b' = (if hitsTop bd m || hitsBottom bd m
                     then - velocityY m * restitution m else velocityY m)
  /\ width b' = width m /\ height b' = height m /\ mass b' = mass m
  /\ friction b' = friction m /\ restitution b' = restitution m
  /\ isStatic b' = isStatic m /\ bounds b' = bounds m
  /\ _accelerationX b' = _accelerationX m
  /\ _accelerationY b' = _accelerationY m.
Proof.
  intros Hb. unfold _checkBounds, clampedX, clampedY, hitsRight, hitsBottom,
    hitsLeft, hitsTop. rewrite Hb.
  destruct (x m <? lower (minX bd)) eqn:E1;
    [| destruct (maxX bd) as [mx|]; [destruct (x m + width m >? mx) eqn:E2|]];
    cbn -[lower];
    (destruct (y m <? lower (minY bd)) eqn:E3;
     [| destruct (maxY bd) as [my|]; [destruct (y m + height m >? my) eqn:E4|]]);
    cbn -[lower]; rewrite ?E1, ?E2, ?E3, ?E4; cbn -[lower]; repeat split;
    assumption.
Qed.

(** The events of [_checkBounds]: one at most, chosen by the last test that
    fired. *)
Lemma _checkBounds_events (bd : Bounds F) (m : Body F) :
  bounds m = Some bd ->
  let b' := fst (_checkBounds m) in
  snd (_checkBounds m)
  = if hitsTop bd m then [boundary_hit "top" (x b') (y b')]
    else if hitsBottom bd m then [boundary_hit "bottom" (x b') (y b')]
    else if hitsLeft bd m then [boundary_hit "left" (x b') (y b')]
    else if hitsRight bd m then [boundary_hit "right" (x b') (y b')]
    else [].
Proof.
  intros Hb. unfold _checkBounds, hitsRight, hitsBottom, hitsLeft, hitsTop.
  rewrite Hb.
  destruct (x m <? lower (minX bd)) eqn:E1;
    [| destruct (maxX bd) as [mx|]; [destruct (x m + width m >? mx) eqn:E2|]];
    cbn -[lower];
    (destruct (y m <? lower (minY bd)) eqn:E3;
     [| destruct (maxY bd) as [my|]; [destruct (y m + height m >? my) eqn:E4|]]);
    cbn -[lower]; rewrite ?E1, ?E2, ?E3, ?E4; reflexivity.
Qed.

(** [update] on a body that is not static: integration, then the boundary
    handling when [bounds] is set, then the position-change event. *)
Lemma update_unfold (dt : F) (b : Body F) :
  isStatic b = false ->
  let m := integrate dt b in
  let cb := match bounds b with
            | Some _ => _checkBounds m
            | None => (m, [])
            end in
  let b' := fst cb in
  update dt b
  = (b', snd cb ++
         (if (x b' !== x b) || (y b' !== y b)
          then [position_change (x b') (y b') (x b) (y b)
                                (velocityX b') (velocityY b')]
          else [])).
Proof.
  intros Hs. unfold update. rewrite Hs. cbv zeta.
  set (m := set_accelerationY num_zero _).
  assert (Em : m = integrate dt b) by reflexivity.
  clearbody m. subst m.
  change (bounds (integrate dt b)) with (bounds b).
  destruct (bounds b) as [bd|] eqn:Hb.
  - destruct (_checkBounds (integrate dt b)) as [b' hits] eqn:E.
    cbn [fst snd].
    destruct ((x b' !== x b) || (y b' !== y b)); [reflexivity|].
    now rewrite app_nil_r.
  - cbn [fst snd].
    destruct ((x (integrate dt b) !== x b) || (y (integrate dt b) !== y b));
      reflexivity.
Qed.

Lemma boundary_hits_app (l1 l2 : list (Event F)) :
  boundary_hits (l1 ++ l2) = boundary_hits l1 ++ boundary_hits l2.
Proof. apply filter_app. Qed.

(** C2 (as amended).  For a body that is not static and has [bounds], the
    boundary handling of [update] treats the two axes independently: on each
    axis the position past a bound is clamped (left edge to [minX], right
    edge to [maxX]; top to [minY], bottom to [maxY]) and that axis's velocity
    is negated and scaled by [restitution], otherwise both are left as the
    integration produced them.  At most one boundary-hit event is dispatched
    per call: none when no edge is hit, otherwise exactly one, which names
    the vertical edge when one was hit and the horizontal edge otherwise. *)
Theorem update_boundary_handling (dt : F) (b : Body F) (bd : Bounds F) :
  isStatic b = false ->
  bounds b = Some bd ->
  let m := integrate dt b in
  let b' := fst (update dt b) in
  let evs := snd (update dt b) in
  x b' = clampedX bd m
  /\ velocityX b' = (if hitsLeft bd m || hitsRight bd m
                     then - velocityX m * restitution m else velocityX m)
  /\ y b' = clampedY bd m
  /\ velocityY b' = (if hitsTop bd m || hitsBottom bd m
                     then - velocityY m * restitution m else velocityY m)
  /\ boundary_hits evs
     = (if hitsTop bd m then [boundary_hit "top" (x b') (y b')]
        else if hitsBottom bd m then [boundary_hit "bottom" (x b') (y b')]
        else if hitsLeft bd m then [boundary_hit "left" (x b') (y b')]
        else if hitsRight bd m then [boundary_hit "right" (x b') (y b')]
        else [])
  /\ (List.length (boundary_hits evs) <= 1)%nat
  /\ (boundary_hits evs = [] <->
      hitsLeft bd m || hitsRight bd m || hitsTop bd m || hitsBottom bd m = false).
Proof.
  intros Hs Hb m b' evs.
  assert (Hm : bounds m = Some bd) by exact Hb.
  pose proof (@update_unfold dt b Hs) as U. cbv zeta in U. rewrite Hb in U.
  pose proof (@_checkBounds_fields bd m Hm) as Fd. cbv zeta in Fd.
  pose proof (@_checkBounds_events bd m Hm) as Ev. cbv zeta in Ev.
  fold m in U, Fd, Ev.
  destruct Fd as (Fx & Fy & Fvx & Fvy & _).
  assert (Eb : b' = fst (_checkBounds m)) by (unfold b'; now rewrite U).
  assert (Ee : boundary_hits evs = snd (_checkBounds m)).
  { unfold evs. rewrite U. cbn [snd]. rewrite boundary_hits_app, Ev.
    assert (T : forall l : list (Event F),
               boundary_hits
                 (if (x (fst (_checkBounds m)) !== x b)
                     || (y (fst (_checkBounds m)) !== y b)
                  then [position_change (x (fst (_checkBounds m)))
                          (y (fst (_checkBounds m))) (x b) (y b)
                          (velocityX (fst (_checkBounds m)))
                          (velocityY (fst (_checkBounds m)))]
                  else []) = []).
    { intros _. now destruct (_ || _). }
    rewrite (T []), app_nil_r.
    now destruct (hitsTop bd m), (hitsBottom bd m), (hitsLeft bd m),
      (hitsRight bd m). }
  rewrite Eb, Fx, Fy, Fvx, Fvy, Ee, Ev.
  repeat split; trivial.
  - now rewrite Fx, Fy.
  - destruct (hitsTop bd m), (hitsBottom bd m), (hitsLeft bd m),
      (hitsRight bd m); cbn; lia.
  - destruct (hitsTop bd m), (hitsBottom bd m), (hitsLeft bd m),
      (hitsRight bd m); cbn; congruence.
  - destruct (hitsTop bd m), (hitsBottom bd m), (hitsLeft bd m),
      (hitsRight bd m); cbn; congruence.
Qed.

(** C3 (as amended).  A static body is returned as it is, with no event.
    Otherwise [update] adds [acceleration * deltaTime] to the velocity,
    multiplies the velocity by [friction], adds [velocity * deltaTime] to the
    position and zeroes the acceleration, in that order; it then runs the
    boundary handling when [bounds] is set, and finally dispatches one
    position-change event exactly when the final [x] or [y] differs ([!==])
    from the one before the call.  The velocity after the call is
    [(velocity + acceleration * deltaTime) * friction] on each axis on which
    no bound is hit, in particular when [bounds] is not set; on an axis on
    which a bound is hit it is that value negated and scaled by
    [restitution]. *)
Theorem update_integration_order (dt : F) (b : Body F) :
  (isStatic b = true -> update dt b = (b, []))
  /\ (isStatic b = false ->
      let m := integrate dt b in
      let cb := match bounds b with
                | Some _ => _checkBounds m
                | None => (m, [])
                end in
      let b' := fst (update dt b) in
      velocityX m = (velocityX b + _accelerationX b * dt) * friction b
      /\ velocityY m = (velocityY b + _accelerationY b * dt) * friction b
      /\ x m = x b + velocityX m * dt
      /\ y m = y b + velocityY m * dt
      /\ _accelerationX m = num_zero /\ _accelerationY m = num_zero
      /\ b' = fst cb
      /\ snd (update dt b)
         = snd cb ++
           (if (x b' !== x b) || (y b' !== y b)
            then [position_change (x b') (y b') (x b) (y b)
                                  (velocityX b') (velocityY b')]
            else [])
      /\ _accelerationX b' = num_zero /\ _accelerationY b' = num_zero
      /\ (bounds b = None -> b' = m)
      /\ (forall bd, bounds b = Some bd ->
          velocityX b' = (if hitsLeft bd m || hitsRight bd m
                          then - velocityX m * restitution m else velocityX m)
          /\ velocityY b' = (if hitsTop bd m || hitsBottom bd m
                             then - velocityY m * restitution m
                             else velocityY m))).
Proof.
  split.
  - intros Hs. unfold update. now rewrite Hs.
  - intros Hs m cb b'.
    pose proof (@update_unfold dt b Hs) as U. cbv zeta in U. fold m cb in U.
    assert (Eb : b' = fst cb) by (unfold b'; now rewrite U).
    repeat split; trivial.
    + rewrite U. cbn [snd]. now rewrite <- Eb.
    + rewrite Eb. unfold cb. destruct (bounds b) as [bd|] eqn:Hb; trivial.
      now destruct (@_checkBounds_fields bd m Hb)
        as (_ & _ & _ & _ & _ & _ & _ & _ & _ & _ & _ & A & _).
    + rewrite Eb. unfold cb. destruct (bounds b) as [bd|] eqn:Hb; trivial.
      now destruct (@_checkBounds_fields bd m Hb)
        as (_ & _ & _ & _ & _ & _ & _ & _ & _ & _ & _ & _ & A).
    + intros Hb. rewrite Eb. unfold cb. now rewrite Hb.
    + rewrite Eb. unfold cb. rewrite H.
      now destruct (@_checkBounds_fields bd m H)
        as (_ & _ & A & _).
    + rewrite Eb. unfold cb. rewrite H.
      now destruct (@_checkBounds_fields bd m H)
        as (_ & _ & _ & A & _).
Qed.

(** [resolveCollision] in terms of the named quantities. *)
Lemma resolveCollision_unfold (this other : Body F) :
  resolveCollision this other
  = if isStatic this && isStatic other then (this, other)
    else if center_distance this other === num_zero then (this, other)
    else if normal_velocity this other >? num_zero then (this, other)
    else
      let j := impulse_of this other in
      let nx := normalX this other in
      let ny := normalY this other in
      ((if isStatic this then this
        else with_velocity (velocityX this - j * mass other * nx)
                           (velocityY this - j * mass other * ny) this),
       (if isStatic other then other
        else with_velocity (velocityX other + j * mass this * nx)
                           (velocityY other + j * mass this * ny) other)).
Proof.
  unfold resolveCollision, impulse_of, total_mass, effective_restitution,
    normal_velocity, normalX, normalY, center_distance, center_dx, center_dy,
    with_velocity.
  cbv zeta.
  destruct (isStatic this) eqn:Ht, (isStatic other) eqn:Ho; cbn [andb negb];
    try reflexivity;
    (destruct (num_eq _ _); [reflexivity|]);
    (destruct (num_lt _ _); [reflexivity|]);
    unfold set_velocityX, set_velocityY; cbn; rewrite ?Ht, ?Ho; reflexivity.
Qed.

(** C4.  [resolveCollision] returns both bodies as they are when both are
    static, when the centres coincide ([distance === 0]) or when [dvn > 0],
    where the centre of a body is [(x + width / 2, y + height / 2)], [n] is
    the unit vector from this centre to the other's and [dvn] is the velocity
    of this body relative to the other, taken along [n].  Since [n] points
    from this body to the other, [dvn > 0] means that this body moves
    towards the other: the call skips the pairs that approach, not the ones
    that separate.  In every other case, pairs that move apart included, with
    [e] the smaller restitution and [totalMass] the other's mass if this body
    is static, this body's mass if the other is static and the sum of both
    otherwise, the impulse is [j = -(1 + e) * dvn / totalMass]; the velocity
    of this body, if it is not static, decreases by [j * other.mass * n], and
    that of the other, if it is not static, increases by [j * this.mass * n];
    nothing else changes, and a static body is always returned as it is. *)
Theorem resolveCollision_spec (this other : Body F) :
  let r := resolveCollision this other in
  let dx := (x other + width other / num_two)
            - (x this + width this / num_two) in
  let dy := (y other + height other / num_two)
            - (y this + height this / num_two) in
  let distance := num_sqrt (dx * dx + dy * dy) in
  let nx := dx / distance in
  let ny := dy / distance in
  let dvn := (velocityX this - velocityX other) * nx
             + (velocityY this - velocityY other) * ny in
  let e := num_min (restitution this) (restitution other) in
  let totalMass := if isStatic this then mass other
                   else if isStatic other then mass this
                   else mass this + mass other in
  let j := - (num_one + e) * dvn / totalMass in
  (isStatic this && isStatic other = true -> r = (this, other))
  /\ ((distance === num_zero) = true -> r = (this, other))
  /\ ((dvn >? num_zero) = true -> r = (this, other))
  /\ (isStatic this && isStatic other = false ->
      (distance === num_zero) = false ->
      (dvn >? num_zero) = false ->
      fst r = (if isStatic this then this
               else with_velocity (velocityX this - j * mass other * nx)
                                  (velocityY this - j * mass other * ny) this)
      /\ snd r = (if isStatic other then other
                  else with_velocity (velocityX other + j * mass this * nx)
                                     (velocityY other + j * mass this * ny)
                                     other))
  /\ (isStatic this = true -> fst r = this)
  /\ (isStatic other = true -> snd r = other).
Proof.
  intros r dx dy distance nx ny dvn e totalMass j.
  assert (Ed : center_distance this other = distance) by reflexivity.
  assert (En : normal_velocity this other = dvn) by reflexivity.
  assert (Ej : impulse_of this other = j) by reflexivity.
  assert (Ex : normalX this other = nx) by reflexivity.
  assert (Ey : normalY this other = ny) by reflexivity.
  unfold r. rewrite resolveCollision_unfold. rewrite Ed, En, Ej, Ex, Ey.
  cbv zeta.
  split; [intros ->; reflexivity|].
  split; [intros ->; now destruct (isStatic this && isStatic other)|].
  split.
  { intros ->. now destruct (isStatic this && isStatic other),
      (distance === num_zero). }
  split.
  { intros H1 H2 H3. rewrite H1, H2, H3. now split. }
  split; intros Hs;
    destruct (isStatic this && isStatic other), (distance === num_zero),
      (dvn >? num_zero); cbn [fst snd]; try reflexivity; now rewrite Hs.
Qed.


End Generic.

(** ** Exact arithmetic *)

Section Exact.

Context {F : Type} {N : Number F}.

(** The arithmetic is exact: [+], [-] and [*] obey the laws of a
    commutative ring (no rounding).  Division, the square root and the
    comparisons are not constrained. *)
Hypothesis exact :
  ring_theory num_zero num_one num_add num_mul num_sub num_neg (@eq F).

Add Ring number_ring : exact.

Lemma impulses_cancel (m1 m2 v1 v2 j n : F) :
  m1 * (v1 - j * m2 * n) + m2 * (v2 + j * m1 * n) = m1 * v1 + m2 * v2.
Proof. ring. Qed.

(** When the arithmetic is exact, [resolveCollision] on two bodies neither
    of which is static leaves the total momentum the same on both axes also
    when the impulse is applied. *)
Lemma momentum_conserved_exact (this other : Body F) :
  isStatic this = false ->
  isStatic other = false ->
  let r := resolveCollision this other in
  momentumX (fst r) (snd r) = momentumX this other
  /\ momentumY (fst r) (snd r) = momentumY this other.
Proof.
  intros Ha Hb r. unfold r. rewrite resolveCollision_unfold.
  rewrite Ha, Hb. cbn [andb].
  destruct (center_distance this other === num_zero); [now split|].
  destruct (normal_velocity this other >? num_zero); [now split|].
  cbv zeta. unfold momentumX, momentumY. cbn.
  split; apply impulses_cancel.
Qed.

End Exact.

(** ** Concrete runs on doubles and on the reals *)

Import Samples.

Lemma float_neq (a b : float) :
  PrimFloat.eqb a b = false -> PrimFloat.eqb b b = true -> a <> b.
Proof. intros H1 H2 E. subst a. congruence. Qed.

(** The left bouncer of the test suite: one edge, one event. *)
Example left_bouncer_run :
  update 1%float left_bouncer
  = (set_velocityX 5%float (set_x 0%float left_bouncer),
     [boundary_hit "left" 0%float 50%float;
      position_change 0%float 50%float (-10)%float 50%float 5%float 0%float]).
Proof. vm_compute. reflexivity. Qed.

Lemma update_boundary_handling_witness :
  let b := corner_bouncer in
  let m := integrate 1%float b in
  isStatic b = false /\ bounds b = Some arena
  /\ x (fst (update 1%float b)) = clampedX arena m
  /\ y (fst (update 1%float b)) = clampedY arena m
  /\ (List.length (boundary_hits (snd (update 1%float b))) <= 1)%nat.
Proof.
  intros b m.
  pose proof (@update_boundary_handling float Number_float 1%float b arena
                eq_refl eq_refl) as H.
  cbv zeta in H. destruct H as (Hx & _ & Hy & _ & _ & Hl & _).
  repeat split; assumption.
Defined.

(** At the corner both the left and the top edge are hit, the body is
    clamped and reflected on both axes, and the only boundary-hit event names
    the top: no event names the left edge. *)
Lemma corner_hit_single_notification :
  let b := corner_bouncer in
  let m := integrate 1%float b in
  let evs := snd (update 1%float b) in
  isStatic b = false /\ bounds b = Some arena
  /\ hitsLeft arena m = true /\ hitsTop arena m = true
  /\ evs = [boundary_hit "top" 0%float 0%float;
            position_change 0%float 0%float (-10)%float (-10)%float
                            5%float 5%float]
  /\ notifies "left" evs = false
  /\ List.length (boundary_hits evs) = 1%nat
  /\ ~ (forall edge, In edge ["left"%string; "top"%string] ->
        notifies edge evs = true).
Proof.
  cbv zeta. repeat split; try (vm_compute; reflexivity).
  intros H. specialize (H "left"%string (or_introl eq_refl)).
  vm_compute in H. discriminate.
Qed.

Lemma update_integration_order_witness :
  let b := left_bouncer in
  isStatic b = false
  /\ velocityX (integrate 1%float b)
     = ((velocityX b + _accelerationX b * 1%float) * friction b)%num
  /\ fst (update 1%float b) = fst (_checkBounds (integrate 1%float b)).
Proof.
  intros b.
  pose proof (proj2 (@update_integration_order float Number_float 1%float b)
                eq_refl) as H.
  cbv zeta in H. destruct H as (Hv & _ & _ & _ & _ & _ & Hb & _).
  repeat split; assumption.
Defined.

(** The left bouncer is not static and has no acceleration; its velocity
    after [update] is 5, whereas [friction * (velocity + acceleration *
    deltaTime)] is -5. *)
Lemma reflected_velocity_differs :
  let b := left_bouncer in
  isStatic b = false
  /\ velocityX (fst (update 1%float b)) = 5%float
  /\ (friction b * (velocityX b + _accelerationX b * 1%float))%num = (-5)%float
  /\ velocityX (fst (update 1%float b))
     <> (friction b * (velocityX b + _accelerationX b * 1%float))%num.
Proof.
  cbv zeta. repeat split; try (vm_compute; reflexivity).
  apply float_neq; vm_compute; reflexivity.
Qed.

(** The head-on pair: the two bodies move towards each other, [dvn] is 4,
    and the call returns them as they are. *)
Lemma resolveCollision_spec_witness :
  isStatic head_on_a && isStatic head_on_b = false
  /\ (velocityX head_on_a - velocityX head_on_b) = 4%float
  /\ resolveCollision head_on_a head_on_b = (head_on_a, head_on_b).
Proof.
  split; [reflexivity|]. split; [vm_compute; reflexivity|].
  pose proof (@resolveCollision_spec float Number_float head_on_a head_on_b)
    as H.
  cbv zeta in H. destruct H as (_ & _ & H & _).
  apply H. vm_compute. reflexivity.
Defined.

(** The pair that moves apart is not skipped: the first body, which was
    leaving at (-1, 0), leaves faster afterwards, and the second, which was
    at rest, is pushed away from the first. *)
Example separating_pair_pushed_apart :
  let r := resolveCollision ball_a ball_b in
  (normal_velocity ball_a ball_b <? num_zero) = true
  /\ (velocityX (fst r) <? velocityX ball_a) = true
  /\ (velocityY (fst r) <? velocityY ball_a) = true
  /\ (velocityX (snd r) >? velocityX ball_b) = true
  /\ (velocityY (snd r) >? velocityY ball_b) = true.
Proof. cbv zeta. repeat split; vm_compute; reflexivity. Qed.


(** In exact arithmetic the sums agree for the pair that moves apart too. *)
Example momentum_exact_on_reals :
  let r := resolveCollision real_ball_a real_ball_b in
  momentumX (fst r) (snd r) = momentumX real_ball_a real_ball_b
  /\ momentumY (fst r) (snd r) = momentumY real_ball_a real_ball_b.
Proof.
  exact (@momentum_conserved_exact R Number_R RTheory real_ball_a real_ball_b
           eq_refl eq_refl).
Qed.

(** On doubles, when the impulse is applied, the two applications do not
    cancel exactly: for the two unit balls that move apart the horizontal
    momentum is -1 before the call and -0.99999999999999989 after it. *)
Example momentum_rounds_on_doubles :
  let r := resolveCollision ball_a ball_b in
  isStatic ball_a = false /\ isStatic ball_b = false
  /\ (center_distance ball_a ball_b === num_zero) = false
  /\ (normal_velocity ball_a ball_b >? num_zero) = false
  /\ momentumX ball_a ball_b = (-1)%float
  /\ momentumX (fst r) (snd r) = (-0x1.fffffffffffffp-1)%float
  /\ momentumX (fst r) (snd r) <> momentumX ball_a ball_b.
Proof.
  cbv zeta. repeat split; try (vm_compute; reflexivity).
  apply float_neq; vm_compute; reflexivity.
Qed.

End ConvgameObjectFacts.
(* ===================================================================== *)
(** * Properties of the Tetris engine *)
(* ===================================================================== *)

Module GameTetrisFacts.
Import GameTetris.
Local Open Scope Z_scope.
Local Open Scope tetris_scope.

(** ** Running the state transformers *)

Lemma bind_Return {A B : Type} (m : M A) (k : A -> M B) g a g' :
  m g = Return a g' -> bind m k g = k a g'.
Proof. unfold bind. now intros ->. Qed.

Lemma set_board_same g : set_board (_board g) g = g.
Proof. now destruct g. Qed.

Ltac run := unfold bind, read, assign, ret, must, throw; cbn.

(** ** The scan for full rows *)

Lemma scanFull_run ys g :
  (forall y, In y ys -> (y < List.length (_board g))%nat) ->
  scanFull ys g = Return (filter (fun y => isFull (nth y (_board g) [])) ys) g.
Proof.
  induction ys as [|y ys IH]; intros Hin; [reflexivity|].
  cbn [scanFull filter].
  assert (Hy : (y < List.length (_board g))%nat) by (apply Hin; now left).
  destruct (nth_error (_board g) y) as [r|] eqn:E.
  2:{ apply nth_error_None in E. lia. }
  rewrite (nth_error_nth _ _ [] E).
  unfold bind at 1. unfold read at 1. cbn.
  unfold bind at 1. rewrite E. cbn [must ret].
  unfold bind at 1. rewrite IH by (intros; apply Hin; now right).
  reflexivity.
Qed.

Lemma scanFull_fullRows g :
  List.length (_board g) = Z.to_nat (height g) ->
  scanFull (rev (seq 0 (Z.to_nat (height g)))) g
  = Return (fullRows (_board g)) g.
Proof.
  intros Hl. rewrite scanFull_run.
  - unfold fullRows. now rewrite Hl.
  - intros y Hy. apply in_rev, in_seq in Hy. lia.
Qed.

(** ** The removal loop *)

Lemma removeLines_run ls g :
  0 <= width g ->
  removeLines ls g
  = Return tt (set_board (fold_left (removeLine (width g)) ls (_board g)) g).
Proof.
  revert g. induction ls as [|y ls IH]; intros g Hw.
  - cbn. now rewrite set_board_same.
  - cbn [removeLines fold_left].
    unfold bind at 1. unfold assign at 1.
    unfold bind at 1. unfold read at 1.
    unfold bind at 1. unfold emptyRow.
    cbn [width set_board].
    destruct (width g <? 0) eqn:E; [lia|]. cbn [ret].
    unfold bind at 1. unfold assign at 1.
    rewrite IH by exact Hw. reflexivity.
Qed.

(** Every round keeps the number of rows, provided the index is on the
    board. *)
Lemma removeLine_length w b y :
  (y < List.length b)%nat -> List.length (removeLine w b y) = List.length b.
Proof.
  intros Hy. unfold removeLine, unshift, splice1. cbn [List.length].
  rewrite length_app, length_firstn, length_skipn. lia.
Qed.

Lemma Forall_firstn_skipn {A : Type} (P : A -> Prop) n (l : list A) :
  Forall P l -> Forall P (firstn n l) /\ Forall P (skipn n l).
Proof.
  intros H. rewrite <- (firstn_skipn n l) in H. now apply Forall_app in H.
Qed.

Lemma removeLine_width w b y :
  Forall (fun r => List.length r = Z.to_nat w) b ->
  Forall (fun r => List.length r = Z.to_nat w) (removeLine w b y).
Proof.
  intros Hb. unfold removeLine, unshift, splice1. constructor.
  - apply repeat_length.
  - apply Forall_app. split.
    + now apply Forall_firstn_skipn.
    + now apply Forall_firstn_skipn.
Qed.

Lemma fold_removeLine_length w ls b :
  Forall (fun y => (y < List.length b)%nat) ls ->
  List.length (fold_left (removeLine w) ls b) = List.length b.
Proof.
  revert b. induction ls as [|y ls IH]; intros b Hls; [reflexivity|].
  inversion Hls as [|? ? Hy Hrest]; subst. cbn [fold_left].
  rewrite IH.
  - now apply removeLine_length.
  - rewrite removeLine_length by exact Hy. exact Hrest.
Qed.

Lemma fold_removeLine_width w ls b :
  Forall (fun r => List.length r = Z.to_nat w) b ->
  Forall (fun r => List.length r = Z.to_nat w) (fold_left (removeLine w) ls b).
Proof.
  revert b. induction ls as [|y ls IH]; intros b Hb; [exact Hb|].
  cbn [fold_left]. apply IH. now apply removeLine_width.
Qed.

(** A row below the removed index moves one place down when the index is
    strictly above it... *)
Lemma removeLine_shifts_above w b y i :
  (i < y)%nat -> (y < List.length b)%nat ->
  nth_error (removeLine w b y) (S i) = nth_error b i.
Proof.
  intros Hi Hy. unfold removeLine, unshift, splice1. cbn [nth_error].
  rewrite nth_error_app1 by (rewrite length_firstn; lia).
  rewrite nth_error_firstn.
  destruct (Nat.ltb_spec i y); [reflexivity | lia].
Qed.

(** ... and stays where it is when the removed index is above it on the
    board (a smaller index). *)
Lemma removeLine_keeps_below w b y i :
  (y <= i)%nat ->
  nth_error (removeLine w b y) (S i) = nth_error b (S i).
Proof.
  intros Hi. unfold removeLine, unshift, splice1.
  change (nth_error (repeat None (Z.to_nat w) :: firstn y b ++ skipn (S y) b)
                    (S i))
    with (nth_error (firstn y b ++ skipn (S y) b) i).
  destruct (Nat.lt_ge_cases y (List.length b)) as [Hy|Hy].
  - rewrite nth_error_app2 by (rewrite length_firstn; lia).
    rewrite length_firstn, Nat.min_l by lia.
    rewrite nth_error_skipn. f_equal. lia.
  - rewrite firstn_all2, skipn_all2, app_nil_r by lia.
    rewrite !(proj2 (nth_error_None _ _)) by lia. reflexivity.
Qed.

Lemma fold_removeLine_keeps w ls b i :
  Forall (fun y => (y <= i)%nat) ls ->
  nth_error (fold_left (removeLine w) ls b) (S i) = nth_error b (S i).
Proof.
  revert b. induction ls as [|y ls IH]; intros b Hls; [reflexivity|].
  inversion Hls as [|? ? Hy Hrest]; subst. cbn [fold_left].
  rewrite IH by exact Hrest. now apply removeLine_keeps_below.
Qed.

(** ** Score and level *)

Lemma addScore_run points g : _addScore points g = Return tt (afterAddScore points g).
Proof. reflexivity. Qed.

Lemma levelUp_run g : _levelUp g = Return tt (afterLevelUp g).
Proof. unfold _levelUp, afterLevelUp. run. now destruct (_gameLoop g). Qed.

(** ** [_clearLines] as a whole *)

Lemma clearLines_none g :
  List.length (_board g) = Z.to_nat (height g) ->
  fullRows (_board g) = [] ->
  _clearLines g = Return tt g.
Proof.
  intros Hl Hf. unfold _clearLines.
  unfold bind at 1. unfold read at 1.
  unfold bind at 1. rewrite (scanFull_fullRows g Hl), Hf. reflexivity.
Qed.

Lemma clearLines_some g :
  0 <= width g ->
  List.length (_board g) = Z.to_nat (height g) ->
  fullRows (_board g) <> [] ->
  _clearLines g
  = (let g' := afterClear (fullRows (_board g)) g in
     if lines g' >=? _linesForNextLevel g'
     then Return tt (afterLevelUp g') else Return tt g').
Proof.
  intros Hw Hl Hf. unfold _clearLines.
  unfold bind at 1. unfold read at 1.
  unfold bind at 1. rewrite (scanFull_fullRows g Hl).
  destruct (fullRows (_board g)) as [|y ls] eqn:E; [congruence|].
  cbn [List.length Nat.eqb].
  unfold bind at 1. rewrite removeLines_run by exact Hw.
  unfold bind at 1. unfold read at 1.
  unfold bind at 1. rewrite addScore_run.
  unfold bind at 1. unfold assign at 1.
  unfold bind at 1. unfold read at 1.
  unfold bind at 1. unfold _dispatchEvent, assign.
  cbv beta zeta.
  assert (Hc : forall (c : bool) s,
             (if c then _levelUp else ret tt) s
             = if c then Return tt (afterLevelUp s) else Return tt s).
  { intros [] s; [apply levelUp_run | reflexivity]. }
  etransitivity; [apply Hc | reflexivity].
Qed.

(** ** Full rows are listed from the bottom up *)

Lemma rev_seq_sorted n : StronglySorted gt (rev (seq 0 n)).
Proof.
  induction n as [|n IH]; [constructor|].
  rewrite seq_S, rev_app_distr. cbn. constructor; [exact IH|].
  apply Forall_forall. intros y Hy. apply in_rev, in_seq in Hy. lia.
Qed.

Lemma filter_sorted (f : nat -> bool) l :
  StronglySorted gt l -> StronglySorted gt (filter f l).
Proof.
  induction 1 as [|a l Hs IH Ha]; cbn; [constructor|].
  destruct (f a); [|exact IH].
  constructor; [exact IH|].
  apply Forall_forall. intros y Hy. apply filter_In in Hy.
  rewrite Forall_forall in Ha. now apply Ha.
Qed.

Lemma fullRows_sorted b : StronglySorted gt (fullRows b).
Proof. apply filter_sorted, rev_seq_sorted. Qed.

Lemma fullRows_In b y :
  In y (fullRows b) <->
  (y < List.length b)%nat /\ isFull (nth y b []) = true.
Proof.
  unfold fullRows. rewrite filter_In, <- in_rev, in_seq. intuition lia.
Qed.

Lemma fullRows_row b y :
  In y (fullRows b) -> exists r, nth_error b y = Some r /\ isFull r = true.
Proof.
  intros H. apply fullRows_In in H. destruct H as [Hy Hf].
  destruct (nth_error b y) as [r|] eqn:E.
  - exists r. split; [reflexivity|]. now rewrite (nth_error_nth _ _ [] E) in Hf.
  - apply nth_error_None in E. lia.
Qed.

(** ** Line clearing *)

Lemma fullRows_two b y1 y2 rest :
  fullRows b = y1 :: y2 :: rest ->
  (y2 < y1)%nat /\ (y1 < List.length b)%nat
  /\ Forall (fun y => (y <= y2)%nat) (y2 :: rest)
  /\ Forall (fun y => (y < List.length b)%nat) (y1 :: y2 :: rest)
  /\ exists r, nth_error b y2 = Some r /\ isFull r = true.
Proof.
  intros E.
  pose proof (fullRows_sorted b) as Hs. rewrite E in Hs.
  apply StronglySorted_inv in Hs. destruct Hs as [Hs H1].
  apply StronglySorted_inv in Hs. destruct Hs as [_ H2].
  assert (Hin : forall y, In y (y1 :: y2 :: rest) -> In y (fullRows b))
    by (intros y Hy; now rewrite E).
  inversion H1 as [|? ? H12 _]; subst.
  repeat split.
  - lia.
  - apply (fullRows_In b y1), Hin. now left.
  - constructor; [lia|].
    eapply Forall_impl; [|exact H2]. cbn. intros; lia.
  - apply Forall_forall. intros y Hy. now apply (fullRows_In b y), Hin.
  - apply fullRows_row, Hin. right. now left.
Qed.

(** C1.  When at least two rows are full, [_clearLines] returns with a board
    of [height] rows on which a full row is still present: the second full
    row from the bottom, at index [y2] before the call, is never removed and
    ends one place lower, at index [y2 + 1]. *)
Theorem clearLines_leaves_full_row (g : Game) (y1 y2 : nat) (rest : list nat) :
  board_wf g ->
  fullRows (_board g) = y1 :: y2 :: rest ->
  exists (g' : Game) (r : list Cell),
    _clearLines g = Return tt g'
    /\ List.length (_board g') = Z.to_nat (height g')
    /\ nth_error (_board g) y2 = Some r
    /\ isFull r = true
    /\ nth_error (_board g') (S y2) = Some r
    /\ existsb isFull (_board g') = true.
Proof.
  intros (Hw & Hh & Hl & Hrows) E.
  destruct (fullRows_two _ E) as (H21 & H1 & Hle & Hlt & r & Hr & Hfull).
  assert (Hb : nth_error (fold_left (removeLine (width g)) (y1 :: y2 :: rest)
                                    (_board g)) (S y2) = Some r).
  { change (fold_left (removeLine (width g)) (y1 :: y2 :: rest) (_board g))
      with (fold_left (removeLine (width g)) (y2 :: rest)
              (removeLine (width g) (_board g) y1)).
    rewrite fold_removeLine_keeps by exact Hle.
    rewrite removeLine_shifts_above by assumption. exact Hr. }
  assert (Hn : List.length (fold_left (removeLine (width g)) (y1 :: y2 :: rest)
                                      (_board g)) = Z.to_nat (height g)).
  { rewrite fold_removeLine_length by exact Hlt. exact Hl. }
  assert (Hex : existsb isFull (fold_left (removeLine (width g))
                                          (y1 :: y2 :: rest) (_board g)) = true).
  { apply existsb_exists. exists r. split; [|exact Hfull].
    eapply nth_error_In. exact Hb. }
  rewrite clearLines_some by (rewrite ?E; congruence || assumption).
  rewrite E. cbv zeta.
  destruct (lines _ >=? _linesForNextLevel _);
    eexists; exists r; (split; [reflexivity|]); cbn; auto.
Qed.

Lemma clearLines_leaves_full_row_witness :
  exists (g' : Game) (r : list Cell),
    _clearLines Samples.two_full = Return tt g'
    /\ List.length (_board g') = Z.to_nat (height g')
    /\ nth_error (_board Samples.two_full) 2%nat = Some r
    /\ isFull r = true
    /\ nth_error (_board g') 3%nat = Some r
    /\ existsb isFull (_board g') = true.
Proof.
  apply (@clearLines_leaves_full_row Samples.two_full 3%nat 2%nat []).
  - unfold board_wf. cbn. repeat split; try lia.
    repeat constructor.
  - reflexivity.
Defined.

(** The run on the sample board: the two lowest rows are full; the lowest
    and the row with a single block are removed, and a full row is left at
    the bottom. *)
Example clearLines_two_full_run :
  option_map (fun g => _board g)
    (match _clearLines Samples.two_full with
     | Return _ g' => Some g'
     | _ => None
     end)
  = Some [ [None; None; None; None];
           [None; None; None; None];
           [None; None; None; None];
           [Samples.X; Samples.X; Samples.X; Samples.X] ]
  /\ compacted 4 (_board Samples.two_full)
     = [ [None; None; None; None];
         [None; None; None; None];
         [None; None; None; None];
         [Samples.X; None; None; None] ].
Proof. split; reflexivity. Qed.

(** ** The validity test always completes on a well-formed board *)

Lemma validCols_total w h board cells x y row col :
  List.length board = Z.to_nat h ->
  exists b, validCols w h board cells x y row col = Some b.
Proof.
  intros Hl. revert col.
  induction cells as [|c cells IH]; intros col; cbn [validCols].
  - now exists true.
  - destruct (c =? 0); [apply IH|]. cbv zeta.
    destruct ((x + col <? 0) || (x + col >=? w) || (y + row >=? h)) eqn:E;
      [now exists false|].
    destruct (y + row >=? 0) eqn:E0; [|apply IH].
    destruct (nth_error board (Z.to_nat (y + row))) as [r|] eqn:En.
    + destruct (occupied _); [now exists false | apply IH].
    + apply nth_error_None in En.
      apply orb_false_elim in E. destruct E as [_ E]. lia.
Qed.

Lemma validRows_total w h board rows x y row :
  List.length board = Z.to_nat h ->
  exists b, validRows w h board rows x y row = Some b.
Proof.
  intros Hl. revert row.
  induction rows as [|cells rows IH]; intros row; cbn [validRows].
  - now exists true.
  - destruct (@validCols_total w h board cells x y row 0 Hl) as [[] ->].
    + apply IH.
    + now exists false.
Qed.

Lemma isValidPosition_total g sh x y :
  board_wf g -> exists b, isValidPosition g sh x y = Some b.
Proof. intros (_ & _ & Hl & _). now apply validRows_total. Qed.

Lemma fits_false g sh dx :
  board_wf g ->
  fits g sh dx = false ->
  isValidPosition g sh (_currentX g + dx) (_currentY g) = Some false.
Proof.
  intros Hwf. unfold fits.
  destruct (@isValidPosition_total g sh (_currentX g + dx) (_currentY g) Hwf)
    as [[] ->]; congruence.
Qed.

(** ** Rotation *)

(** Entry [(c, i)] of the rotated matrix is entry [(rows - 1 - i, c)] of the
    matrix: a quarter turn clockwise. *)
Lemma rotateMatrix_entry (matrix rotated : Shape) (first : list Z) c i :
  _rotateMatrix matrix = Some rotated ->
  nth_error matrix 0 = Some first ->
  (c < List.length first)%nat -> (i < List.length matrix)%nat ->
  nth i (nth c rotated []) 0
  = nth c (nth (List.length matrix - 1 - i) matrix []) 0.
Proof.
  intros Hr Hf Hc Hi. unfold _rotateMatrix in Hr.
  destruct matrix as [|f m]; [discriminate|].
  cbn in Hf. injection Hf as ->.
  cbv beta iota zeta in Hr. injection Hr as <-.
  set (mx := first :: m) in *.
  change (rev m ++ [first]) with (rev mx).
  assert (E : nth_error
                (map (fun col => map (fun r => nth col r 0) (rev mx))
                     (seq 0 (List.length first))) c
              = Some (map (fun r => nth c r 0) (rev mx))).
  { rewrite nth_error_map, nth_error_seq.
    destruct (Nat.ltb_spec c (List.length first)); [reflexivity | lia]. }
  rewrite (nth_error_nth _ _ [] E).
  assert (D : nth c [] 0 = 0) by now destruct c.
  rewrite <- D at 1.
  rewrite (map_nth (fun r => nth c r 0)).
  rewrite rev_nth by exact Hi.
  f_equal. f_equal. lia.
Qed.

Lemma assignShape_run rotated g p :
  _currentPiece g = Some p ->
  assignShape rotated g
  = Return tt (set_currentPiece (Some (withShape rotated p)) g).
Proof. intros E. unfold assignShape, currentPiece. run. now rewrite E. Qed.

Lemma tryKicks_run rotated kicks g p :
  board_wf g ->
  _currentPiece g = Some p ->
  tryKicks rotated kicks g
  = Return tt (match find (fits g rotated) kicks with
               | Some kick => commitRotation rotated (Some kick) g
               | None => g
               end).
Proof.
  intros Hwf Hp. induction kicks as [|kick kicks IH]; [reflexivity|].
  cbn [tryKicks find]. unfold fits at 1.
  unfold bind at 1. unfold read at 1.
  unfold bind at 1. unfold read at 1.
  unfold bind at 1. unfold _isValidPosition at 1.
  destruct (@isValidPosition_total g rotated (_currentX g + kick)
              (_currentY g) Hwf) as [[] ->]; cbn [must ret].
  - unfold bind at 1. rewrite (@assignShape_run rotated g p Hp).
    unfold commitRotation. rewrite Hp. reflexivity.
  - exact IH.
Qed.

(** C8.  [_rotate] computes the quarter turn of the current shape.  If the
    turned shape is valid at the current position it is committed with the
    column unchanged; otherwise the offsets -1, +1, -2, +2 are tried in that
    order and the turned shape is committed together with the first offset
    at which it is valid; if it is valid nowhere the state is left exactly as
    it was (same shape, same position, nothing repainted). *)
Theorem rotate_atomic (g : Game) (p : Piece) (first : list Z) :
  board_wf g ->
  _currentPiece g = Some p ->
  nth_error (shape p) 0 = Some first ->
  exists rotated : Shape,
    _rotateMatrix (shape p) = Some rotated
    /\ (forall c i, (c < List.length first)%nat ->
                    (i < List.length (shape p))%nat ->
          nth i (nth c rotated []) 0
          = nth c (nth (List.length (shape p) - 1 - i) (shape p) []) 0)
    /\ (fits g rotated 0 = true ->
        _rotate g = Return tt (commitRotation rotated None g))
    /\ (fits g rotated 0 = false ->
        forall kick, find (fits g rotated) [-1; 1; -2; 2] = Some kick ->
        _rotate g = Return tt (commitRotation rotated (Some kick) g))
    /\ (fits g rotated 0 = false ->
        find (fits g rotated) [-1; 1; -2; 2] = None ->
        _rotate g = Return tt g).
Proof.
  intros Hwf Hp Hf.
  destruct (_rotateMatrix (shape p)) as [rotated|] eqn:Er.
  2:{ unfold _rotateMatrix in Er. destruct (shape p); discriminate. }
  exists rotated. split; [reflexivity|]. split.
  { intros c i Hc Hi. now apply (@rotateMatrix_entry (shape p) rotated first c i Er Hf). }
  assert (Hrun : _rotate g
                 = if fits g rotated 0
                   then Return tt (commitRotation rotated None g)
                   else tryKicks rotated [-1; 1; -2; 2] g).
  { unfold _rotate.
    unfold bind at 1. unfold currentPiece at 1. rewrite Hp. cbn [must ret].
    unfold bind at 1. rewrite Er. cbn [must ret].
    unfold bind at 1. unfold read at 1.
    unfold bind at 1. unfold read at 1.
    unfold bind at 1. unfold _isValidPosition at 1. unfold fits.
    rewrite Z.add_0_r.
    destruct (@isValidPosition_total g rotated (_currentX g) (_currentY g) Hwf)
      as [[] ->]; cbn [must ret]; [|reflexivity].
    unfold bind at 1. rewrite (@assignShape_run rotated g p Hp).
    unfold commitRotation. rewrite Hp. reflexivity. }
  rewrite Hrun. repeat split.
  - now intros ->.
  - intros -> kick Hk. rewrite (@tryKicks_run rotated _ g p Hwf Hp). now rewrite Hk.
  - intros -> Hk. rewrite (@tryKicks_run rotated _ g p Hwf Hp). now rewrite Hk.
Qed.

Lemma rotate_atomic_witness :
  exists rotated : Shape,
    _rotateMatrix (shape Samples.pieceT_right) = Some rotated
    /\ fits Samples.at_left_wall rotated 0 = false
    /\ find (fits Samples.at_left_wall rotated) [-1; 1; -2; 2] = Some 1
    /\ _rotate Samples.at_left_wall
       = Return tt (commitRotation rotated (Some 1) Samples.at_left_wall).
Proof.
  assert (Hwf : board_wf Samples.at_left_wall).
  { unfold board_wf. cbn. repeat split; try lia. repeat constructor. }
  destruct (@rotate_atomic Samples.at_left_wall Samples.pieceT_right
              [0; 1; 0] Hwf eq_refl eq_refl)
    as (rotated & Er & _ & _ & Hkick & _).
  exists rotated. cbn in Er. injection Er as <-.
  split; [reflexivity|]. split; [reflexivity|]. split; [reflexivity|].
  apply Hkick; reflexivity.
Defined.

Example at_left_wall_position :
  isValidPosition Samples.at_left_wall (shape Samples.pieceT_right) (-1) 5
  = Some true.
Proof. reflexivity. Qed.

(** ** Spawning and the end of the game *)

Lemma getRandomPiece_run rnd :
  (rnd < 7)%nat ->
  exists fresh, forall g, _getRandomPiece rnd g = Return fresh g.
Proof.
  intros H.
  do 7 (destruct rnd as [|rnd]; [eexists; intros g; reflexivity|]). lia.
Qed.

(** A tick while the game is over (or paused) changes nothing. *)
Lemma tick_skipped rnd g :
  paused g || gameOver g = true -> _tick rnd g = Return tt g.
Proof. intros H. unfold _tick. run. now rewrite H. Qed.

Lemma ticks_skipped rnds g :
  paused g || gameOver g = true -> ticks rnds g = Return tt g.
Proof.
  intros H. induction rnds as [|rnd rnds IH]; [reflexivity|].
  cbn [ticks]. unfold bind. now rewrite tick_skipped.
Qed.

Lemma endGame_run g : _endGame g = Return tt (afterEndGame g).
Proof.
  unfold _endGame, afterEndGame, _stopGameLoop, _dispatchEvent. run.
  destruct (_gameLoop g) eqn:E;
    unfold set_log, set_gameOver, set_gameLoop; cbn; rewrite ?E; reflexivity.
Qed.

(** [_spawnPiece] up to the validity test of the placed piece. *)
Lemma spawnPiece_run rnd g next fresh first :
  board_wf g ->
  _nextPiece g = Some next ->
  (forall g0, _getRandomPiece rnd g0 = Return fresh g0) ->
  nth_error (shape next) 0 = Some first ->
  let x := (width g - Z.of_nat (List.length first)) / 2 in
  let placed :=
    set_currentY 0 (set_currentX x (set_nextPiece (Some fresh)
      (set_currentPiece (Some next) g))) in
  _spawnPiece rnd g
  = match isValidPosition g (shape next) x 0 with
    | Some true => _renderPreview placed
    | Some false => (_endGame ;; _renderPreview) placed
    | None => Throw placed
    end.
Proof.
  intros Hwf Hn Hr Hf x placed. unfold _spawnPiece.
  unfold bind at 1. unfold assign at 1. rewrite Hn.
  unfold bind at 1. rewrite Hr.
  unfold bind at 1. unfold assign at 1.
  unfold bind at 1. unfold currentPiece at 1. cbn [_currentPiece set_nextPiece
    set_currentPiece must ret].
  unfold bind at 1. rewrite Hf. cbn [must ret].
  unfold bind at 1. unfold assign at 1.
  unfold bind at 1. unfold assign at 1.
  unfold bind at 1. unfold currentPiece at 1.
  cbn [_currentPiece set_nextPiece set_currentPiece set_currentX set_currentY
       must ret width].
  unfold bind at 1. unfold read at 1.
  unfold bind at 1. unfold read at 1.
  unfold bind at 1. unfold _isValidPosition at 1.
  cbn [_currentX _currentY set_currentX set_currentY].
  fold x.
  change (isValidPosition _ (shape next) x 0)
    with (isValidPosition g (shape next) x 0).
  destruct (isValidPosition g (shape next) x 0) as [[]|]; reflexivity.
Qed.

(** C9.  When the piece promoted from [_nextPiece], centred over the board
    at row 0, is not at a valid position, [_spawnPiece] sets [gameOver],
    leaves no timer pending and dispatches game-over with the score, level
    and lines of that moment (then repaints the preview); score, level,
    lines and board are as before.  From then on a tick of the timer, and
    any sequence of ticks, returns the state unchanged, with no effect. *)
Theorem spawn_failure_ends_game
  (g : Game) (rnd : nat) (next : Piece) (first : list Z) :
  board_wf g ->
  (rnd < 7)%nat ->
  _nextPiece g = Some next ->
  nth_error (shape next) 0 = Some first ->
  isValidPosition g (shape next)
                  ((width g - Z.of_nat (List.length first)) / 2) 0
  = Some false ->
  exists g' : Game,
    _spawnPiece rnd g = Return tt g'
    /\ gameOver g' = true
    /\ _gameLoop g' = None
    /\ log g' = log g ++ [dispatch (game_over (score g) (level g) (lines g));
                          renderPreview]
    /\ _currentPiece g' = Some next
    /\ _currentX g' = (width g - Z.of_nat (List.length first)) / 2
    /\ _currentY g' = 0
    /\ score g' = score g /\ level g' = level g /\ lines g' = lines g
    /\ _board g' = _board g
    /\ (forall rnd', _tick rnd' g' = Return tt g')
    /\ (forall rnds, ticks rnds g' = Return tt g').
Proof.
  intros Hwf Hrnd Hn Hf Hv.
  destruct (getRandomPiece_run Hrnd) as [fresh Hfresh].
  rewrite (@spawnPiece_run rnd g next fresh first Hwf Hn Hfresh Hf).
  cbv zeta. rewrite Hv.
  unfold bind. rewrite endGame_run. unfold _renderPreview, assign.
  eexists. split; [reflexivity|].
  repeat split.
  - cbn. now rewrite <- app_assoc.
  - intros rnd'. apply tick_skipped. apply orb_true_r.
  - intros rnds. apply ticks_skipped. apply orb_true_r.
Qed.

Lemma spawn_failure_ends_game_witness :
  exists g' : Game,
    _spawnPiece 0 Samples.blocked = Return tt g'
    /\ gameOver g' = true
    /\ _gameLoop g' = None
    /\ log g' = [dispatch (game_over (num 700) 3 21); renderPreview]
    /\ (forall rnds, ticks rnds g' = Return tt g').
Proof.
  assert (Hwf : board_wf Samples.blocked).
  { unfold board_wf. cbn. repeat split; try lia. repeat constructor. }
  destruct (@spawn_failure_ends_game Samples.blocked 0%nat Samples.pieceO
              [1; 1] Hwf ltac:(lia) eq_refl eq_refl eq_refl)
    as (g' & Hrun & Hover & Hloop & Hlog & _ & _ & _ & _ & _ & _ & _ & _ & Ht).
  exists g'. repeat split; assumption.
Defined.

(** ** Scoring *)

Lemma set_currentY_same g : set_currentY (_currentY g) g = g.
Proof. now destruct g. Qed.

Lemma linePoints_lookup n lvl :
  (n <= 4)%nat ->
  linePoints n lvl
  = num (match n with
         | 0%nat => 0 | 1%nat => 100 | 2%nat => 300 | 3%nat => 500 | _ => 800
         end * lvl).
Proof.
  intros H. do 5 (destruct n as [|n]; [reflexivity|]). lia.
Qed.

Lemma plus_zero s lvl : plus s (num (0 * lvl)) = s.
Proof. destruct s as [z|]; cbn; [now rewrite Z.add_0_r | reflexivity]. Qed.

(** The loop of the hard drop: if the piece fits on each of the next [n]
    rows and not on the one after, the loop returns [n] more than it started
    with and leaves the piece [n] rows lower, provided it is given more than
    [n] rounds. *)
Lemma dropLoop_run (n : nat) :
  forall (fuel : nat) (d : Z) (g : Game) (p : Piece),
    _currentPiece g = Some p ->
    (n < fuel)%nat ->
    (forall i, 1 <= i <= Z.of_nat n ->
       isValidPosition g (shape p) (_currentX g) (_currentY g + i) = Some true) ->
    isValidPosition g (shape p) (_currentX g) (_currentY g + Z.of_nat n + 1)
    = Some false ->
    dropLoop fuel d g
    = Return (d + Z.of_nat n) (set_currentY (_currentY g + Z.of_nat n) g).
Proof.
  induction n as [|n IH]; intros fuel d g p Hp Hfuel Hvalid Hstop;
    (destruct fuel as [|fuel]; [lia|]); cbn [dropLoop].
  - unfold bind at 1. unfold currentPiece at 1. rewrite Hp. cbn [must ret].
    unfold bind at 1. unfold read at 1.
    unfold bind at 1. unfold read at 1.
    unfold bind at 1. unfold _isValidPosition at 1.
    cbn [Z.of_nat] in Hstop. rewrite Z.add_0_r in Hstop. rewrite Hstop.
    cbn [must ret Z.of_nat]. now rewrite !Z.add_0_r, set_currentY_same.
  - unfold bind at 1. unfold currentPiece at 1. rewrite Hp. cbn [must ret].
    unfold bind at 1. unfold read at 1.
    unfold bind at 1. unfold read at 1.
    unfold bind at 1. unfold _isValidPosition at 1.
    rewrite (Hvalid 1) by lia. cbn [must ret].
    unfold bind at 1. unfold assign at 1.
    rewrite (IH fuel (d + 1) (set_currentY (_currentY g + 1) g) p).
    + cbn [_currentY set_currentY]. f_equal; [lia|].
      replace (_currentY g + 1 + Z.of_nat n) with (_currentY g + Z.of_nat (S n))
        by lia. reflexivity.
    + exact Hp.
    + lia.
    + intros i Hi. cbn [_currentY _currentX set_currentY].
      change (isValidPosition (set_currentY (_currentY g + 1) g))
        with (isValidPosition g).
      replace (_currentY g + 1 + i) with (_currentY g + (i + 1)) by lia.
      apply Hvalid. lia.
    + cbn [_currentY _currentX set_currentY].
      change (isValidPosition (set_currentY (_currentY g + 1) g))
        with (isValidPosition g).
      replace (_currentY g + 1 + Z.of_nat n + 1)
        with (_currentY g + Z.of_nat (S n) + 1) by lia.
      exact Hstop.
Qed.

(** C7.  (1) [_addScore(points)] adds [points] to the score and dispatches
    score-update with the new total, the previous total and [points], on
    every call, also when [points] is 0.  (2) Clearing [k] lines, [k] from 0
    to 4, at level [L] leaves the score increased by 0, [100 * L],
    [300 * L], [500 * L] and [800 * L] for [k] = 0, 1, 2, 3 and 4; for
    [k >= 1] the award is the first effect of the call, made through
    [_addScore].  (3) A hard drop that advances the piece [n] rows awards
    [2 * n] through [_addScore] before locking, clearing and spawning.
    (4) The soft-drop key awards 1 through [_addScore] when the piece moved
    down, and nothing when it did not; it repaints in both cases. *)
Theorem scoring_rules :
  (forall (points : Num) (g : Game),
      _addScore points g = Return tt (afterAddScore points g)
      /\ score (afterAddScore points g) = plus (score g) points
      /\ log (afterAddScore points g)
         = log g ++ [dispatch (score_update (plus (score g) points)
                                            (score g) points)])
  /\ (forall (g : Game),
        board_wf g ->
        let k := List.length (fullRows (_board g)) in
        let award := num (match k with
                          | 0%nat => 0
                          | 1%nat => 100
                          | 2%nat => 300
                          | 3%nat => 500
                          | _ => 800
                          end * level g) in
        (k <= 4)%nat ->
        exists g' : Game,
          _clearLines g = Return tt g'
          /\ score g' = plus (score g) award
          /\ (k <> 0%nat ->
              exists later,
                log g' = log g ++ dispatch (score_update (plus (score g) award)
                                                         (score g) award)
                               :: later))
  /\ (forall (g : Game) (p : Piece) (n fuel rnd : nat),
        _currentPiece g = Some p ->
        (n < fuel)%nat ->
        (forall i, 1 <= i <= Z.of_nat n ->
           isValidPosition g (shape p) (_currentX g) (_currentY g + i)
           = Some true) ->
        isValidPosition g (shape p) (_currentX g) (_currentY g + Z.of_nat n + 1)
        = Some false ->
        _hardDrop fuel rnd g
        = (_lockPiece ;; _clearLines ;; _spawnPiece rnd ;; _render)
            (afterAddScore (num (Z.of_nat n * 2))
                           (set_currentY (_currentY g + Z.of_nat n) g)))
  /\ (forall (g : Game) (p : Piece) (key : string) (fuel rnd1 rnd2 : nat),
        gameStarted g = true -> gameOver g = false -> paused g = false ->
        In key ["ArrowDown"; "s"; "S"]%string ->
        _currentPiece g = Some p ->
        (isValidPosition g (shape p) (_currentX g) (_currentY g + 1) = Some true ->
         _handleKeyDown key fuel rnd1 rnd2 g
         = Return tt (set_log (log g ++ [dispatch (score_update
                                                     (plus (score g) (num 1))
                                                     (score g) (num 1));
                                         render])
                        (set_score (plus (score g) (num 1))
                           (set_currentY (_currentY g + 1) g))))
        /\ (isValidPosition g (shape p) (_currentX g) (_currentY g + 1)
            = Some false ->
            _handleKeyDown key fuel rnd1 rnd2 g
            = Return tt (set_log (log g ++ [render]) g))).
Proof.
  split; [|split; [|split]].
  - intros points g. repeat split.
  - intros g (Hw & Hh & Hl & Hrows) k award Hk.
    destruct (fullRows (_board g)) as [|y ls] eqn:E.
    + exists g. split; [now apply clearLines_none|].
      split; [|intros H; now contradiction H].
      unfold award, k. cbn [List.length].
      now rewrite plus_zero.
    + rewrite clearLines_some by (rewrite ?E; congruence || assumption).
      rewrite E. cbv zeta.
      assert (Hp : linePoints (List.length (y :: ls)) (level g) = award)
        by (now apply linePoints_lookup).
      destruct (lines _ >=? _linesForNextLevel _);
        eexists; (split; [reflexivity|]); cbn [score afterLevelUp afterClear log];
        rewrite Hp; (split; [reflexivity|]); intros _;
        eexists; rewrite <- !app_assoc; cbn [app]; reflexivity.
  - intros g p n fuel rnd Hp Hfuel Hvalid Hstop. unfold _hardDrop.
    unfold bind at 1.
    rewrite (@dropLoop_run n fuel 0 g p Hp Hfuel Hvalid Hstop).
    rewrite Z.add_0_l.
    unfold bind at 1. rewrite addScore_run. reflexivity.
  - intros g p key fuel rnd1 rnd2 Hs Ho Hpa Hkey Hp.
    assert (Hrun : _handleKeyDown key fuel rnd1 rnd2 g
                   = (moved <- _moveDown ;;
                      (if moved then _addScore (num 1) else ret tt) ;;
                      _render) g).
    { unfold _handleKeyDown. unfold bind at 1. unfold read at 1.
      rewrite Hs, Ho, Hpa. cbn [negb orb].
      destruct Hkey as [<-|[<-|[<-|[]]]]; reflexivity. }
    rewrite Hrun. unfold _moveDown.
    split; intros Hv; unfold bind at 1; unfold bind at 1;
      unfold currentPiece at 1; rewrite Hp; cbn [must ret];
      unfold bind at 1; unfold read at 1;
      unfold bind at 1; unfold read at 1;
      unfold bind at 1; unfold _isValidPosition at 1; rewrite Hv;
      cbn [must ret].
    + unfold bind, assign, ret, _addScore, read, _dispatchEvent, _render.
      cbn. unfold assign, set_log at 1. cbn. now rewrite <- app_assoc.
    + reflexivity.
Qed.

Lemma scoring_rules_witness :
  (_addScore (num 0) Samples.playing
   = Return tt (afterAddScore (num 0) Samples.playing))
  /\ (exists g' : Game,
        _clearLines Samples.one_full = Return tt g'
        /\ score g' = num 100)
  /\ (exists g' : Game,
        _clearLines Samples.two_full = Return tt g'
        /\ score g' = num 300)
  /\ (_hardDrop 5 0 Samples.falling
      = (_lockPiece ;; _clearLines ;; _spawnPiece 0 ;; _render)
          (afterAddScore (num 4) (set_currentY 18 Samples.falling)))
  /\ (_handleKeyDown "ArrowDown" 5 0 0 Samples.falling
      = Return tt (set_log [dispatch (score_update (num 41) (num 40) (num 1));
                            render]
                     (set_score (num 41) (set_currentY 17 Samples.falling)))).
Proof.
  destruct scoring_rules as (HA & HB & HC & HD).
  split; [apply HA|]. split; [|split; [|split]].
  - assert (Hwf : board_wf Samples.one_full).
    { unfold board_wf. cbn. repeat split; try lia. repeat constructor. }
    destruct (HB Samples.one_full Hwf ltac:(cbn; lia)) as (g' & Hrun & Hs & _).
    exists g'. split; [exact Hrun | exact Hs].
  - assert (Hwf : board_wf Samples.two_full).
    { unfold board_wf. cbn. repeat split; try lia. repeat constructor. }
    destruct (HB Samples.two_full Hwf ltac:(cbn; lia)) as (g' & Hrun & Hs & _).
    exists g'. split; [exact Hrun | exact Hs].
  - apply (HC Samples.falling Samples.pieceT 2%nat 5%nat 0%nat eq_refl).
    + lia.
    + intros i Hi. assert (i = 1 \/ i = 2) as [-> | ->] by lia; reflexivity.
    + reflexivity.
  - apply (HD Samples.falling Samples.pieceT "ArrowDown"%string 5%nat 0%nat
              0%nat eq_refl eq_refl eq_refl (or_introl eq_refl) eq_refl).
    reflexivity.
Defined.

(** ** What holds of line clearing: one full row *)

Lemma filter_none {A : Type} (f : A -> bool) (l : list A) :
  (forall a, In a l -> f a = false) ->
  filter f l = [] /\ filter (fun a => negb (f a)) l = l.
Proof.
  induction l as [|a l IH]; intros H; [now split|].
  cbn. rewrite (H a) by now left. cbn.
  destruct IH as [-> ->]; [|now split].
  intros b Hb. apply H. now right.
Qed.

Lemma nth_error_cut {A : Type} (l : list A) n (a : A) :
  nth_error l n = Some a -> l = firstn n l ++ a :: skipn (S n) l.
Proof.
  revert l. induction n as [|n IH]; intros [|x l] H; try discriminate.
  - cbn in H. now injection H as ->.
  - cbn in H. cbn. f_equal. now apply IH.
Qed.

Lemma fullRows_only b y :
  fullRows b = [y] ->
  forall i r, nth_error b i = Some r -> i <> y -> isFull r = false.
Proof.
  intros E i r Hi Hne. destruct (isFull r) eqn:Hr; [|reflexivity].
  assert (Hin : In i (fullRows b)).
  { apply fullRows_In. split.
    - apply nth_error_Some. congruence.
    - now rewrite (nth_error_nth _ _ [] Hi). }
  rewrite E in Hin. destruct Hin as [->|[]]. congruence.
Qed.

Lemma single_full_row_compacted w b y :
  fullRows b = [y] ->
  removeLine w b y = compacted w b.
Proof.
  intros E.
  assert (Hy : In y (fullRows b)) by (rewrite E; now left).
  destruct (fullRows_row b y Hy) as (r & Hr & Hfull).
  pose proof (nth_error_cut b y Hr) as Hsplit.
  assert (Hbefore : forall a, In a (firstn y b) -> isFull a = false).
  { intros a Ha. apply In_nth_error in Ha. destruct Ha as [i Hi].
    rewrite nth_error_firstn in Hi.
    destruct (Nat.ltb_spec i y); [|discriminate].
    apply (@fullRows_only b y E i a Hi). lia. }
  assert (Hafter : forall a, In a (skipn (S y) b) -> isFull a = false).
  { intros a Ha. apply In_nth_error in Ha. destruct Ha as [i Hi].
    rewrite nth_error_skipn in Hi.
    apply (@fullRows_only b y E (S y + i)%nat a Hi). lia. }
  destruct (@filter_none _ isFull _ Hbefore) as [B1 B2].
  destruct (@filter_none _ isFull _ Hafter) as [A1 A2].
  unfold compacted. rewrite Hsplit at 2 3.
  rewrite !filter_app. cbn [filter]. rewrite Hfull. cbn [negb].
  rewrite B1, B2, A1, A2. reflexivity.
Qed.

(** With exactly one full row the board after [_clearLines] is the
    compacted board: that row is gone, an empty row is on top, the other
    rows keep their order, and (for a board at least one cell wide) no full
    row is left. *)
Lemma clearLines_single_row (g : Game) (y : nat) :
  board_wf g ->
  0 < width g ->
  fullRows (_board g) = [y] ->
  exists g' : Game,
    _clearLines g = Return tt g'
    /\ _board g' = compacted (width g) (_board g)
    /\ List.length (_board g') = Z.to_nat (height g')
    /\ existsb isFull (_board g') = false
    /\ score g' = plus (score g) (num (100 * level g))
    /\ lines g' = lines g + 1.
Proof.
  intros (Hw & Hh & Hl & Hrows) Hpos E.
  assert (Hy : (y < List.length (_board g))%nat).
  { apply (fullRows_In (_board g) y). rewrite E. now left. }
  assert (Hb : fold_left (removeLine (width g)) [y] (_board g)
               = compacted (width g) (_board g))
    by (cbn [fold_left]; now apply single_full_row_compacted).
  assert (Hn : existsb isFull (compacted (width g) (_board g)) = false).
  { rewrite <- Hb. cbn [fold_left]. unfold removeLine, unshift, splice1.
    cbn [existsb]. apply orb_false_intro.
    - destruct (Z.to_nat (width g)) as [|n] eqn:En; [lia|]. reflexivity.
    - apply not_true_is_false. intros Hex.
      apply existsb_exists in Hex. destruct Hex as (r & Hin & Hr).
      apply in_app_or in Hin. destruct Hin as [Hin|Hin];
        apply In_nth_error in Hin; destruct Hin as [i Hi].
      + rewrite nth_error_firstn in Hi.
        destruct (Nat.ltb_spec i y); [|discriminate].
        rewrite (@fullRows_only (_board g) y E i r Hi) in Hr by lia.
        discriminate.
      + rewrite nth_error_skipn in Hi.
        rewrite (@fullRows_only (_board g) y E (S y + i)%nat r Hi) in Hr by lia.
        discriminate. }
  rewrite clearLines_some by (rewrite ?E; congruence || assumption).
  rewrite E. cbv zeta.
  destruct (lines _ >=? _linesForNextLevel _);
    eexists; (split; [reflexivity|]);
    cbn [_board afterLevelUp afterClear height score lines List.length];
    rewrite Hb; repeat split; trivial;
    rewrite <- Hb; cbn [fold_left];
    rewrite removeLine_length by exact Hy; exact Hl.
Qed.

Example clearLines_one_full_run :
  exists g',
    _clearLines Samples.one_full = Return tt g'
    /\ _board g' = [ [None; None; None; None];
                     [None; None; None; None];
                     [None; None; None; None];
                     [Samples.X; None; None; None] ]
    /\ score g' = num 100 /\ lines g' = 1.
Proof. eexists. split; [vm_compute; reflexivity|]. repeat split. Qed.

(** [_clearLines] always returns on a well-formed board and leaves the
    board well formed. *)
Lemma clearLines_preserves_wf (g : Game) :
  board_wf g -> exists g', _clearLines g = Return tt g' /\ board_wf g'.
Proof.
  intros (Hw & Hh & Hl & Hrows).
  destruct (fullRows (_board g)) as [|y ls] eqn:E.
  - exists g. split; [now apply clearLines_none | now repeat split].
  - assert (Hlt : Forall (fun i => (i < List.length (_board g))%nat) (y :: ls)).
    { apply Forall_forall. intros i Hi. apply (fullRows_In (_board g) i).
      now rewrite E. }
    rewrite clearLines_some by (rewrite ?E; congruence || assumption).
    rewrite E. cbv zeta.
    destruct (lines _ >=? _linesForNextLevel _);
      eexists; (split; [reflexivity|]); unfold board_wf;
      cbn [width height _board afterLevelUp afterClear];
      repeat split; trivial;
      try (rewrite fold_removeLine_length by exact Hlt; exact Hl);
      now apply fold_removeLine_width.
Qed.

(** [_initBoard] builds a well-formed board. *)
Lemma initBoard_wf g :
  0 <= width g -> 0 <= height g ->
  exists g', _initBoard g = Return tt g' /\ board_wf g'.
Proof.
  intros Hw Hh. eexists. split; [reflexivity|].
  unfold board_wf. cbn. repeat split; trivial.
  - apply repeat_length.
  - apply Forall_forall. intros r Hr. apply repeat_spec in Hr. subst r.
    apply repeat_length.
Qed.

(** On a board too narrow for the first piece, [startGame] itself runs into
    the failed spawn: the game is over at once and its ticks are skipped,
    although [startGame] goes on to start the timer after [_endGame]
    stopped it. *)
Example startGame_on_narrow_board :
  let narrow := mkGame 3 20 1000 (num 0) 1 0 false false false [] None 0 0
                       None None 10 [] in
  exists g',
    startGame 0 1 narrow = Return tt g'
    /\ gameOver g' = true
    /\ _gameLoop g' = Some 1000
    /\ log g' = [dispatch (game_over (num 0) 1 0); renderPreview;
                 dispatch (game_start 1 1000)]
    /\ forall rnds, ticks rnds g' = Return tt g'.
Proof.
  cbv zeta. eexists. split; [vm_compute; reflexivity|].
  split; [reflexivity|]. split; [reflexivity|]. split; [reflexivity|].
  intros rnds. now apply ticks_skipped.
Qed.

(** A shape without rows makes [_rotateMatrix] throw before anything is
    assigned. *)
Lemma rotate_empty_shape_throws g p :
  _currentPiece g = Some p -> shape p = [] -> _rotate g = Throw g.
Proof.
  intros Hp Hs. unfold _rotate, bind, currentPiece. rewrite Hp. cbn.
  now rewrite Hs.
Qed.

End GameTetrisFacts.
(* ===================================================================== *)
(** * Further properties of the cell *)
(* ===================================================================== *)

Module LivingWccellMore.
Import LivingWccell.
Local Open Scope nat_scope.

Lemma setAlive_eq (a : bool) (c : Cell) :
  setAlive a c
  = (let c' := if a then (if alive c then c else set_age 1 (set_alive true c))
               else set_age 0 (set_alive false c) in
     (c', if Bool.eqb (alive c) a then [] else [_dispatchStateChange c'])).
Proof.
  unfold setAlive. destruct c as [al ? ? ? ? ? ? ? ? ?].
  destruct a, al; reflexivity.
Qed.

Lemma applyNextState_alive (c : Cell) (p : bool) :
  _nextState c = Some p ->
  alive (fst (applyNextState c)) = p
  /\ age (fst (applyNextState c))
     = (if p then (if alive c then age c + 1 else 1) else 0).
Proof.
  intros E. unfold applyNextState. rewrite E.
  destruct p, (alive c) eqn:Ha; cbn; rewrite ?Ha; cbn; split; reflexivity.
Qed.

Lemma ac_setAlive c a : age_consistent c -> age_consistent (fst (setAlive a c)).
Proof.
  intros [Hd Hl]. rewrite setAlive_eq. cbv zeta. cbn [fst].
  destruct a; [destruct (alive c) eqn:Ha|]; split; cbn; intros;
    try congruence; try lia; auto.
Qed.

Lemma ac_calculate c n :
  age_consistent c -> age_consistent (snd (fst (calculateNextState n c))).
Proof.
  intros H. rewrite LivingWccellFacts.calculateNextState_eq. exact H.
Qed.

Lemma ac_apply c : age_consistent c -> age_consistent (fst (applyNextState c)).
Proof.
  intros [Hd Hl]. destruct (_nextState c) as [p|] eqn:E.
  - destruct (applyNextState_alive c E) as [Ea Eg]. split; rewrite Ea, Eg.
    + now intros ->.
    + intros ->. destruct (alive c); lia.
  - unfold applyNextState. rewrite E. now split.
Qed.

Lemma ac_updateGeneration c gen :
  age_consistent c -> age_consistent (fst (updateGeneration gen c)).
Proof. intros H. unfold updateGeneration. now destruct (Nat.eqb _ _). Qed.

Lemma ac_click c : age_consistent c -> age_consistent (fst (_handleClick c)).
Proof.
  intros H. unfold _handleClick.
  pose proof (ac_setAlive (negb (alive c)) H) as Ht. fold (toggle c) in Ht.
  now destruct (toggle c).
Qed.

Lemma ac_key c key :
  age_consistent c -> age_consistent (fst (_handleKeyDown key c)).
Proof.
  intros H. unfold _handleKeyDown. destruct (_ || _); [|exact H].
  pose proof (ac_setAlive (negb (alive c)) H) as Ht. fold (toggle c) in Ht.
  now destruct (toggle c).
Qed.

(** The age invariant holds for a new cell and is kept by every method:
    whatever is called on a cell whose age agrees with its state, in any
    order, a dead cell has age 0 and a live cell has age at least 1. *)
Theorem age_consistent_kept (c : Cell) :
  age_consistent new
  /\ (age_consistent c ->
      (forall a, age_consistent (fst (setAlive a c)))
      /\ age_consistent (fst (toggle c))
      /\ (forall n, age_consistent (snd (fst (calculateNextState n c))))
      /\ age_consistent (fst (applyNextState c))
      /\ (forall gen, age_consistent (fst (updateGeneration gen c)))
      /\ age_consistent (reset c)
      /\ (forall b s, age_consistent (setRules b s c))
      /\ age_consistent (fst (_handleClick c))
      /\ (forall key, age_consistent (fst (_handleKeyDown key c)))).
Proof.
  split.
  - split; cbn; [reflexivity | discriminate].
  - intros H.
    split; [intros a; now apply ac_setAlive|].
    split; [now apply ac_setAlive|].
    split; [intros n; now apply ac_calculate|].
    split; [now apply ac_apply|].
    split; [intros gen; now apply ac_updateGeneration|].
    split; [split; cbn; [reflexivity | discriminate]|].
    split; [intros b s; exact H|].
    split; [now apply ac_click|].
    intros key; now apply ac_key.
Qed.

Lemma age_consistent_kept_witness :
  age_consistent (fst (applyNextState (snd (fst (calculateNextState 3 new))))).
Proof.
  destruct (age_consistent_kept (snd (fst (calculateNextState 3 new))))
    as [Hnew Hkept].
  destruct (age_consistent_kept new) as [_ Hn].
  apply Hkept. apply Hn. exact Hnew.
Defined.

(** [setAlive]: one state-change event exactly when the value differs from
    the current one, and a repeated call with the same value changes nothing
    and is silent. *)
Theorem setAlive_idempotent (a : bool) (c : Cell) :
  let '(c1, evs1) := setAlive a c in
  let '(c2, evs2) := setAlive a c1 in
  alive c1 = a
  /\ (evs1 = [] <-> alive c = a)
  /\ (alive c <> a -> evs1 = [state_change a (alive c) (x c) (y c)
                                            (if a then 1 else 0)
                                            (generation c) (cellId c)])
  /\ c2 = c1 /\ evs2 = [].
Proof.
  destruct c as [al cx cy g ag r n sg id ns].
  destruct a, al; cbn; repeat split; intros; congruence.
Qed.

Lemma setAlive_idempotent_witness :
  let '(c1, evs1) := setAlive true new in
  let '(c2, evs2) := setAlive true c1 in
  alive c1 = true
  /\ (evs1 = [] <-> alive new = true)
  /\ (alive new <> true -> evs1 = [state_change true (alive new) (x new)
                                                 (y new) 1 (generation new)
                                                 (cellId new)])
  /\ c2 = c1 /\ evs2 = [].
Proof. exact (setAlive_idempotent true new). Defined.

(** Toggling twice gives back the state but not the age: the cell ends as
    it was except that its age is 1 if it is alive and 0 if it is dead, and
    two state-change events were dispatched. *)
Theorem toggle_twice (c : Cell) :
  let '(c1, evs1) := toggle c in
  let '(c2, evs2) := toggle c1 in
  c2 = set_age (if alive c then 1 else 0) c
  /\ alive c1 = negb (alive c)
  /\ List.length evs1 = 1 /\ List.length evs2 = 1.
Proof.
  destruct c as [al cx cy g ag r n sg id ns].
  destruct al; cbn; repeat split.
Qed.

(** One generation: calculate then apply makes the cell alive exactly when
    its rule set says so for the neighbour count, records the count, leaves
    nothing pending, and dispatches one state-change event exactly when the
    state changed.  Of two calculations before one apply the later one
    counts. *)
Theorem step_follows_rule (n m : nat) (c : Cell) :
  let c' := fst (step n c) in
  alive c' = rule c n
  /\ neighborCount c' = n
  /\ _nextState c' = None
  /\ age c' = (if rule c n then (if alive c then age c + 1 else 1) else 0)
  /\ (snd (step n c) = [] <-> rule c n = alive c)
  /\ List.length (snd (step n c)) <= 1
  /\ step n (snd (fst (calculateNextState m c))) = step n c.
Proof.
  unfold step, rule. rewrite !LivingWccellFacts.calculateNextState_eq.
  cbv zeta. cbn [fst snd].
  destruct c as [al cx cy g ag r k sg id ns]. cbn.
  destruct al; cbn;
    [destruct (includes (survival r) n) | destruct (includes (birth r) n)];
    cbn; repeat split; intros; try congruence; try lia.
Qed.

Lemma step_follows_rule_witness :
  alive (fst (step 3 new)) = true
  /\ (snd (step 3 new) = [] <-> rule new 3 = alive new).
Proof.
  destruct (step_follows_rule 3 0 new) as (Ha & _ & _ & _ & He & _).
  split; [exact Ha | exact He].
Defined.

(** Replacing the rules between the two phases does not change what the
    apply phase does: the pending state computed under the old rules is
    applied, and the new rules are used from the next calculation on. *)
Theorem setRules_keeps_pending (b s : list nat) (n k : nat) (c : Cell) :
  let c1 := snd (fst (calculateNextState n c)) in
  applyNextState (setRules b s c1)
  = (setRules b s (fst (applyNextState c1)), snd (applyNextState c1))
  /\ alive (fst (applyNextState (setRules b s c1))) = rule c n
  /\ fst (fst (calculateNextState k (setRules b s c)))
     = (if alive c then includes s k else includes b k).
Proof.
  rewrite !LivingWccellFacts.calculateNextState_eq. cbv zeta. cbn [fst snd].
  unfold rule.
  destruct c as [al cx cy g ag r m sg id ns]. cbn.
  destruct al; cbn;
    [destruct (includes (survival r) n) | destruct (includes (birth r) n)];
    cbn; repeat split.
Qed.

(** [reset] forgets the state, the age, the generation, the neighbour count
    and any pending state, and keeps the position, the rules and the id; an
    apply phase after it does nothing, and a second reset changes nothing. *)
Theorem reset_discards (c : Cell) :
  reset c = mkCell false (x c) (y c) 0 0 (rules c) 0 (showGeneration c)
                   (cellId c) None
  /\ applyNextState (reset c) = (reset c, [])
  /\ (forall n, applyNextState (reset (snd (fst (calculateNextState n c))))
                = (reset c, []))
  /\ reset (reset c) = reset c.
Proof.
  repeat split.
  intros n. rewrite LivingWccellFacts.calculateNextState_eq. reflexivity.
Qed.

(** [updateGeneration] changes the generation only, dispatches one
    generation-update event exactly when the number differs from the stored
    one, and is silent when repeated. *)
Theorem updateGeneration_spec (gen : nat) (c : Cell) :
  let '(c1, evs1) := updateGeneration gen c in
  c1 = set_generation gen c
  /\ (generation c = gen -> evs1 = [] /\ c1 = c)
  /\ (generation c <> gen ->
      evs1 = [generation_update gen (generation c) (x c) (y c)
                                (alive c) (age c)])
  /\ updateGeneration gen c1 = (c1, []).
Proof.
  unfold updateGeneration.
  destruct (Nat.eqb_spec (generation c) gen) as [E|E]; cbn [fst snd].
  - split; [reflexivity|]. split.
    + intros _. split; [reflexivity|]. subst gen. now destruct c.
    + split; [congruence|]. cbn. now rewrite Nat.eqb_refl.
  - split; [reflexivity|]. split; [congruence|]. split; [reflexivity|].
    cbn. now rewrite Nat.eqb_refl.
Qed.

Lemma updateGeneration_spec_witness :
  let '(c1, evs1) := updateGeneration 7 new in
  c1 = set_generation 7 new
  /\ (generation new = 7 -> evs1 = [] /\ c1 = new)
  /\ (generation new <> 7 ->
      evs1 = [generation_update 7 (generation new) (x new) (y new)
                                (alive new) (age new)])
  /\ updateGeneration 7 c1 = (c1, []).
Proof. exact (updateGeneration_spec 7 new). Defined.

(** A click toggles the cell and then reports it: the cell-click event
    comes after the state-change event and carries the new state.  The
    Enter and space keys do exactly what a click does; any other key does
    nothing. *)
Theorem click_and_keys (key : string) (c : Cell) :
  _handleClick c
  = (fst (toggle c),
     [state_change (negb (alive c)) (alive c) (x c) (y c)
                   (if alive c then 0 else 1) (generation c) (cellId c);
      cell_click (x c) (y c) (negb (alive c)) (cellId c)])
  /\ (key = "Enter"%string \/ key = " "%string ->
      _handleKeyDown key c = _handleClick c)
  /\ (key <> "Enter"%string -> key <> " "%string ->
      _handleKeyDown key c = (c, [])).
Proof.
  split; [|split].
  - destruct c as [al cx cy g ag r n sg id ns]. now destruct al.
  - intros [-> | ->]; reflexivity.
  - intros H1 H2. unfold _handleKeyDown.
    apply String.eqb_neq in H1, H2. now rewrite H1, H2.
Qed.

Lemma click_and_keys_witness :
  _handleKeyDown "Enter" new = _handleClick new
  /\ _handleKeyDown "a" new = (new, []).
Proof.
  split.
  - apply (proj1 (proj2 (click_and_keys "Enter" new))). now left.
  - apply (proj2 (proj2 (click_and_keys "a" new))); discriminate.
Defined.

End LivingWccellMore.
(* ===================================================================== *)
(** * Further properties of the physics body *)
(* ===================================================================== *)

Module ConvgameObjectMore.
Import ConvgameObject.
Local Open Scope num_scope.

Section Generic.

Context {F : Type} {N : Number F}.

Lemma same_shape_refl (b : Body F) : same_shape b b.
Proof. now repeat split. Qed.

(** A static body is inert: a force, an impulse and an update return it as
    it is, and a collision response never changes it, whichever side of the
    call it is on. *)
Theorem static_body_inert (b other : Body F) (fx fy dt : F) :
  isStatic b = true ->
  applyForce fx fy b = b
  /\ applyImpulse fx fy b = b
  /\ update dt b = (b, [])
  /\ fst (resolveCollision b other) = b
  /\ snd (resolveCollision other b) = b.
Proof.
  intros Hs. unfold applyForce, applyImpulse, update. rewrite Hs.
  repeat split; rewrite ConvgameObjectFacts.resolveCollision_unfold;
    rewrite Hs; rewrite ?andb_true_r;
    repeat match goal with |- context [if ?c then _ else _] => destruct c end;
    reflexivity.
Qed.

(** No method touches the size, the mass, the friction, the restitution,
    the static flag or the bounds; a force changes the acceleration only, an
    impulse the velocity only, and a collision response the two velocities
    only. *)
Theorem physics_frame (b other : Body F) (fx fy dt : F) :
  same_shape b (fst (update dt b))
  /\ applyForce fx fy b
     = set_accelerationY (_accelerationY (applyForce fx fy b))
         (set_accelerationX (_accelerationX (applyForce fx fy b)) b)
  /\ applyImpulse fx fy b
     = set_velocityY (velocityY (applyImpulse fx fy b))
         (set_velocityX (velocityX (applyImpulse fx fy b)) b)
  /\ fst (resolveCollision b other)
     = with_velocity (velocityX (fst (resolveCollision b other)))
                     (velocityY (fst (resolveCollision b other))) b
  /\ snd (resolveCollision b other)
     = with_velocity (velocityX (snd (resolveCollision b other)))
                     (velocityY (snd (resolveCollision b other))) other.
Proof.
  split; [|split; [|split; [|split]]].
  - destruct (isStatic b) eqn:Hs.
    + unfold update. rewrite Hs. apply same_shape_refl.
    + rewrite (@ConvgameObjectFacts.update_unfold F N dt b Hs). cbn [fst].
      destruct (bounds b) as [bd|] eqn:Hb.
      * destruct (@ConvgameObjectFacts._checkBounds_fields F N bd
                    (integrate dt b) Hb)
          as (_ & _ & _ & _ & A1 & A2 & A3 & A4 & A5 & A6 & A7 & _).
        unfold same_shape. rewrite A1, A2, A3, A4, A5, A6, A7.
        now repeat split.
      * now repeat split.
  - unfold applyForce. destruct b. cbn. now destruct isStatic0.
  - unfold applyImpulse. destruct b. cbn. now destruct isStatic0.
  - rewrite ConvgameObjectFacts.resolveCollision_unfold.
    repeat match goal with |- context [if ?c then _ else _] => destruct c end;
      cbn; now destruct b.
  - rewrite ConvgameObjectFacts.resolveCollision_unfold.
    repeat match goal with |- context [if ?c then _ else _] => destruct c end;
      cbn; now destruct other.
Qed.

(** Forces add up until the next update and are used by that update only.
    Two forces applied in a row leave the sum of both accelerations.  The
    next [update] puts that sum into the velocity: on each axis the new
    velocity is [(velocity + acceleration * deltaTime) * friction], or that
    value negated and scaled by [restitution] when a bound was hit, and
    without bounds the position moves by the new velocity times
    [deltaTime].  After the update the acceleration is zero, so the update
    after it adds [0 * deltaTime] to the velocity. *)
Theorem forces_accumulate_once (b : Body F) (fx fy gx gy dt : F) :
  isStatic b = false ->
  let b2 := applyForce gx gy (applyForce fx fy b) in
  let b3 := fst (update dt b2) in
  let b4 := fst (update dt b3) in
  let ax := _accelerationX b + fx / mass b + gx / mass b in
  let ay := _accelerationY b + fy / mass b + gy / mass b in
  let vx := (velocityX b + ax * dt) * friction b in
  let vy := (velocityY b + ay * dt) * friction b in
  let wx := (velocityX b3 + num_zero * dt) * friction b in
  let wy := (velocityY b3 + num_zero * dt) * friction b in
  _accelerationX b2 = ax /\ _accelerationY b2 = ay
  /\ (velocityX b3 = vx \/ velocityX b3 = - vx * restitution b)
  /\ (velocityY b3 = vy \/ velocityY b3 = - vy * restitution b)
  /\ (bounds b = None ->
      velocityX b3 = vx /\ velocityY b3 = vy
      /\ x b3 = x b + vx * dt /\ y b3 = y b + vy * dt)
  /\ _accelerationX b3 = num_zero /\ _accelerationY b3 = num_zero
  /\ (velocityX b4 = wx \/ velocityX b4 = - wx * restitution b)
  /\ (velocityY b4 = wy \/ velocityY b4 = - wy * restitution b)
  /\ (bounds b = None -> velocityX b4 = wx /\ velocityY b4 = wy).
Proof.
  intros Hs b2 b3 b4 ax ay vx vy wx wy.
  assert (E2 : b2 = set_accelerationY ay (set_accelerationX ax b)).
  { unfold b2, applyForce. rewrite Hs. cbn. rewrite Hs. reflexivity. }
  assert (Hs2 : isStatic b2 = false) by (rewrite E2; exact Hs).
  assert (Em : integrate dt b2
               = mkBody (x b + vx * dt) (y b + vy * dt) (width b) (height b)
                        vx vy (mass b) (friction b) (restitution b)
                        (isStatic b) (bounds b) num_zero num_zero)
    by (rewrite E2; reflexivity).
  assert (A3 : (velocityX b3 = vx \/ velocityX b3 = - vx * restitution b)
               /\ (velocityY b3 = vy \/ velocityY b3 = - vy * restitution b)
               /\ (bounds b = None -> b3 = integrate dt b2)
               /\ _accelerationX b3 = num_zero /\ _accelerationY b3 = num_zero
               /\ friction b3 = friction b /\ restitution b3 = restitution b
               /\ isStatic b3 = false /\ bounds b3 = bounds b).
  { unfold b3. rewrite (@ConvgameObjectFacts.update_unfold F N dt b2 Hs2).
    cbn [fst]. replace (bounds b2) with (bounds b) by (now rewrite E2).
    destruct (bounds b) as [bd|] eqn:Hb.
    - assert (Hbm : bounds (integrate dt b2) = Some bd)
        by (rewrite Em; reflexivity).
      destruct (@ConvgameObjectFacts._checkBounds_fields F N bd
                  (integrate dt b2) Hbm)
        as (_ & _ & Vx & Vy & _ & _ & _ & Fr & Re & St & Bo & Ax & Ay).
      rewrite Vx, Vy, Fr, Re, St, Bo, Ax, Ay. rewrite Em. cbn.
      repeat split; try assumption; try discriminate;
        match goal with |- context [if ?c then _ else _] => destruct c end;
        auto.
    - rewrite Em. cbn. repeat split; auto. }
  destruct A3 as (Vx & Vy & Hnone & Ax & Ay & Fr & Re & St & Bo).
  assert (Em3 : integrate dt b3
                = mkBody (x b3 + wx * dt) (y b3 + wy * dt) (width b3)
                         (height b3) wx wy (mass b3) (friction b3)
                         (restitution b3) (isStatic b3) (bounds b3)
                         num_zero num_zero).
  { unfold integrate, wx, wy. now rewrite Ax, Ay, Fr. }
  assert (A4 : (velocityX b4 = wx \/ velocityX b4 = - wx * restitution b)
               /\ (velocityY b4 = wy \/ velocityY b4 = - wy * restitution b)
               /\ (bounds b = None -> velocityX b4 = wx /\ velocityY b4 = wy)).
  { unfold b4. rewrite (@ConvgameObjectFacts.update_unfold F N dt b3 St).
    cbn [fst]. rewrite Bo.
    destruct (bounds b) as [bd|] eqn:Hb.
    - assert (Hbm : bounds (integrate dt b3) = Some bd)
        by (rewrite Em3; exact Bo).
      destruct (@ConvgameObjectFacts._checkBounds_fields F N bd
                  (integrate dt b3) Hbm)
        as (_ & _ & Wx & Wy & _).
      rewrite Wx, Wy. rewrite Em3. cbn. rewrite Re.
      repeat split; try discriminate;
        match goal with |- context [if ?c then _ else _] => destruct c end;
        auto.
    - rewrite Em3. cbn. repeat split; auto. }
  destruct A4 as (Wx & Wy & Wnone).
  split; [now rewrite E2|]. split; [now rewrite E2|].
  split; [exact Vx|]. split; [exact Vy|].
  split.
  { intros Hb. rewrite (Hnone Hb), Em. cbn. now repeat split. }
  split; [exact Ax|]. split; [exact Ay|].
  split; [exact Wx|]. split; [exact Wy | exact Wnone].
Qed.

(** The overlap test does not depend on which of the two objects is asked;
    [null] never collides; a collision event is dispatched exactly when the
    answer is [true]. *)
Theorem collidesWith_symmetric (a b : Body F) :
  fst (collidesWith (Some b) a) = fst (collidesWith (Some a) b)
  /\ collidesWith None a = (false, [])
  /\ (fst (collidesWith (Some b) a) = true ->
      snd (collidesWith (Some b) a)
      = [collision (getBoundingBox a) (getBoundingBox b)])
  /\ (fst (collidesWith (Some b) a) = false ->
      snd (collidesWith (Some b) a) = []).
Proof.
  unfold collidesWith, getBoundingBox. cbn.
  destruct (x a <? x b + width b), (x a + width a >? x b),
    (y a <? y b + height b), (y a + height a >? y b); cbn;
    repeat split; intros; congruence.
Qed.

End Generic.

(** ** With exact arithmetic *)

Section Exact.

Context {F : Type} {N : Number F}.

Hypothesis exact :
  ring_theory num_zero num_one num_add num_mul num_sub num_neg (@eq F).

Add Ring number_ring_more : exact.

Lemma square_of_difference (p q : F) : (p - q) * (p - q) = (q - p) * (q - p).
Proof. ring. Qed.

Lemma unit_step (v f : F) : (v + (num_zero + f) * num_one) * num_one = v + f.
Proof. ring. Qed.

(** When the arithmetic is exact, the distance between two objects is the
    same from either side. *)
Theorem distanceTo_symmetric (a b : Body F) : distanceTo a b = distanceTo b a.
Proof.
  unfold distanceTo. cbv zeta. f_equal.
  rewrite (square_of_difference (fst (getCenter b)) (fst (getCenter a))).
  rewrite (square_of_difference (snd (getCenter b)) (snd (getCenter a))).
  reflexivity.
Qed.

(** When the arithmetic is exact, a force followed by one update with unit
    time step and no friction loss ([friction = 1]) changes the velocity of
    a body at rest in acceleration exactly as the same impulse does at
    once. *)
Theorem force_then_update_is_impulse (b : Body F) (fx fy : F) :
  isStatic b = false ->
  bounds b = None ->
  friction b = num_one ->
  _accelerationX b = num_zero ->
  _accelerationY b = num_zero ->
  let pushed := fst (update num_one (applyForce fx fy b)) in
  velocityX pushed = velocityX (applyImpulse fx fy b)
  /\ velocityY pushed = velocityY (applyImpulse fx fy b)
  /\ velocityX pushed = velocityX b + fx / mass b
  /\ velocityY pushed = velocityY b + fy / mass b.
Proof.
  intros Hs Hb Hf Hax Hay pushed.
  assert (Hs' : isStatic (applyForce fx fy b) = false)
    by (unfold applyForce; rewrite Hs; exact Hs).
  assert (E : pushed = integrate num_one (applyForce fx fy b)).
  { unfold pushed.
    rewrite (@ConvgameObjectFacts.update_unfold F N num_one _ Hs').
    cbn [fst].
    replace (bounds (applyForce fx fy b)) with (@None (Bounds F)); trivial.
    unfold applyForce. rewrite Hs. cbn. now rewrite Hb. }
  rewrite E. unfold integrate, applyForce, applyImpulse. rewrite Hs. cbn.
  rewrite Hf, Hax, Hay, !unit_step. now repeat split.
Qed.

End Exact.

(** ** Staying inside the bounds *)

Section Inside.

Context {F : Type} {N : Number F}.

(** A body is inside its bounds after every update, wherever it was and
    however it moved, as far as the comparisons of the program can tell:
    [x < minX] and [x + width > maxX] are both false afterwards, and so for
    [y].  This needs four comparisons on the bounds and the size alone to
    come out as they do for numbers without rounding: [minX < minX] and
    [maxX - width < minX] are false, and so are [minX + width > maxX] and
    [(maxX - width) + width > maxX], and the same for [y].  The last of them
    can fail on doubles, where the difference is rounded. *)
Theorem update_keeps_inside
  (b : Body F) (dt lowX highX lowY highY : F) :
  isStatic b = false ->
  bounds b = Some (mkBounds (Some lowX) (Some highX) (Some lowY) (Some highY)) ->
  (lowX <? lowX) = false ->
  (highX - width b <? lowX) = false ->
  (lowX + width b >? highX) = false ->
  ((highX - width b) + width b >? highX) = false ->
  (lowY <? lowY) = false ->
  (highY - height b <? lowY) = false ->
  (lowY + height b >? highY) = false ->
  ((highY - height b) + height b >? highY) = false ->
  let b' := fst (update dt b) in
  (x b' <? lowX) = false /\ (x b' + width b' >? highX) = false
  /\ (y b' <? lowY) = false /\ (y b' + height b' >? highY) = false.
Proof.
  intros Hs Hb X1 X2 X3 X4 Y1 Y2 Y3 Y4 b'.
  set (bd := mkBounds (Some lowX) (Some highX) (Some lowY) (Some highY)) in *.
  assert (E : b' = fst (_checkBounds (integrate dt b))).
  { unfold b'. rewrite (@ConvgameObjectFacts.update_unfold F N dt b Hs).
    cbn [fst]. now rewrite Hb. }
  destruct (@ConvgameObjectFacts._checkBounds_fields F N bd
              (integrate dt b) Hb)
    as (Fx & Fy & _ & _ & Fw & Fh & _).
  rewrite <- E in Fx, Fy, Fw, Fh. rewrite Fx, Fy, Fw, Fh.
  unfold clampedX, clampedY, hitsLeft, hitsTop, bd.
  cbn [minX maxX minY maxY lower].
  change (width (integrate dt b)) with (width b).
  change (height (integrate dt b)) with (height b).
  set (px := x (integrate dt b)). set (py := y (integrate dt b)).
  destruct (px <? lowX) eqn:E1;
    [| destruct (px + width b >? highX) eqn:E2];
    (destruct (py <? lowY) eqn:E3;
     [| destruct (py + height b >? highY) eqn:E4]);
    repeat split; assumption.
Qed.

End Inside.

Lemma update_keeps_inside_witness :
  let b := ConvgameObject.Samples.corner_bouncer in
  let b' := fst (update 1%float b) in
  (x b' <? 0%float) = false /\ (x b' + width b' >? 200%float) = false
  /\ (y b' <? 0%float) = false /\ (y b' + height b' >? 200%float) = false.
Proof.
  intros b b'.
  apply (@update_keeps_inside float Number_float b 1%float 0%float 200%float
           0%float 200%float); vm_compute; reflexivity.
Defined.

(** On doubles the fourth comparison is needed: the body [tight_fit] fits
    between its bounds, is stopped at the right one and placed at
    [maxX - width], and [x + width] is then larger than [maxX] by one
    rounding. *)
Example rounding_overshoots_bound :
  let b := ConvgameObject.Samples.tight_fit in
  let b' := fst (update 1%float b) in
  (width b <? 0x1.8fccccccccccdp+7%float - 0%float) = true
  /\ x b' = (0x1.8fccccccccccdp+7%float - width b)
  /\ (x b' + width b' >? 0x1.8fccccccccccdp+7%float) = true.
Proof. cbv zeta. repeat split; vm_compute; reflexivity. Qed.

Lemma distanceTo_symmetric_witness :
  distanceTo ConvgameObject.Samples.real_ball_a ConvgameObject.Samples.real_ball_b
  = distanceTo ConvgameObject.Samples.real_ball_b ConvgameObject.Samples.real_ball_a.
Proof. exact (@distanceTo_symmetric R Number_R RTheory _ _). Defined.

Lemma force_then_update_is_impulse_witness :
  let b := ConvgameObject.Samples.real_ball_a in
  velocityX (fst (update num_one (applyForce 3%R 4%R b)))
  = velocityX (applyImpulse 3%R 4%R b).
Proof.
  intros b.
  exact (proj1 (@force_then_update_is_impulse R Number_R RTheory b 3%R 4%R
                  eq_refl eq_refl eq_refl eq_refl eq_refl)).
Defined.

Lemma static_body_inert_witness :
  let wall := mkBody 0%float 0%float 50%float 50%float 0%float 0%float
                     1%float 1%float 1%float true None 0%float 0%float in
  applyForce 3%float 4%float wall = wall
  /\ update 1%float wall = (wall, [])
  /\ snd (resolveCollision ConvgameObject.Samples.ball_a wall) = wall.
Proof.
  intros wall.
  destruct (@static_body_inert float Number_float wall
              ConvgameObject.Samples.ball_a 3%float 4%float 1%float eq_refl)
    as (H1 & _ & H3 & _ & H5).
  repeat split; assumption.
Defined.

Lemma forces_accumulate_once_witness :
  let b := ConvgameObject.Samples.ball_a in
  let b3 := fst (update 1%float
                   (applyForce 1%float 0%float (applyForce 2%float 0%float b))) in
  velocityX b3 = 2%float
  /\ _accelerationX b3 = 0%float /\ _accelerationY b3 = 0%float.
Proof.
  intros b b3.
  destruct (@forces_accumulate_once float Number_float b 2%float 0%float
              1%float 0%float 1%float eq_refl)
    as (_ & _ & _ & _ & Hv & H1 & H2 & _).
  split; [exact (proj1 (Hv eq_refl)) | split; assumption].
Defined.

Lemma collidesWith_symmetric_witness :
  fst (collidesWith (Some ConvgameObject.Samples.ball_b) ConvgameObject.Samples.ball_a) = true
  /\ snd (collidesWith (Some ConvgameObject.Samples.ball_b) ConvgameObject.Samples.ball_a)
     = [collision (getBoundingBox ConvgameObject.Samples.ball_a)
                  (getBoundingBox ConvgameObject.Samples.ball_b)].
Proof.
  assert (H : fst (collidesWith (Some ConvgameObject.Samples.ball_b)
                                ConvgameObject.Samples.ball_a) = true)
    by (vm_compute; reflexivity).
  split; [exact H|].
  exact (proj1 (proj2 (proj2 (@collidesWith_symmetric float Number_float
                                ConvgameObject.Samples.ball_a
                                ConvgameObject.Samples.ball_b))) H).
Defined.

End ConvgameObjectMore.
(* ===================================================================== *)
(** * Further properties of the Tetris engine *)
(* ===================================================================== *)

Module GameTetrisMore.
Import GameTetris GameTetrisFacts.
Local Open Scope Z_scope.
Local Open Scope tetris_scope.

(** ** What a valid position is *)

Section Validity.

Variable g : Game.
Hypothesis Hlen : List.length (_board g) = Z.to_nat (height g).

Lemma validCols_true (cells : list Z) (x y row col : Z) :
  validCols (width g) (height g) (_board g) cells x y row col = Some true
  <-> (forall j, (j < List.length cells)%nat -> nth j cells 0 <> 0 ->
         freeAt g (x + col + Z.of_nat j) (y + row)).
Proof.
  revert col. induction cells as [|c cells IH]; intros col.
  - cbn. split; [intros _ j Hj; lia | reflexivity].
  - cbn [validCols].
    assert (Hshift : (forall j, (j < List.length cells)%nat ->
                        nth j cells 0 <> 0 ->
                        freeAt g (x + (col + 1) + Z.of_nat j) (y + row))
                     <-> (forall j, (S j < List.length (c :: cells))%nat ->
                            nth (S j) (c :: cells) 0 <> 0 ->
                            freeAt g (x + col + Z.of_nat (S j)) (y + row))).
    { split; intros H j Hj Hn.
      - replace (x + col + Z.of_nat (S j)) with (x + (col + 1) + Z.of_nat j)
          by lia.
        apply H; [cbn in Hj; lia | exact Hn].
      - replace (x + (col + 1) + Z.of_nat j) with (x + col + Z.of_nat (S j))
          by lia.
        apply H; [cbn; lia | exact Hn]. }
    assert (Hcons : forall P : nat -> Prop,
               (forall j, (j < List.length (c :: cells))%nat -> P j)
               <-> (P 0%nat /\ forall j, (S j < List.length (c :: cells))%nat ->
                                  P (S j))).
    { intros P. split.
      - intros H. split; [apply H; cbn; lia | intros j Hj; now apply H].
      - intros [H0 HS] [|j] Hj; [exact H0 | now apply HS]. }
    destruct (Z.eqb_spec c 0) as [Hc|Hc].
    + rewrite IH, Hshift. split.
      * intros H [|j] Hj Hn; [cbn in Hn; congruence | now apply H].
      * intros H j Hj Hn. now apply H.
    + cbv zeta.
      assert (H0 : freeAt g (x + col + Z.of_nat 0) (y + row)
                   <-> ((x + col <? 0) || (x + col >=? width g)
                        || (y + row >=? height g) = false
                        /\ (0 <= y + row ->
                            occupied (cellAt (_board g) (Z.to_nat (y + row))
                                             (Z.to_nat (x + col))) = false))).
      { unfold freeAt. cbn [Z.of_nat]. rewrite Z.add_0_r.
        rewrite !orb_false_iff, Z.ltb_ge, !Z.geb_leb, !Z.leb_gt. tauto. }
      destruct ((x + col <? 0) || (x + col >=? width g)
                || (y + row >=? height g)) eqn:Eb.
      * split; [discriminate|]. intros H.
        assert (Hf : freeAt g (x + col + Z.of_nat 0) (y + row))
          by (apply H; [cbn; lia | exact Hc]).
        apply H0 in Hf. destruct Hf as [Hf _]. discriminate Hf.
      * destruct (y + row >=? 0) eqn:Ey.
        -- destruct (nth_error (_board g) (Z.to_nat (y + row))) as [r|] eqn:Er.
           ++ assert (Hocc : occupied (cellAt (_board g) (Z.to_nat (y + row))
                                              (Z.to_nat (x + col)))
                             = occupied (nth_error r (Z.to_nat (x + col))))
                by (unfold cellAt; now rewrite Er).
              destruct (occupied (nth_error r (Z.to_nat (x + col)))) eqn:Eo.
              ** split; [discriminate|]. intros H.
                 assert (Hf : freeAt g (x + col + Z.of_nat 0) (y + row))
                   by (apply H; [cbn; lia | exact Hc]).
                 apply H0 in Hf. destruct Hf as [_ Hf].
                 rewrite Hocc in Hf.
                 assert (Hy : 0 <= y + row) by (rewrite Z.geb_leb in Ey; lia).
                 specialize (Hf Hy). discriminate Hf.
              ** rewrite IH, Hshift. split.
                 --- intros H [|j] Hj Hn; [|now apply H].
                     apply H0. split; [reflexivity|]. intros _.
                     now rewrite Hocc.
                 --- intros H j Hj Hn. now apply H.
           ++ apply nth_error_None in Er.
              apply orb_false_elim in Eb. destruct Eb as [_ Eb].
              rewrite Z.geb_leb in Ey, Eb. lia.
        -- rewrite IH, Hshift. split.
           ++ intros H [|j] Hj Hn; [|now apply H].
              apply H0. split; [reflexivity|]. intros Hy.
              rewrite Z.geb_leb in Ey. lia.
           ++ intros H j Hj Hn. now apply H.
Qed.

Lemma validRows_true (rows : Shape) (x y row : Z) :
  validRows (width g) (height g) (_board g) rows x y row = Some true
  <-> (forall i j, (i < List.length rows)%nat ->
         (j < List.length (nth i rows []))%nat ->
         nth j (nth i rows []) 0 <> 0 ->
         freeAt g (x + Z.of_nat j) (y + row + Z.of_nat i)).
Proof.
  revert row. induction rows as [|cells rows IH]; intros row.
  - cbn. split; [intros _ i j Hi; lia | reflexivity].
  - cbn [validRows].
    destruct (@validCols_total (width g) (height g) (_board g) cells x y row 0
                Hlen) as [b Eb].
    rewrite Eb. destruct b.
    + pose proof (proj1 (validCols_true cells x y row 0) Eb) as Hcells.
      clear Eb. rename Hcells into Eb. rewrite IH. split.
      * intros H [|i] j Hi Hj Hn.
        -- cbn in Hj, Hn. cbn [Z.of_nat]. rewrite Z.add_0_r.
           replace (x + Z.of_nat j) with (x + 0 + Z.of_nat j) by lia.
           now apply Eb.
        -- replace (y + row + Z.of_nat (S i)) with (y + (row + 1) + Z.of_nat i)
             by lia.
           apply H; [cbn in Hi; lia | exact Hj | exact Hn].
      * intros H i j Hi Hj Hn.
        replace (y + (row + 1) + Z.of_nat i) with (y + row + Z.of_nat (S i))
          by lia.
        apply (H (S i) j); [cbn; lia | exact Hj | exact Hn].
    + split; [discriminate|]. intros H.
      assert (Ht : validCols (width g) (height g) (_board g) cells x y row 0
                   = Some true).
      { apply (proj2 (validCols_true cells x y row 0)). intros j Hj Hn.
        replace (x + 0 + Z.of_nat j) with (x + Z.of_nat j) by lia.
        replace (y + row) with (y + row + Z.of_nat 0) by (cbn; lia).
        apply (H 0%nat j); [cbn; lia | exact Hj | exact Hn]. }
      congruence.
Qed.

End Validity.

Lemma blockAt_true sh i j :
  blockAt sh i j = true <->
  (i < List.length sh)%nat /\ (j < List.length (nth i sh []))%nat
  /\ nth j (nth i sh []) 0 <> 0.
Proof.
  unfold blockAt. rewrite negb_true_iff, Z.eqb_neq. split.
  - intros H.
    destruct (Nat.lt_ge_cases i (List.length sh)) as [Hi|Hi].
    2:{ rewrite (nth_overflow sh [] Hi) in H. now destruct j. }
    destruct (Nat.lt_ge_cases j (List.length (nth i sh []))) as [Hj|Hj].
    2:{ now rewrite (nth_overflow _ 0 Hj) in H. }
    now repeat split.
  - now intros (_ & _ & H).
Qed.

Lemma valid_true_iff (g : Game) (sh : Shape) (x y : Z) :
  List.length (_board g) = Z.to_nat (height g) ->
  isValidPosition g sh x y = Some true
  <-> (forall i j, blockAt sh i j = true ->
         freeAt g (x + Z.of_nat j) (y + Z.of_nat i)).
Proof.
  intros Hl. unfold isValidPosition. rewrite (validRows_true g Hl). split.
  - intros H i j Hb. apply blockAt_true in Hb. destruct Hb as (Hi & Hj & Hn).
    replace (y + Z.of_nat i) with (y + 0 + Z.of_nat i) by lia. now apply H.
  - intros H i j Hi Hj Hn.
    replace (y + 0 + Z.of_nat i) with (y + Z.of_nat i) by lia.
    apply H. apply blockAt_true. now repeat split.
Qed.

(** A position is valid exactly when every occupied cell of the shape lands
    between the side walls, above the floor and, unless it is above the top
    of the board, on a free cell. *)
Theorem isValidPosition_iff (g : Game) (sh : Shape) (x y : Z) :
  board_wf g ->
  (isValidPosition g sh x y = Some true
   <-> (forall i j, blockAt sh i j = true ->
          freeAt g (x + Z.of_nat j) (y + Z.of_nat i)))
  /\ (isValidPosition g sh x y = Some false
      <-> (exists i j, blockAt sh i j = true
                       /\ ~ freeAt g (x + Z.of_nat j) (y + Z.of_nat i))).
Proof.
  intros Hwf. pose proof Hwf as (_ & _ & Hl & _).
  pose proof (@valid_true_iff g sh x y Hl) as Ht.
  split; [exact Ht|].
  destruct (@isValidPosition_total g sh x y Hwf) as [[] E]; rewrite E.
  - split; [discriminate|]. intros (i & j & Hb & Hn).
    exfalso. apply Hn. apply Ht; [exact E | exact Hb].
  - split; [intros _ | reflexivity].
    (* a violating block exists: search the shape *)
    assert (Hdec : forall i j, {freeAt g (x + Z.of_nat j) (y + Z.of_nat i)}
                               + {~ freeAt g (x + Z.of_nat j) (y + Z.of_nat i)}).
    { intros i j. unfold freeAt.
      destruct (Z_le_dec 0 (x + Z.of_nat j)) as [Hx0|Hx0]; [|right; lia].
      destruct (Z_lt_dec (x + Z.of_nat j) (width g)) as [Hxw|Hxw];
        [|right; lia].
      destruct (Z_lt_dec (y + Z.of_nat i) (height g)) as [Hyh|Hyh];
        [|right; lia].
      destruct (Z_le_dec 0 (y + Z.of_nat i)) as [Hy0|Hy0].
      - destruct (occupied (cellAt (_board g) (Z.to_nat (y + Z.of_nat i))
                                   (Z.to_nat (x + Z.of_nat j)))) eqn:Eo.
        + right. intros (_ & _ & H). specialize (H Hy0). congruence.
        + left. repeat split; trivial; lia.
      - left. repeat split; trivial; lia. }
    set (bad := fun i j => blockAt sh i j
                           && (if Hdec i j then false else true)).
    destruct (existsb (fun i => existsb (bad i)
                                  (seq 0 (List.length (nth i sh []))))
                      (seq 0 (List.length sh))) eqn:Ex.
    + apply existsb_exists in Ex. destruct Ex as (i & _ & Ex).
      apply existsb_exists in Ex. destruct Ex as (j & _ & Ex).
      unfold bad in Ex. apply andb_true_iff in Ex. destruct Ex as [Hb Hf].
      exists i, j. split; [exact Hb|]. now destruct (Hdec i j).
    + exfalso. assert (Hall : isValidPosition g sh x y = Some true).
      { apply Ht. intros i j Hb.
        destruct (Hdec i j) as [Hf|Hf]; [exact Hf|]. exfalso.
        pose proof Hb as Hb'. apply blockAt_true in Hb'.
        destruct Hb' as (Hi & Hj & _).
        assert (Hex : existsb (fun i => existsb (bad i)
                                          (seq 0 (List.length (nth i sh []))))
                              (seq 0 (List.length sh)) = true).
        { apply existsb_exists. exists i. split; [apply in_seq; lia|].
          apply existsb_exists. exists j. split; [apply in_seq; lia|].
          unfold bad. rewrite Hb. now destruct (Hdec i j). }
        congruence. }
      congruence.
Qed.

Lemma isValidPosition_iff_witness :
  isValidPosition Samples.playing (shape Samples.pieceT) 3 0 = Some true
  <-> (forall i j, blockAt (shape Samples.pieceT) i j = true ->
         freeAt Samples.playing (3 + Z.of_nat j) (0 + Z.of_nat i)).
Proof.
  assert (Hwf : board_wf Samples.playing).
  { unfold board_wf. cbn. repeat split; try lia. repeat constructor. }
  exact (proj1 (@isValidPosition_iff Samples.playing (shape Samples.pieceT)
                  3 0 Hwf)).
Defined.

(** ** Quarter turns *)

Lemma rect_first sh r c :
  rect sh r c -> (1 <= r)%nat ->
  exists first, nth_error sh 0 = Some first /\ List.length first = c.
Proof.
  intros [Hl Hrows] Hr. destruct sh as [|first rest]; [cbn in Hl; lia|].
  exists first. split; [reflexivity|]. now inversion Hrows.
Qed.

Lemma rotate_rect sh r c :
  rect sh r c -> (1 <= r)%nat ->
  exists sh', _rotateMatrix sh = Some sh' /\ rect sh' c r.
Proof.
  intros [Hl Hrows] Hr. destruct sh as [|first rest]; [cbn in Hl; lia|].
  eexists. split; [reflexivity|]. split.
  - rewrite length_map, length_seq. now inversion Hrows.
  - apply Forall_forall. intros row Hrow. apply in_map_iff in Hrow.
    destruct Hrow as (col & <- & _). now rewrite length_map, length_rev.
Qed.

Lemma rect_entry_eq (a b : Shape) r c :
  rect a r c -> rect b r c ->
  (forall i j, (i < r)%nat -> (j < c)%nat ->
     nth j (nth i a []) 0 = nth j (nth i b []) 0) ->
  a = b.
Proof.
  intros [La Ra] [Lb Rb] H.
  apply (nth_ext a b [] []); [congruence|].
  intros i Hi.
  assert (Hia : List.length (nth i a []) = c).
  { rewrite Forall_forall in Ra. apply Ra, nth_In. exact Hi. }
  assert (Hib : List.length (nth i b []) = c).
  { rewrite Forall_forall in Rb. apply Rb, nth_In. lia. }
  apply (nth_ext _ _ 0 0); [congruence|].
  intros j Hj. apply H; lia.
Qed.

Lemma rotate_entry sh sh' r c a b :
  rect sh r c -> (1 <= r)%nat -> _rotateMatrix sh = Some sh' ->
  (a < c)%nat -> (b < r)%nat ->
  nth b (nth a sh' []) 0 = nth a (nth (r - 1 - b) sh []) 0.
Proof.
  intros Hrect Hr E Ha Hb.
  destruct (rect_first Hrect Hr) as (first & Hf & Hlen).
  destruct Hrect as [Hl _]. rewrite <- Hl.
  apply (@rotateMatrix_entry sh sh' first a b E Hf); lia.
Qed.

(** The quarter turn of an [r] by [c] matrix is a [c] by [r] matrix, and
    four quarter turns give back the matrix. *)
Theorem four_quarter_turns (sh : Shape) (r c : nat) :
  rect sh r c -> (1 <= r)%nat -> (1 <= c)%nat ->
  exists t1 t2 t3,
    _rotateMatrix sh = Some t1 /\ rect t1 c r
    /\ _rotateMatrix t1 = Some t2 /\ rect t2 r c
    /\ _rotateMatrix t2 = Some t3 /\ rect t3 c r
    /\ _rotateMatrix t3 = Some sh.
Proof.
  intros H0 Hr Hc.
  destruct (rotate_rect H0 Hr) as (t1 & E1 & H1).
  destruct (rotate_rect H1 Hc) as (t2 & E2 & H2).
  destruct (rotate_rect H2 Hr) as (t3 & E3 & H3).
  destruct (rotate_rect H3 Hc) as (t4 & E4 & H4).
  exists t1, t2, t3. repeat split; try assumption; try apply H1; try apply H2;
    try apply H3.
  rewrite E4. f_equal. apply (@rect_entry_eq t4 sh r c H4 H0).
  intros i j Hi Hj.
  rewrite (@rotate_entry t3 t4 c r i j H3 Hc E4 Hi Hj).
  rewrite (@rotate_entry t2 t3 r c (c - 1 - j) i H2 Hr E3) by lia.
  rewrite (@rotate_entry t1 t2 c r (r - 1 - i) (c - 1 - j) H1 Hc E2) by lia.
  rewrite (@rotate_entry sh t1 r c (c - 1 - (c - 1 - j)) (r - 1 - i) H0 Hr E1)
    by lia.
  f_equal; [lia|]. f_equal. lia.
Qed.

Lemma four_quarter_turns_witness :
  exists t1 t2 t3,
    _rotateMatrix (shape Samples.pieceT) = Some t1 /\ rect t1 3 3
    /\ _rotateMatrix t1 = Some t2 /\ rect t2 3 3
    /\ _rotateMatrix t2 = Some t3 /\ rect t3 3 3
    /\ _rotateMatrix t3 = Some (shape Samples.pieceT).
Proof.
  apply (@four_quarter_turns (shape Samples.pieceT) 3 3); try lia.
  split; [reflexivity | repeat constructor].
Defined.

(** ** Moves, step by step *)

Lemma moveDown_run g p :
  board_wf g -> _currentPiece g = Some p ->
  _moveDown g
  = if fits (set_currentY (_currentY g + 1) g) (shape p) 0
    then Return true (set_currentY (_currentY g + 1) g)
    else Return false g.
Proof.
  intros Hwf Hp. unfold _moveDown, fits.
  unfold bind at 1. unfold currentPiece at 1. rewrite Hp. cbn [must ret].
  unfold bind at 1. unfold read at 1.
  unfold bind at 1. unfold read at 1.
  unfold bind at 1. unfold _isValidPosition at 1.
  cbn [_currentX _currentY set_currentY]. rewrite Z.add_0_r.
  change (isValidPosition (set_currentY (_currentY g + 1) g))
    with (isValidPosition g).
  destruct (@isValidPosition_total g (shape p) (_currentX g) (_currentY g + 1)
              Hwf) as [[] ->]; reflexivity.
Qed.

Lemma moveLeft_run g p :
  board_wf g -> _currentPiece g = Some p ->
  _moveLeft g
  = if fits g (shape p) (-1)
    then Return tt (set_log (log g ++ [render]) (set_currentX (_currentX g - 1) g))
    else Return tt g.
Proof.
  intros Hwf Hp. unfold _moveLeft, fits.
  unfold bind at 1. unfold currentPiece at 1. rewrite Hp. cbn [must ret].
  unfold bind at 1. unfold read at 1.
  unfold bind at 1. unfold read at 1.
  unfold bind at 1. unfold _isValidPosition at 1.
  change (_currentX g + -1) with (_currentX g - 1).
  destruct (@isValidPosition_total g (shape p) (_currentX g - 1) (_currentY g)
              Hwf) as [[] ->]; reflexivity.
Qed.

Lemma moveRight_run g p :
  board_wf g -> _currentPiece g = Some p ->
  _moveRight g
  = if fits g (shape p) 1
    then Return tt (set_log (log g ++ [render]) (set_currentX (_currentX g + 1) g))
    else Return tt g.
Proof.
  intros Hwf Hp. unfold _moveRight, fits.
  unfold bind at 1. unfold currentPiece at 1. rewrite Hp. cbn [must ret].
  unfold bind at 1. unfold read at 1.
  unfold bind at 1. unfold read at 1.
  unfold bind at 1. unfold _isValidPosition at 1.
  destruct (@isValidPosition_total g (shape p) (_currentX g + 1) (_currentY g)
              Hwf) as [[] ->]; reflexivity.
Qed.

Lemma fits_true g sh dx :
  fits g sh dx = true ->
  isValidPosition g sh (_currentX g + dx) (_currentY g) = Some true.
Proof.
  unfold fits.
  destruct (isValidPosition g sh (_currentX g + dx) (_currentY g)) as [[]|];
    congruence.
Qed.

Lemma rotate_run g p rotated :
  board_wf g -> _currentPiece g = Some p ->
  _rotateMatrix (shape p) = Some rotated ->
  _rotate g
  = Return tt (if fits g rotated 0 then commitRotation rotated None g
               else match find (fits g rotated) [-1; 1; -2; 2] with
                    | Some kick => commitRotation rotated (Some kick) g
                    | None => g
                    end).
Proof.
  intros Hwf Hp Er. unfold _rotate.
  unfold bind at 1. unfold currentPiece at 1. rewrite Hp. cbn [must ret].
  unfold bind at 1. rewrite Er. cbn [must ret].
  unfold bind at 1. unfold read at 1.
  unfold bind at 1. unfold read at 1.
  unfold bind at 1. unfold _isValidPosition at 1. unfold fits at 1.
  rewrite Z.add_0_r.
  destruct (@isValidPosition_total g rotated (_currentX g) (_currentY g) Hwf)
    as [[] ->]; cbn [must ret].
  - unfold bind at 1. rewrite (@assignShape_run rotated g p Hp).
    unfold commitRotation. rewrite Hp. reflexivity.
  - apply (@tryKicks_run rotated _ g p Hwf Hp).
Qed.

Lemma sameGame_refl g : sameGame g g.
Proof. now repeat split. Qed.

(** A step to the left followed by a step to the right brings a validly
    placed piece back: when the step to the left is possible the state ends
    as it was, with two repaints; when it is blocked the step to the left
    does nothing at all. *)
Theorem left_then_right (g : Game) (p : Piece) :
  board_wf g ->
  _currentPiece g = Some p ->
  isValidPosition g (shape p) (_currentX g) (_currentY g) = Some true ->
  (fits g (shape p) (-1) = true ->
   (_moveLeft ;; _moveRight) g
   = Return tt (set_log (log g ++ [render; render]) g))
  /\ (fits g (shape p) (-1) = false -> _moveLeft g = Return tt g).
Proof.
  intros Hwf Hp Hv. split; intros E.
  - unfold bind. rewrite (moveLeft_run Hwf Hp), E.
    set (g1 := set_log _ _).
    assert (Hwf1 : board_wf g1) by exact Hwf.
    assert (Hp1 : _currentPiece g1 = Some p) by exact Hp.
    rewrite (moveRight_run Hwf1 Hp1).
    assert (E1 : fits g1 (shape p) 1 = true).
    { unfold fits, g1. cbn [_currentX _currentY set_log set_currentX].
      change (isValidPosition (set_log (log g ++ [render])
                                 (set_currentX (_currentX g - 1) g)))
        with (isValidPosition g).
      replace (_currentX g - 1 + 1) with (_currentX g) by lia.
      now rewrite Hv. }
    rewrite E1. unfold g1. destruct g. cbn.
    rewrite <- app_assoc. cbn [app].
    replace (_currentX0 - 1 + 1) with _currentX0 by lia. reflexivity.
  - now rewrite (moveLeft_run Hwf Hp), E.
Qed.

Lemma left_then_right_witness :
  (_moveLeft ;; _moveRight) Samples.playing
  = Return tt (set_log [render; render] Samples.playing).
Proof.
  assert (Hwf : board_wf Samples.playing).
  { unfold board_wf. cbn. repeat split; try lia. repeat constructor. }
  apply (proj1 (@left_then_right Samples.playing Samples.pieceT Hwf eq_refl
                  eq_refl)).
  reflexivity.
Defined.

(** ** Where a piece lands *)

Lemma valid_above_floor g sh x y i j :
  List.length (_board g) = Z.to_nat (height g) ->
  blockAt sh i j = true ->
  isValidPosition g sh x y = Some true ->
  y + Z.of_nat i < height g.
Proof.
  intros Hl Hb Hv.
  pose proof (proj1 (@valid_true_iff g sh x y Hl) Hv) as Hfree.
  now destruct (Hfree i j Hb) as (_ & H & _).
Qed.

Lemma landing_exists g sh x i j (m : nat) :
  board_wf g ->
  blockAt sh i j = true ->
  forall y, (Z.to_nat (height g - y) <= m)%nat ->
    exists n : nat,
      (n <= m)%nat
      /\ (forall t, 1 <= t <= Z.of_nat n ->
            isValidPosition g sh x (y + t) = Some true)
      /\ isValidPosition g sh x (y + Z.of_nat n + 1) = Some false.
Proof.
  intros Hwf Hb. pose proof Hwf as (_ & _ & Hl & _).
  induction m as [|m IH]; intros y Hm.
  - exists 0%nat. split; [lia|]. split; [intros t Ht; lia|].
    cbn [Z.of_nat]. rewrite Z.add_0_r.
    destruct (@isValidPosition_total g sh x (y + 1) Hwf) as [[] E];
      [|exact E].
    pose proof (@valid_above_floor g sh x (y + 1) i j Hl Hb E). lia.
  - destruct (@isValidPosition_total g sh x (y + 1) Hwf) as [[] E].
    + pose proof (@valid_above_floor g sh x (y + 1) i j Hl Hb E) as Hfloor.
      destruct (IH (y + 1)) as (n & Hn & Hvalid & Hstop); [lia|].
      exists (S n). split; [lia|]. split.
      * intros t Ht. destruct (Z.eq_dec t 1) as [->|Hne]; [exact E|].
        replace (y + t) with (y + 1 + (t - 1)) by lia. apply Hvalid. lia.
      * replace (y + Z.of_nat (S n) + 1) with (y + 1 + Z.of_nat n + 1) by lia.
        exact Hstop.
    + exists 0%nat. split; [lia|]. split; [intros t Ht; lia|].
      cbn [Z.of_nat]. now rewrite Z.add_0_r.
Qed.

Lemma ghostLoop_run (n : nat) :
  forall (fuel : nat) (gy : Z) (g : Game) (p : Piece),
    _currentPiece g = Some p ->
    (n < fuel)%nat ->
    (forall t, 1 <= t <= Z.of_nat n ->
       isValidPosition g (shape p) (_currentX g) (gy + t) = Some true) ->
    isValidPosition g (shape p) (_currentX g) (gy + Z.of_nat n + 1) = Some false ->
    ghostLoop fuel gy g = Return (gy + Z.of_nat n) g.
Proof.
  induction n as [|n IH]; intros fuel gy g p Hp Hfuel Hvalid Hstop;
    (destruct fuel as [|fuel]; [lia|]); cbn [ghostLoop];
    unfold bind at 1; unfold currentPiece at 1; rewrite Hp; cbn [must ret];
    unfold bind at 1; unfold read at 1;
    unfold bind at 1; unfold _isValidPosition at 1.
  - cbn [Z.of_nat] in Hstop. rewrite Z.add_0_r in Hstop. rewrite Hstop.
    cbn [must ret Z.of_nat]. now rewrite Z.add_0_r.
  - rewrite (Hvalid 1) by lia. cbn [must ret].
    rewrite (IH fuel (gy + 1) g p Hp).
    + f_equal. lia.
    + lia.
    + intros t Ht. replace (gy + 1 + t) with (gy + (t + 1)) by lia.
      apply Hvalid. lia.
    + replace (gy + 1 + Z.of_nat n + 1) with (gy + Z.of_nat (S n) + 1) by lia.
      exact Hstop.
Qed.

(** The loop of the hard drop always ends for a piece that has a block: on
    a well-formed board, given more rounds than there are rows below the
    piece, it returns a distance [n], leaves the piece [n] rows lower and
    nothing else changed, and the piece cannot go one row further.  The
    ghost row is that landing row, and computing it changes nothing. *)
Theorem hard_drop_lands (g : Game) (p : Piece) (i j fuel : nat) (d : Z) :
  board_wf g ->
  _currentPiece g = Some p ->
  blockAt (shape p) i j = true ->
  (Z.to_nat (height g - _currentY g) < fuel)%nat ->
  exists n : nat,
    dropLoop fuel d g
    = Return (d + Z.of_nat n) (set_currentY (_currentY g + Z.of_nat n) g)
    /\ Z.of_nat n <= Z.max 0 (height g - _currentY g)
    /\ isValidPosition g (shape p) (_currentX g) (_currentY g + Z.of_nat n + 1)
       = Some false
    /\ (isValidPosition g (shape p) (_currentX g) (_currentY g) = Some true ->
        isValidPosition g (shape p) (_currentX g) (_currentY g + Z.of_nat n)
        = Some true)
    /\ _getGhostY fuel g = Return (_currentY g + Z.of_nat n) g.
Proof.
  intros Hwf Hp Hb Hfuel.
  destruct (@landing_exists g (shape p) (_currentX g) i j
              (Z.to_nat (height g - _currentY g)) Hwf Hb (_currentY g)
              (Nat.le_refl _))
    as (n & Hn & Hvalid & Hstop).
  exists n. split; [|split; [|split; [|split]]].
  - apply (@dropLoop_run n fuel d g p Hp); [lia | exact Hvalid | exact Hstop].
  - lia.
  - exact Hstop.
  - intros H0. destruct n as [|n].
    + cbn [Z.of_nat]. now rewrite Z.add_0_r.
    + apply Hvalid. lia.
  - unfold _getGhostY, bind, read.
    apply (@ghostLoop_run n fuel (_currentY g) g p Hp);
      [lia | exact Hvalid | exact Hstop].
Qed.

Lemma hard_drop_lands_witness :
  exists n : nat,
    dropLoop 30 0 Samples.playing
    = Return (0 + Z.of_nat n) (set_currentY (0 + Z.of_nat n) Samples.playing)
    /\ _getGhostY 30 Samples.playing = Return (0 + Z.of_nat n) Samples.playing.
Proof.
  assert (Hwf : board_wf Samples.playing).
  { unfold board_wf. cbn. repeat split; try lia. repeat constructor. }
  destruct (@hard_drop_lands Samples.playing Samples.pieceT 0%nat 1%nat 30%nat
              0 Hwf eq_refl eq_refl ltac:(cbn; lia))
    as (n & Hd & _ & _ & _ & Hg).
  exists n. split; assumption.
Defined.

(** ** Painting *)

Lemma paintRows_run (ys : list nat) (g : Game) :
  (forall y, In y ys -> (y < List.length (_board g))%nat) ->
  paintRows ys g = Return tt g.
Proof.
  induction ys as [|y ys IH]; intros Hin; [reflexivity|].
  cbn [paintRows]. unfold bind at 1. unfold read at 1.
  assert (Hy : (y < List.length (_board g))%nat) by (apply Hin; now left).
  destruct (nth_error (_board g) y) as [r|] eqn:E.
  2:{ apply nth_error_None in E. lia. }
  assert (Hrow : (if 0 <? width g
                  then b <- read _board ;; _ <- must (nth_error b y) ;; ret tt
                  else ret tt) g = Return tt g).
  { destruct (0 <? width g); [|reflexivity].
    unfold bind at 1. unfold read at 1. unfold bind at 1. now rewrite E. }
  unfold bind at 1. rewrite Hrow. apply IH.
  intros y' Hy'. apply Hin. now right.
Qed.

Lemma render_body_run (g : Game) (p : Piece) (fuel : nat) :
  board_wf g ->
  _currentPiece g = Some p ->
  hasBlock (shape p) ->
  (Z.to_nat (height g - _currentY g) < fuel)%nat ->
  paints fuel g.
Proof.
  intros Hwf Hp (i & j & Hb) Hfuel showGhost.
  pose proof Hwf as (_ & _ & Hl & _).
  unfold _render_body. unfold bind at 1. unfold read at 1.
  unfold bind at 1. rewrite paintRows_run.
  2:{ intros y Hy. apply in_seq in Hy. lia. }
  unfold bind at 1. unfold read at 1. rewrite Hp.
  destruct showGhost; [|reflexivity].
  destruct (@landing_exists g (shape p) (_currentX g) i j
              (Z.to_nat (height g - _currentY g)) Hwf Hb (_currentY g)
              (Nat.le_refl _))
    as (n & Hn & Hvalid & Hstop).
  unfold bind at 1. unfold _getGhostY, bind at 1. unfold read at 1.
  rewrite (@ghostLoop_run n fuel (_currentY g) g p Hp ltac:(lia) Hvalid Hstop).
  reflexivity.
Qed.

Lemma rotate_hasBlock (sh sh' : Shape) (r c : nat) :
  rect sh r c -> (1 <= r)%nat -> _rotateMatrix sh = Some sh' ->
  hasBlock sh -> hasBlock sh'.
Proof.
  intros Hrect Hr E (i & j & Hb).
  pose proof Hb as Hb'. apply blockAt_true in Hb'.
  destruct Hb' as (Hi & Hj & _).
  assert (Hic : List.length (nth i sh []) = c).
  { destruct Hrect as [_ Hrows]. rewrite Forall_forall in Hrows.
    apply Hrows, nth_In. exact Hi. }
  assert (Hir : (i < r)%nat) by (destruct Hrect as [Hl _]; lia).
  exists j, (r - 1 - i)%nat. unfold blockAt in *.
  rewrite (@rotate_entry sh sh' r c j (r - 1 - i) Hrect Hr E) by lia.
  replace (r - 1 - (r - 1 - i))%nat with i by lia. exact Hb.
Qed.

(** ** Moves and what they leave *)

(** What a move to the side, a move down or a rotation leaves, for a
    current piece with an occupied cell on a well-formed board: the board,
    the score and the timer are untouched, and the state is either exactly as
    before or one with the current piece at a valid position.  The painting
    that follows a move returns on that state, given more rounds for the
    ghost loop than there are rows below the piece. *)
Theorem moves_end_valid (g : Game) (p : Piece) (fuel : nat) :
  board_wf g ->
  _currentPiece g = Some p ->
  goodShape (shape p) ->
  hasBlock (shape p) ->
  (Z.to_nat (height g - _currentY g) < fuel)%nat ->
  (exists g', _moveLeft g = Return tt g'
              /\ sameGame g g' /\ (g' = g \/ positionValid g')
              /\ paints fuel g')
  /\ (exists g', _moveRight g = Return tt g'
                 /\ sameGame g g' /\ (g' = g \/ positionValid g')
                 /\ paints fuel g')
  /\ (exists g' moved, _moveDown g = Return moved g'
                       /\ sameGame g g'
                       /\ (if moved then positionValid g' else g' = g)
                       /\ paints fuel g')
  /\ (exists g', _rotate g = Return tt g'
                 /\ sameGame g g' /\ (g' = g \/ positionValid g')
                 /\ paints fuel g').
Proof.
  intros Hwf Hp (r & c & Hr & Hc & Hrect) Hblock Hfuel.
  assert (Hpaint : paints fuel g)
    by (apply (@render_body_run g p fuel); assumption).
  split; [|split; [|split]].
  - rewrite (moveLeft_run Hwf Hp). destruct (fits g (shape p) (-1)) eqn:E.
    + eexists. split; [reflexivity|]. split; [now repeat split|]. split.
      * right. exists p. split; [exact Hp|]. now apply fits_true in E.
      * apply (@render_body_run _ p fuel); assumption.
    + exists g. split; [reflexivity|]. split; [apply sameGame_refl|].
      split; [now left | exact Hpaint].
  - rewrite (moveRight_run Hwf Hp). destruct (fits g (shape p) 1) eqn:E.
    + eexists. split; [reflexivity|]. split; [now repeat split|]. split.
      * right. exists p. split; [exact Hp|]. now apply fits_true in E.
      * apply (@render_body_run _ p fuel); assumption.
    + exists g. split; [reflexivity|]. split; [apply sameGame_refl|].
      split; [now left | exact Hpaint].
  - rewrite (moveDown_run Hwf Hp).
    destruct (fits (set_currentY (_currentY g + 1) g) (shape p) 0) eqn:E.
    + eexists. exists true. split; [reflexivity|]. split; [now repeat split|].
      split.
      * exists p. split; [exact Hp|]. apply fits_true in E.
        cbn [_currentX _currentY set_currentY] in *.
        now rewrite Z.add_0_r in E.
      * apply (@render_body_run _ p fuel); try assumption.
        cbn [height _currentY set_currentY]. lia.
    + exists g, false. split; [reflexivity|].
      split; [apply sameGame_refl|]. split; [reflexivity | exact Hpaint].
  - destruct (rotate_rect Hrect Hr) as (rotated & Er & Hrect').
    pose proof (@rotate_hasBlock (shape p) rotated r c Hrect Hr Er Hblock)
      as Hblock'.
    rewrite (rotate_run Hwf Hp Er).
    assert (Hcommit : forall kick, paints fuel (commitRotation rotated kick g)).
    { intros kick.
      apply (@render_body_run _ (withShape rotated p) fuel);
        [exact Hwf | cbn; now rewrite Hp | exact Hblock' | exact Hfuel]. }
    destruct (fits g rotated 0) eqn:E0.
    + eexists. split; [reflexivity|]. split; [now repeat split|]. split.
      * right. exists (withShape rotated p). split; [cbn; now rewrite Hp|].
        apply fits_true in E0. rewrite Z.add_0_r in E0. exact E0.
      * apply Hcommit.
    + destruct (find (fits g rotated) [-1; 1; -2; 2]) as [kick|] eqn:Ek.
      * eexists. split; [reflexivity|]. split; [now repeat split|]. split.
        -- right. exists (withShape rotated p). split; [cbn; now rewrite Hp|].
           apply find_some in Ek. destruct Ek as [_ Ek].
           now apply fits_true in Ek.
        -- apply Hcommit.
      * exists g. split; [reflexivity|].
        split; [apply sameGame_refl|]. split; [now left | exact Hpaint].
Qed.

Lemma moves_end_valid_witness :
  exists g', _moveLeft Samples.playing = Return tt g'
             /\ sameGame Samples.playing g'
             /\ (g' = Samples.playing \/ positionValid g')
             /\ paints 30 g'.
Proof.
  assert (Hwf : board_wf Samples.playing).
  { unfold board_wf. cbn. repeat split; try lia. repeat constructor. }
  assert (Hg : goodShape (shape Samples.pieceT)).
  { exists 3%nat, 3%nat. repeat split; try lia. repeat constructor. }
  assert (Hb : hasBlock (shape Samples.pieceT)).
  { exists 0%nat, 1%nat. reflexivity. }
  exact (proj1 (@moves_end_valid Samples.playing Samples.pieceT 30%nat Hwf
                  eq_refl Hg Hb ltac:(cbn; lia))).
Defined.

(** ** Locking a piece *)

Lemma replace_nth {A : Type} (l : list A) (n : nat) (a : A) :
  (n < List.length l)%nat ->
  List.length (firstn n l ++ a :: skipn (S n) l) = List.length l
  /\ forall k, nth_error (firstn n l ++ a :: skipn (S n) l) k
               = if (k =? n)%nat then Some a else nth_error l k.
Proof.
  intros Hn. split.
  - rewrite length_app, length_firstn. cbn [List.length].
    rewrite length_skipn. lia.
  - intros k. destruct (Nat.eqb_spec k n) as [->|Hne].
    + rewrite nth_error_app2 by (rewrite length_firstn; lia).
      rewrite length_firstn, Nat.min_l, Nat.sub_diag by lia. reflexivity.
    + destruct (Nat.lt_ge_cases k n) as [Hk|Hk].
      * rewrite nth_error_app1 by (rewrite length_firstn; lia).
        rewrite nth_error_firstn.
        destruct (Nat.ltb_spec k n); [reflexivity | lia].
      * rewrite nth_error_app2 by (rewrite length_firstn; lia).
        rewrite length_firstn, Nat.min_l by lia.
        destruct (k - n)%nat as [|m] eqn:Em; [lia|]. cbn [nth_error].
        rewrite nth_error_skipn. f_equal. lia.
Qed.

Lemma writeBoard_run (g : Game) (Y X H W : nat) (v : Cell) :
  dims (_board g) H W -> (Y < H)%nat -> (X < W)%nat ->
  exists b',
    writeBoard Y X v g = Return tt (set_board b' g)
    /\ dims b' H W
    /\ forall Y' X', cellAt b' Y' X'
                     = if ((Y' =? Y) && (X' =? X))%nat then Some v
                       else cellAt (_board g) Y' X'.
Proof.
  intros [Hl Hrows] HY HX. unfold writeBoard.
  destruct (nth_error (_board g) Y) as [r|] eqn:Er.
  2:{ apply nth_error_None in Er. lia. }
  assert (Hr : List.length r = W).
  { rewrite Forall_forall in Hrows. apply Hrows. eapply nth_error_In, Er. }
  assert (Hw : writeAt X v r = firstn X r ++ v :: skipn (S X) r).
  { unfold writeAt. destruct (Nat.ltb_spec X (List.length r)); [reflexivity|lia]. }
  destruct (@replace_nth _ r X v ltac:(lia)) as [Hrl Hrn].
  destruct (@replace_nth _ (_board g) Y (writeAt X v r) ltac:(lia)) as [Hbl Hbn].
  eexists. split.
  { unfold bind, read, must, ret, assign. rewrite Er. reflexivity. }
  split.
  - split; [lia|]. apply Forall_app. split.
    + now apply Forall_firstn_skipn.
    + constructor; [rewrite Hw; lia | now apply Forall_firstn_skipn].
  - intros Y' X'. unfold cellAt. rewrite Hbn.
    destruct (Nat.eqb_spec Y' Y) as [->|HneY]; cbn [andb].
    + rewrite Er, Hw, Hrn. reflexivity.
    + reflexivity.
Qed.

Section Lock.

Variable p : Piece.

Lemma lockCols_run (cells : list Z) (row : Z) :
  forall (col : Z) (g : Game),
    0 <= width g -> 0 <= height g ->
    dims (_board g) (Z.to_nat (height g)) (Z.to_nat (width g)) ->
    exists b',
      lockCols p cells row col g = Return tt (set_board b' g)
      /\ dims b' (Z.to_nat (height g)) (Z.to_nat (width g))
      /\ forall Y X, (Y < Z.to_nat (height g))%nat ->
                     (X < Z.to_nat (width g))%nat ->
           cellAt b' Y X
           = if (Z.of_nat Y =? _currentY g + row)
                && inCols cells (_currentX g + col) (Z.of_nat X)
             then Some (Some (color p))
             else cellAt (_board g) Y X.
Proof.
  induction cells as [|c cells IH]; intros col g Hw Hh Hd.
  - exists (_board g). split; [cbn; now rewrite set_board_same|].
    split; [exact Hd|]. intros Y X _ _. cbn. now rewrite andb_false_r.
  - cbn [lockCols inCols].
    assert (Hstep : exists b1,
               (if c =? 0 then ret tt
                else
                  g0 <- read (fun g0 => g0) ;;
                  (if (_currentY g0 + row >=? 0)
                      && (_currentY g0 + row <? height g0)
                      && (_currentX g0 + col >=? 0)
                      && (_currentX g0 + col <? width g0)
                   then writeBoard (Z.to_nat (_currentY g0 + row))
                                   (Z.to_nat (_currentX g0 + col))
                                   (Some (color p))
                   else ret tt)) g = Return tt (set_board b1 g)
               /\ dims b1 (Z.to_nat (height g)) (Z.to_nat (width g))
               /\ forall Y X, (Y < Z.to_nat (height g))%nat ->
                              (X < Z.to_nat (width g))%nat ->
                    cellAt b1 Y X
                    = if (Z.of_nat Y =? _currentY g + row)
                         && (negb (c =? 0)
                             && (Z.of_nat X =? _currentX g + col))
                      then Some (Some (color p))
                      else cellAt (_board g) Y X).
    { destruct (c =? 0).
      - exists (_board g). split; [cbn; now rewrite set_board_same|].
        split; [exact Hd|]. intros Y X _ _. cbn. now rewrite andb_false_r.
      - unfold bind at 1. unfold read at 1.
        destruct ((_currentY g + row >=? 0) && (_currentY g + row <? height g)
                  && (_currentX g + col >=? 0)
                  && (_currentX g + col <? width g)) eqn:Er.
        + rewrite !andb_true_iff, !Z.geb_leb, !Z.leb_le, !Z.ltb_lt in Er.
          destruct (@writeBoard_run g (Z.to_nat (_currentY g + row))
                      (Z.to_nat (_currentX g + col)) (Z.to_nat (height g))
                      (Z.to_nat (width g)) (Some (color p)) Hd
                      ltac:(lia) ltac:(lia)) as (b1 & E1 & D1 & C1).
          exists b1. split; [exact E1|]. split; [exact D1|].
          intros Y X HY HX. rewrite C1. cbn [negb andb].
          destruct (Nat.eqb_spec Y (Z.to_nat (_currentY g + row))) as [->|HneY].
          * rewrite Z2Nat.id by lia. rewrite Z.eqb_refl. cbn [andb].
            destruct (Nat.eqb_spec X (Z.to_nat (_currentX g + col)))
              as [->|HneX].
            -- rewrite Z2Nat.id by lia. now rewrite Z.eqb_refl.
            -- destruct (Z.eqb_spec (Z.of_nat X) (_currentX g + col));
                 [lia | reflexivity].
          * cbn [andb].
            destruct (Z.eqb_spec (Z.of_nat Y) (_currentY g + row));
              [lia | reflexivity].
        + exists (_board g). split; [cbn; now rewrite set_board_same|].
          split; [exact Hd|]. intros Y X HY HX. cbn [negb andb].
          destruct (Z.eqb_spec (Z.of_nat Y) (_currentY g + row)) as [EY|];
            [|reflexivity].
          destruct (Z.eqb_spec (Z.of_nat X) (_currentX g + col)) as [EX|];
            [|reflexivity].
          exfalso. rewrite !andb_false_iff, !Z.geb_leb, !Z.leb_gt, !Z.ltb_ge
            in Er. lia. }
    destruct Hstep as (b1 & E1 & D1 & C1).
    unfold bind at 1. rewrite E1.
    destruct (IH (col + 1) (set_board b1 g) Hw Hh D1) as (b2 & E2 & D2 & C2).
    exists b2. split; [exact E2|]. split; [exact D2|].
    intros Y X HY HX. rewrite (C2 Y X HY HX).
    cbn [_currentX _currentY _board set_board].
    rewrite (C1 Y X HY HX).
    replace (_currentX g + (col + 1)) with (_currentX g + col + 1) by lia.
    destruct (Z.of_nat Y =? _currentY g + row); cbn [andb]; [|reflexivity].
    destruct (inCols cells (_currentX g + col + 1) (Z.of_nat X));
      [now rewrite orb_true_r|].
    now rewrite orb_false_r.
Qed.

Lemma lockRows_run (rows : Shape) :
  forall (row : Z) (g : Game),
    0 <= width g -> 0 <= height g ->
    dims (_board g) (Z.to_nat (height g)) (Z.to_nat (width g)) ->
    exists b',
      lockRows p rows row g = Return tt (set_board b' g)
      /\ dims b' (Z.to_nat (height g)) (Z.to_nat (width g))
      /\ forall Y X, (Y < Z.to_nat (height g))%nat ->
                     (X < Z.to_nat (width g))%nat ->
           cellAt b' Y X
           = if inRows rows (_currentY g + row) (_currentX g)
                       (Z.of_nat Y) (Z.of_nat X)
             then Some (Some (color p))
             else cellAt (_board g) Y X.
Proof.
  induction rows as [|cells rows IH]; intros row g Hw Hh Hd.
  - exists (_board g). split; [cbn; now rewrite set_board_same|].
    split; [exact Hd|]. reflexivity.
  - cbn [lockRows inRows].
    destruct (@lockCols_run cells row 0 g Hw Hh Hd) as (b1 & E1 & D1 & C1).
    unfold bind at 1. rewrite E1.
    destruct (IH (row + 1) (set_board b1 g) Hw Hh D1) as (b2 & E2 & D2 & C2).
    exists b2. split; [exact E2|]. split; [exact D2|].
    intros Y X HY HX. rewrite (C2 Y X HY HX).
    cbn [_currentX _currentY _board set_board].
    rewrite (C1 Y X HY HX). rewrite Z.add_0_r.
    replace (_currentY g + (row + 1)) with (_currentY g + row + 1) by lia.
    destruct ((Z.of_nat Y =? _currentY g + row)
              && inCols cells (_currentX g) (Z.of_nat X)); cbn [orb];
      [|reflexivity].
    now destruct (inRows rows (_currentY g + row + 1) (_currentX g)
                         (Z.of_nat Y) (Z.of_nat X)).
Qed.

End Lock.

Lemma lockPiece_run (g : Game) (p : Piece) :
  board_wf g ->
  _currentPiece g = Some p ->
  exists b',
    _lockPiece g
    = Return tt (set_log (log g ++ [dispatch (piece_lock (type p) (_currentX g)
                                                         (_currentY g))])
                   (set_board b' g))
    /\ dims b' (Z.to_nat (height g)) (Z.to_nat (width g))
    /\ forall Y X, (Y < Z.to_nat (height g))%nat ->
                   (X < Z.to_nat (width g))%nat ->
         cellAt b' Y X = if covered g p Y X then Some (Some (color p))
                         else cellAt (_board g) Y X.
Proof.
  intros (Hw & Hh & Hl & Hrows) Hp.
  destruct (@lockRows_run p (shape p) 0 g Hw Hh (conj Hl Hrows))
    as (b' & E & D & C).
  exists b'. split; [|split; [exact D|]].
  - unfold _lockPiece. unfold bind at 1. unfold currentPiece at 1.
    rewrite Hp. cbn [must ret]. unfold bind at 1. rewrite E. reflexivity.
  - intros Y X HY HX. rewrite (C Y X HY HX). unfold covered.
    now rewrite Z.add_0_r.
Qed.

Lemma inCols_iff cells c0 X :
  inCols cells c0 X = true
  <-> exists j, (j < List.length cells)%nat /\ nth j cells 0 <> 0
                /\ X = c0 + Z.of_nat j.
Proof.
  revert c0. induction cells as [|c cells IH]; intros c0; cbn [inCols].
  - split; [discriminate | intros (j & Hj & _); cbn in Hj; lia].
  - rewrite orb_true_iff, andb_true_iff, negb_true_iff, Z.eqb_neq, Z.eqb_eq, IH.
    split.
    + intros [[Hc ->] | (j & Hj & Hn & ->)].
      * exists 0%nat. cbn. repeat split; [lia | exact Hc | lia].
      * exists (S j). cbn. repeat split; [lia | exact Hn | lia].
    + intros ([|j] & Hj & Hn & ->).
      * left. cbn in Hn. split; [exact Hn | lia].
      * right. exists j. cbn in Hj, Hn. repeat split; [lia | exact Hn | lia].
Qed.

Lemma inRows_iff rows r0 cx Y X :
  inRows rows r0 cx Y X = true
  <-> exists i j, blockAt rows i j = true
                  /\ Y = r0 + Z.of_nat i /\ X = cx + Z.of_nat j.
Proof.
  revert r0. induction rows as [|cells rows IH]; intros r0; cbn [inRows].
  - split; [discriminate|]. intros (i & j & Hb & _).
    apply blockAt_true in Hb. cbn in Hb. lia.
  - rewrite orb_true_iff, andb_true_iff, Z.eqb_eq, inCols_iff, IH. split.
    + intros [[-> (j & Hj & Hn & ->)] | (i & j & Hb & -> & ->)].
      * exists 0%nat, j. split; [|split; lia].
        apply blockAt_true. cbn. repeat split; [lia | exact Hj | exact Hn].
      * exists (S i), j. split; [|split; lia].
        apply blockAt_true. apply blockAt_true in Hb. cbn.
        destruct Hb as (Hi & Hj & Hn). repeat split; [lia | exact Hj | exact Hn].
    + intros ([|i] & j & Hb & -> & ->); apply blockAt_true in Hb; cbn in Hb;
        destruct Hb as (Hi & Hj & Hn).
      * left. split; [lia|]. exists j. repeat split; [exact Hj | exact Hn].
      * right. exists i, j. split; [|split; lia].
        apply blockAt_true. repeat split; [lia | exact Hj | exact Hn].
Qed.

(** [_lockPiece] never throws on a well-formed board.  It writes the colour
    of the piece into every board cell under one of its occupied cells,
    leaves every other cell, the size of the board and all other fields as
    they were, and dispatches one piece-lock event with the kind and the
    position of the piece. *)
Theorem lockPiece_paints (g : Game) (p : Piece) :
  board_wf g ->
  _currentPiece g = Some p ->
  exists g' : Game,
    _lockPiece g = Return tt g'
    /\ board_wf g'
    /\ g' = set_log (log g ++ [dispatch (piece_lock (type p) (_currentX g)
                                                    (_currentY g))])
              (set_board (_board g') g)
    /\ (forall i j, blockAt (shape p) i j = true ->
          0 <= _currentY g + Z.of_nat i < height g ->
          0 <= _currentX g + Z.of_nat j < width g ->
          cellAt (_board g') (Z.to_nat (_currentY g + Z.of_nat i))
                 (Z.to_nat (_currentX g + Z.of_nat j))
          = Some (Some (color p)))
    /\ (forall Y X, (Y < Z.to_nat (height g))%nat ->
                    (X < Z.to_nat (width g))%nat ->
          (forall i j, blockAt (shape p) i j = true ->
             Z.of_nat Y <> _currentY g + Z.of_nat i
             \/ Z.of_nat X <> _currentX g + Z.of_nat j) ->
          cellAt (_board g') Y X = cellAt (_board g) Y X).
Proof.
  intros Hwf Hp. pose proof Hwf as (Hw & Hh & Hl & Hrows).
  destruct (lockPiece_run Hwf Hp) as (b' & E & [Dl Dr] & C).
  eexists. split; [exact E|]. split; [|split; [reflexivity|split]].
  - unfold board_wf. cbn. now repeat split.
  - intros i j Hb Hy Hx. cbn [_board set_log set_board].
    rewrite C by lia.
    assert (Hc : covered g p (Z.to_nat (_currentY g + Z.of_nat i))
                         (Z.to_nat (_currentX g + Z.of_nat j)) = true).
    { unfold covered. apply inRows_iff. exists i, j.
      split; [exact Hb|]. rewrite !Z2Nat.id by lia. split; reflexivity. }
    now rewrite Hc.
  - intros Y X HY HX Hnot. cbn [_board set_log set_board].
    rewrite C by assumption.
    destruct (covered g p Y X) eqn:Hc; [|reflexivity].
    unfold covered in Hc. apply inRows_iff in Hc.
    destruct Hc as (i & j & Hb & EY & EX).
    destruct (Hnot i j Hb); congruence.
Qed.

Lemma lockPiece_paints_witness :
  exists g' : Game,
    _lockPiece Samples.falling = Return tt g'
    /\ board_wf g'
    /\ cellAt (_board g') 16 4 = Some (Some "#a000f0"%string).
Proof.
  assert (Hwf : board_wf Samples.falling).
  { unfold board_wf. cbn. repeat split; try lia. repeat constructor. }
  destruct (@lockPiece_paints Samples.falling Samples.pieceT Hwf eq_refl)
    as (g' & Hrun & Hwf' & _ & Hpaint & _).
  exists g'. split; [exact Hrun|]. split; [exact Hwf'|].
  apply (Hpaint 0%nat 1%nat); cbn; try reflexivity; lia.
Defined.

(** ** The seven pieces *)

Lemma goodShape_first sh :
  goodShape sh -> exists first, nth_error sh 0 = Some first.
Proof.
  intros (r & c & Hr & _ & Hrect).
  destruct (rect_first Hrect Hr) as (first & Hf & _). now exists first.
Qed.

Lemma getRandomPiece_cases rnd :
  (rnd < 7)%nat ->
  exists fresh n,
    (forall g, _getRandomPiece rnd g = Return fresh g)
    /\ nth_error TETROMINOES rnd = Some (type fresh, (shape fresh, color fresh))
    /\ rect (shape fresh) n n
    /\ blockCount (shape fresh) = 4%nat
    /\ (2 <= n <= 4)%nat
    /\ (forall i j, blockAt (shape fresh) i j = true -> (i < 2)%nat /\ (j < n)%nat)
    /\ hasBlock (shape fresh).
Proof.
  intros H.
  do 7 (destruct rnd as [|rnd];
        [eexists; eexists; split; [intros g; cbv; reflexivity|];
         split; [reflexivity|];
         split; [split; [reflexivity | cbn; repeat constructor]|];
         split; [reflexivity|];
         split; [cbn; lia|];
         split;
         [ intros i j Hb; unfold blockAt in Hb;
           destruct i as [|[|[|[|[|i]]]]], j as [|[|[|[|[|j]]]]];
           cbn in Hb; try discriminate Hb; cbn; lia
         | first [ exists 0%nat, 0%nat; reflexivity
                 | exists 0%nat, 1%nat; reflexivity
                 | exists 1%nat, 0%nat; reflexivity ] ] |]).
  lia.
Qed.

Lemma getRandomPiece_good rnd :
  (rnd < 7)%nat ->
  exists fresh,
    (forall g, _getRandomPiece rnd g = Return fresh g)
    /\ goodShape (shape fresh) /\ hasBlock (shape fresh).
Proof.
  intros H.
  destruct (getRandomPiece_cases H)
    as (fresh & n & E & _ & Hr & _ & Hn & _ & Hb).
  exists fresh. split; [exact E|]. split; [|exact Hb]. exists n, n.
  split; [lia|]. split; [lia | exact Hr].
Qed.

(** [_getRandomPiece] with a draw in 0..6 returns the piece of that entry
    of [TETROMINOES], with its kind and its colour: a square matrix of side
    2, 3 or 4 with exactly four occupied cells, all of them in its first two
    rows.  The state is left untouched. *)
Theorem getRandomPiece_spec (rnd : nat) (g : Game) :
  (rnd < 7)%nat ->
  exists fresh n,
    _getRandomPiece rnd g = Return fresh g
    /\ nth_error TETROMINOES rnd = Some (type fresh, (shape fresh, color fresh))
    /\ rect (shape fresh) n n /\ (2 <= n <= 4)%nat
    /\ blockCount (shape fresh) = 4%nat
    /\ (forall i j, blockAt (shape fresh) i j = true -> (i < 2)%nat).
Proof.
  intros H.
  destruct (getRandomPiece_cases H)
    as (fresh & n & E & Hin & Hr & Hc & Hn & Hb & _).
  exists fresh, n. split; [apply E|]. split; [exact Hin|].
  split; [exact Hr|]. split; [exact Hn|]. split; [exact Hc|].
  intros i j Hij. exact (proj1 (Hb i j Hij)).
Qed.

Lemma getRandomPiece_spec_witness :
  exists fresh n,
    _getRandomPiece 2 Samples.playing = Return fresh Samples.playing
    /\ nth_error TETROMINOES 2 = Some (type fresh, (shape fresh, color fresh))
    /\ rect (shape fresh) n n /\ (2 <= n <= 4)%nat
    /\ blockCount (shape fresh) = 4%nat
    /\ (forall i j, blockAt (shape fresh) i j = true -> (i < 2)%nat).
Proof. apply (@getRandomPiece_spec 2 Samples.playing). lia. Defined.

(** ** A game in play stays in play *)

Lemma paints_in_play (g : Game) (fuel : nat) :
  inPlay g ->
  (Z.to_nat (height g - _currentY g) < fuel)%nat ->
  paints fuel g.
Proof.
  intros (Hwf & (p & Hp & _ & Hb) & _) Hfuel.
  now apply (@render_body_run g p fuel).
Qed.

Lemma clearLines_fields (g : Game) :
  board_wf g ->
  exists g', _clearLines g = Return tt g'
             /\ board_wf g'
             /\ _currentPiece g' = _currentPiece g
             /\ _nextPiece g' = _nextPiece g
             /\ gameOver g' = gameOver g
             /\ paused g' = paused g
             /\ gameStarted g' = gameStarted g
             /\ height g' = height g.
Proof.
  intros (Hw & Hh & Hl & Hrows).
  destruct (fullRows (_board g)) as [|y ls] eqn:E.
  - exists g. split; [now apply clearLines_none|]. now repeat split.
  - assert (Hlt : Forall (fun i => (i < List.length (_board g))%nat) (y :: ls)).
    { apply Forall_forall. intros i Hi. apply (fullRows_In (_board g) i).
      now rewrite E. }
    rewrite clearLines_some by (rewrite ?E; congruence || assumption).
    rewrite E. cbv zeta.
    destruct (lines _ >=? _linesForNextLevel _);
      eexists; (split; [reflexivity|]); unfold board_wf;
      cbn [width height _board afterLevelUp afterClear _currentPiece
           _nextPiece gameOver paused gameStarted];
      repeat split; trivial;
      try (rewrite fold_removeLine_length by exact Hlt; exact Hl);
      now apply fold_removeLine_width.
Qed.

Lemma spawn_in_play (g : Game) (rnd : nat) :
  inPlay g -> (rnd < 7)%nat ->
  exists g', _spawnPiece rnd g = Return tt g'
             /\ inPlay g'
             /\ paused g' = paused g
             /\ gameStarted g' = gameStarted g
             /\ height g' = height g /\ _currentY g' = 0
             /\ (gameOver g' = true \/ (gameOver g' = gameOver g
                                         /\ positionValid g')).
Proof.
  intros (Hwf & _ & (q & Hq & Hgq & Hbq)) Hrnd.
  destruct (getRandomPiece_good Hrnd) as (fresh & Hfresh & Hgf & Hbf).
  destruct (goodShape_first Hgq) as (first & Hf).
  rewrite (@spawnPiece_run rnd g q fresh first Hwf Hq Hfresh Hf). cbv zeta.
  set (x := (width g - Z.of_nat (List.length first)) / 2).
  destruct (@isValidPosition_total g (shape q) x 0 Hwf) as [[] E]; rewrite E.
  - eexists. split; [reflexivity|].
    split; [|split; [reflexivity|split; [reflexivity|split;
                                         [reflexivity|split; [reflexivity|]]]]].
    + split; [exact Hwf|]. split; [now exists q | now exists fresh].
    + right. split; [reflexivity|]. exists q. split; [reflexivity|]. exact E.
  - unfold bind. rewrite endGame_run. eexists. split; [reflexivity|].
    split; [|split; [reflexivity | split; [reflexivity | split;
                                           [reflexivity | split;
                                            [reflexivity | now left]]]]].
    split; [exact Hwf|]. split; [now exists q | now exists fresh].
Qed.

Lemma settle_in_play (g : Game) (rnd : nat) :
  inPlay g -> (rnd < 7)%nat ->
  exists g', (_lockPiece ;; _clearLines ;; _spawnPiece rnd) g = Return tt g'
             /\ inPlay g'
             /\ paused g' = paused g
             /\ gameStarted g' = gameStarted g
             /\ height g' = height g /\ _currentY g' = 0
             /\ (gameOver g' = true \/ (gameOver g' = gameOver g
                                         /\ positionValid g')).
Proof.
  intros (Hwf & (p & Hp & Hgp & Hbp) & (q & Hq & Hgq & Hbq)) Hrnd.
  destruct (lockPiece_run Hwf Hp) as (b' & E1 & [Dl Dr] & _).
  set (g1 := set_log _ (set_board b' g)) in E1.
  assert (Hwf1 : board_wf g1).
  { destruct Hwf as (Hw & Hh & _). unfold board_wf. cbn. now repeat split. }
  destruct (clearLines_fields Hwf1)
    as (g2 & E2 & Hwf2 & Hc2 & Hn2 & Ho2 & Hp2 & Hs2 & Hh2).
  assert (Hin2 : inPlay g2).
  { split; [exact Hwf2|]. split.
    - exists p. rewrite Hc2. now split.
    - exists q. rewrite Hn2. now split. }
  destruct (spawn_in_play Hin2 Hrnd)
    as (g3 & E3 & Hin3 & Hp3 & Hs3 & Hh3 & Hy3 & Hv3).
  exists g3. split.
  { unfold bind. rewrite E1, E2. exact E3. }
  split; [exact Hin3|]. split; [now rewrite Hp3, Hp2|].
  split; [now rewrite Hs3, Hs2|].
  split; [now rewrite Hh3, Hh2|]. split; [exact Hy3|].
  destruct Hv3 as [Hv3 | [Hv3 Hpos]]; [now left|].
  right. split; [now rewrite Hv3, Ho2 | exact Hpos].
Qed.

(** A tick of the timer on a game in play never throws: it returns a game
    in play, and unless it was skipped (paused or over) the game is
    afterwards over or has its current piece at a valid position.  The
    painting that ends the tick returns on that game, given more rounds for
    the ghost loop than the board has rows and than there are rows below the
    piece. *)
Theorem tick_keeps_in_play (g : Game) (rnd fuel : nat) :
  inPlay g -> (rnd < 7)%nat ->
  (Z.to_nat (height g) < fuel)%nat ->
  (Z.to_nat (height g - _currentY g) < fuel)%nat ->
  exists g' : Game,
    _tick rnd g = Return tt g'
    /\ inPlay g'
    /\ paused g' = paused g
    /\ (paused g = false -> gameOver g = false ->
        gameOver g' = true \/ positionValid g')
    /\ paints fuel g'.
Proof.
  intros Hin Hrnd Hfuel0 Hfuel.
  pose proof Hin as (Hwf & (p & Hp & Hgp & Hbp) & Hnext).
  unfold _tick. unfold bind at 1. unfold read at 1.
  destruct (paused g || gameOver g) eqn:Eskip.
  - exists g. split; [reflexivity|]. split; [exact Hin|].
    split; [reflexivity|]. split.
    + intros H1 H2. rewrite H1, H2 in Eskip. discriminate.
    + now apply paints_in_play.
  - unfold bind at 1. rewrite (moveDown_run Hwf Hp).
    destruct (fits (set_currentY (_currentY g + 1) g) (shape p) 0) eqn:E.
    + cbn [negb].
      assert (Hin' : inPlay (set_currentY (_currentY g + 1) g)).
      { split; [exact Hwf|]. split; [now exists p | exact Hnext]. }
      eexists. split; [reflexivity|].
      split; [exact Hin'|]. split; [reflexivity|]. split.
      * intros _ _. right. exists p. split; [exact Hp|].
        apply fits_true in E. cbn [_currentX _currentY set_currentY] in E.
        rewrite Z.add_0_r in E. exact E.
      * apply (@render_body_run _ p fuel); try assumption.
        cbn [height _currentY set_currentY set_log]. lia.
    + cbn [negb].
      destruct (settle_in_play Hin Hrnd)
        as (g3 & E3 & Hin3 & Hp3 & _ & Hh3 & Hy3 & Hv3).
      unfold bind at 1. rewrite E3.
      pose proof Hin3 as (Hwf3 & (p3 & Hp3' & _ & Hb3) & _).
      eexists. split; [reflexivity|]. split; [exact Hin3|].
      split; [exact Hp3|]. split.
      * intros _ _.
        destruct Hv3 as [Hv3 | [_ Hpos]]; [now left | now right].
      * apply (@render_body_run _ p3 fuel); try assumption.
        cbn [height _currentY set_log]. rewrite Hh3, Hy3.
        now rewrite Z.sub_0_r.
Qed.

Lemma playing_in_play : inPlay Samples.playing.
Proof.
  split; [|split].
  - unfold board_wf. cbn. repeat split; try lia. repeat constructor.
  - exists Samples.pieceT. split; [reflexivity|]. split.
    + exists 3%nat, 3%nat. repeat split; try lia. repeat constructor.
    + exists 0%nat, 1%nat. reflexivity.
  - exists Samples.pieceO. split; [reflexivity|]. split.
    + exists 2%nat, 2%nat. repeat split; try lia. repeat constructor.
    + exists 0%nat, 0%nat. reflexivity.
Defined.

Lemma tick_keeps_in_play_witness :
  exists g' : Game,
    _tick 4 Samples.playing = Return tt g' /\ inPlay g' /\ paints 30 g'.
Proof.
  destruct (@tick_keeps_in_play Samples.playing 4%nat 30%nat playing_in_play
              ltac:(lia) ltac:(cbn; lia) ltac:(cbn; lia))
    as (g' & Hrun & Hin' & _ & _ & Hpaint).
  exists g'. split; [exact Hrun|]. split; [exact Hin' | exact Hpaint].
Defined.

Lemma hardDrop_settles (g : Game) (fuel rnd : nat) :
  inPlay g ->
  (Z.to_nat (height g) < fuel)%nat ->
  (Z.to_nat (height g - _currentY g) < fuel)%nat ->
  (rnd < 7)%nat ->
  exists g' : Game,
    _hardDrop fuel rnd g = Return tt g'
    /\ inPlay g'
    /\ paused g' = paused g
    /\ gameStarted g' = gameStarted g
    /\ (gameOver g' = true \/ positionValid g')
    /\ paints fuel g'.
Proof.
  intros Hin Hfuel0 Hfuel Hrnd.
  pose proof Hin as (Hwf & (p & Hp & _ & (i & j & Hb)) & Hnext).
  destruct (@landing_exists g (shape p) (_currentX g) i j
              (Z.to_nat (height g - _currentY g)) Hwf Hb (_currentY g)
              (Nat.le_refl _))
    as (n & Hn & Hvalid & Hstop).
  unfold _hardDrop. unfold bind at 1.
  rewrite (@dropLoop_run n fuel 0 g p Hp ltac:(lia) Hvalid Hstop).
  unfold bind at 1. rewrite addScore_run.
  set (g1 := afterAddScore _ _).
  assert (Hin1 : inPlay g1) by exact Hin.
  destruct (settle_in_play Hin1 Hrnd)
    as (g3 & E3 & Hin3 & Hp3 & Hs3 & Hh3 & Hy3 & Hv3).
  unfold bind in E3 |- *.
  destruct (_lockPiece g1) as [u1 g2| |]; try discriminate.
  destruct (_clearLines g2) as [u2 g2'| |]; try discriminate.
  rewrite E3.
  pose proof Hin3 as (Hwf3 & (p3 & Hp3' & _ & Hb3) & _).
  eexists. split; [reflexivity|]. split; [exact Hin3|].
  split; [exact Hp3|]. split; [exact Hs3|]. split.
  - destruct Hv3 as [Hv3 | [_ Hpos]]; [now left | now right].
  - apply (@render_body_run _ p3 fuel); try assumption.
    cbn [height _currentY set_log]. rewrite Hh3, Hy3.
    change (height g1) with (height g). now rewrite Z.sub_0_r.
Qed.

(** A hard drop on a game in play, with more rounds for its loops than the
    board has rows and than there are rows below the piece, never throws and
    never runs out of rounds: it returns a game in play that is over or has
    its new current piece at a valid position, and the painting that ends the
    drop returns on that game. *)
Theorem hardDrop_keeps_in_play (g : Game) (fuel rnd : nat) :
  inPlay g ->
  (Z.to_nat (height g) < fuel)%nat ->
  (Z.to_nat (height g - _currentY g) < fuel)%nat ->
  (rnd < 7)%nat ->
  exists g' : Game,
    _hardDrop fuel rnd g = Return tt g'
    /\ inPlay g'
    /\ (gameOver g' = true \/ positionValid g')
    /\ paints fuel g'.
Proof.
  intros Hin Hfuel0 Hfuel Hrnd.
  destruct (@hardDrop_settles g fuel rnd Hin Hfuel0 Hfuel Hrnd)
    as (g' & Hrun & Hin' & _ & _ & Hv & Hpaint).
  now exists g'.
Qed.

Lemma hardDrop_keeps_in_play_witness :
  exists g' : Game,
    _hardDrop 30 4 Samples.playing = Return tt g' /\ inPlay g' /\ paints 30 g'.
Proof.
  destruct (@hardDrop_keeps_in_play Samples.playing 30%nat 4%nat
              playing_in_play ltac:(cbn; lia) ltac:(cbn; lia) ltac:(lia))
    as (g' & Hrun & Hin' & _ & Hpaint).
  exists g'. split; [exact Hrun|]. split; [exact Hin' | exact Hpaint].
Defined.

(** ** Levels *)

Lemma level_of_lines (a l : Z) :
  10 * (l - 1) <= a < 10 * l -> l = a / 10 + 1.
Proof.
  intros H. pose proof (Z.div_mod a 10 ltac:(lia)).
  pose proof (Z.mod_pos_bound a 10 ltac:(lia)). lia.
Qed.

(** While at most ten rows are full at once, [_clearLines] keeps the level
    in step with the line count: the level is one more than the tens of the
    lines cleared, and the next threshold is ten times the level.  When
    the level goes up, the timer is restarted at the new level's speed. *)
Theorem clearLines_keeps_level (g : Game) :
  board_wf g ->
  levelMatchesLines g ->
  (List.length (fullRows (_board g)) <= 10)%nat ->
  exists g' : Game,
    _clearLines g = Return tt g'
    /\ levelMatchesLines g'
    /\ lines g' = lines g + Z.of_nat (List.length (fullRows (_board g)))
    /\ level g' = lines g' / 10 + 1
    /\ (level g' = level g
        \/ (level g' = level g + 1
            /\ _gameLoop g' = Some (_getCurrentSpeed g'))).
Proof.
  intros (Hw & Hh & Hl & Hrows) [Hnext Hrange] Hk.
  destruct (fullRows (_board g)) as [|y ls] eqn:E.
  - exists g. split; [now apply clearLines_none|].
    split; [now split|]. cbn [List.length Z.of_nat].
    split; [lia|]. split; [|now left].
    now apply level_of_lines.
  - rewrite clearLines_some by (rewrite ?E; congruence || assumption).
    rewrite E. cbv zeta.
    cbn [lines _linesForNextLevel afterClear].
    destruct (Z.geb_spec (lines g + Z.of_nat (List.length (y :: ls)))
                (_linesForNextLevel g)) as [Hge|Hlt].
    + eexists. split; [reflexivity|].
      unfold levelMatchesLines, _getCurrentSpeed.
      cbn [lines level _linesForNextLevel afterLevelUp afterClear _gameLoop speed].
      split; [lia|]. split; [reflexivity|]. split; [|right; split; reflexivity].
      apply level_of_lines. lia.
    + eexists. split; [reflexivity|].
      unfold levelMatchesLines.
      cbn [lines level _linesForNextLevel afterClear].
      split; [lia|]. split; [reflexivity|]. split; [|now left].
      apply level_of_lines. lia.
Qed.

Lemma clearLines_keeps_level_witness :
  exists g' : Game,
    _clearLines Samples.two_full = Return tt g'
    /\ levelMatchesLines g'
    /\ lines g' = 2.
Proof.
  assert (Hwf : board_wf Samples.two_full).
  { unfold board_wf. cbn. repeat split; try lia. repeat constructor. }
  assert (Hlvl : levelMatchesLines Samples.two_full).
  { unfold levelMatchesLines. cbn. lia. }
  destruct (@clearLines_keeps_level Samples.two_full Hwf Hlvl
              ltac:(vm_compute; lia))
    as (g' & Hrun & Hlvl' & Hlines & _).
  exists g'. split; [exact Hrun|]. split; [exact Hlvl'|]. exact Hlines.
Defined.

(** ** Pausing *)

Lemma startGameLoop_run g :
  _startGameLoop g = Return tt (set_gameLoop (Some (_getCurrentSpeed g)) g).
Proof.
  unfold _startGameLoop, _stopGameLoop. run.
  now destruct (_gameLoop g).
Qed.

Lemma stopGameLoop_run g : _stopGameLoop g = Return tt (set_gameLoop None g).
Proof.
  unfold _stopGameLoop. run. destruct (_gameLoop g) eqn:E; [reflexivity|].
  destruct g. cbn in *. now subst.
Qed.

Lemma togglePause_run g :
  gameStarted g = true -> gameOver g = false ->
  togglePause g
  = Return tt (set_gameLoop (if paused g then Some (_getCurrentSpeed g) else None)
                 (set_paused (negb (paused g)) g)).
Proof.
  intros Hs Ho. unfold togglePause.
  unfold bind at 1. unfold read at 1. rewrite Hs, Ho. cbn [negb orb].
  unfold bind at 1. unfold assign at 1.
  unfold bind at 1. unfold read at 1. cbn [paused set_paused].
  destruct (paused g); cbn [negb].
  - now rewrite startGameLoop_run.
  - now rewrite stopGameLoop_run.
Qed.

(** [togglePause] does nothing before the game has started or after it is
    over.  During a game it flips [paused] and touches nothing but the
    timer: pausing clears it, resuming starts one at the current level's
    speed, and no event is dispatched.  Toggling twice gives the game back
    with the timer in the state that its [paused] flag asks for. *)
Theorem togglePause_spec (g : Game) :
  (gameStarted g = false \/ gameOver g = true -> togglePause g = Return tt g)
  /\ (gameStarted g = true -> gameOver g = false ->
      togglePause g
      = Return tt (set_gameLoop
                     (if paused g then Some (_getCurrentSpeed g) else None)
                     (set_paused (negb (paused g)) g))
      /\ (togglePause ;; togglePause) g
         = Return tt (set_gameLoop
                        (if paused g then None else Some (_getCurrentSpeed g))
                        g)).
Proof.
  split.
  - intros H. unfold togglePause. unfold bind at 1. unfold read at 1.
    destruct H as [-> | ->]; [reflexivity|].
    now rewrite orb_true_r.
  - intros Hs Ho. split; [now apply togglePause_run|].
    unfold bind. rewrite (togglePause_run g Hs Ho).
    rewrite togglePause_run by assumption.
    destruct g. cbn in *. now destruct paused0.
Qed.

Lemma togglePause_spec_witness :
  togglePause Samples.playing
  = Return tt (set_gameLoop None (set_paused true Samples.playing))
  /\ (togglePause ;; togglePause) Samples.playing
     = Return tt (set_gameLoop (Some 1000) Samples.playing).
Proof.
  exact (proj2 (togglePause_spec Samples.playing) eq_refl eq_refl).
Defined.

(** ** Starting a game *)

Lemma empty_board_free (W H a b : nat) :
  occupied (cellAt (repeat (repeat (@None string) W) H) a b) = false.
Proof.
  unfold cellAt.
  destruct (nth_error _ a) as [r|] eqn:Er; [|reflexivity].
  apply nth_error_In, repeat_spec in Er. subst r.
  destruct (nth_error _ b) as [c|] eqn:Ec; [|reflexivity].
  apply nth_error_In, repeat_spec in Ec. now subst c.
Qed.

(** [startGame] computed: the state it leaves is determined by the size of
    the board, the configured speed, the two draws and the log so far. *)
Lemma startGame_run (g : Game) (rnd1 rnd2 : nat) (cur nxt : Piece)
      (first : list Z) :
  0 <= width g -> 0 <= height g ->
  (forall g0, _getRandomPiece rnd1 g0 = Return cur g0) ->
  (forall g0, _getRandomPiece rnd2 g0 = Return nxt g0) ->
  nth_error (shape cur) 0 = Some first ->
  let empty := repeat (repeat (@None string) (Z.to_nat (width g)))
                      (Z.to_nat (height g)) in
  let x := (width g - Z.of_nat (List.length first)) / 2 in
  let ms := Z.max 100 (speed g - (1 - 1) * 80) in
  exists over : bool,
    validRows (width g) (height g) empty (shape cur) x 0 0 = Some (negb over)
    /\ startGame rnd1 rnd2 g
       = Return tt
           (mkGame (width g) (height g) (speed g) (num 0) 1 0 false over true
                   empty (Some cur) x 0 (Some nxt) (Some ms) 10
                   (if over
                    then ((log g ++ [dispatch (game_over (num 0) 1 0)])
                          ++ [renderPreview])
                         ++ [dispatch (game_start 1 ms)]
                    else (log g ++ [renderPreview])
                         ++ [dispatch (game_start 1 ms)])).
Proof.
  intros Hw Hh Ecur Enxt Hf.
  destruct g as [w h sp sc lv ln pa go gs bd cp cx cy np gl lf lg].
  cbn [width height speed log] in *. cbv zeta.
  set (empty := repeat (repeat (@None string) (Z.to_nat w)) (Z.to_nat h)).
  set (x := (w - Z.of_nat (List.length first)) / 2).
  set (ms := Z.max 100 (sp - (1 - 1) * 80)).
  set (g0 := mkGame w h sp (num 0) 1 0 false false true empty cp cx cy
                    (Some cur) gl 10 lg).
  assert (Hwf0 : board_wf g0).
  { unfold board_wf. cbn [width height _board g0].
    split; [exact Hw|]. split; [exact Hh|]. split; [apply repeat_length|].
    apply Forall_forall. intros r Hr. apply repeat_spec in Hr. subst r.
    apply repeat_length. }
  assert (Hrun : startGame rnd1 rnd2
                   (mkGame w h sp sc lv ln pa go gs bd cp cx cy np gl lf lg)
                 = (_spawnPiece rnd2 ;; _startGameLoop ;;
                    g1 <- read (fun g1 => g1) ;;
                    _dispatchEvent (game_start (level g1) (_getCurrentSpeed g1)))
                     g0).
  { unfold startGame, _initBoard.
    do 8 (unfold bind at 1; unfold assign at 1).
    unfold bind at 1. rewrite Ecur.
    unfold bind at 1. unfold assign at 1.
    match goal with
    | |- _ ?a = _ => replace a with g0 by (vm_compute; reflexivity)
    end.
    reflexivity. }
  rewrite Hrun. unfold bind at 1.
  rewrite (@spawnPiece_run rnd2 g0 cur nxt first Hwf0 eq_refl Enxt Hf).
  cbv zeta.
  change ((width g0 - Z.of_nat (List.length first)) / 2) with x.
  destruct (@isValidPosition_total g0 (shape cur) x 0 Hwf0) as [[] E];
    rewrite E.
  - exists false. split; [exact E|].
    unfold _renderPreview at 1. unfold assign at 1.
    unfold bind at 1. rewrite startGameLoop_run.
    unfold bind at 1. unfold read at 1. unfold _dispatchEvent, assign.
    vm_compute. reflexivity.
  - exists true. split; [exact E|].
    unfold bind at 1. rewrite endGame_run.
    unfold _renderPreview at 1. unfold assign at 1.
    unfold bind at 1. rewrite startGameLoop_run.
    unfold bind at 1. unfold read at 1. unfold _dispatchEvent, assign.
    vm_compute. reflexivity.
Qed.

(** [startGame] on a board of any size, whatever the state before: it never
    throws, and it leaves a started, unpaused game in play with an empty
    board, score 0, level 1, no lines, the first draw as the current piece
    and the second as the next one, and a timer at the first level's speed,
    also when the game is over at once.  The game is then over or its piece
    is validly placed; on a board at least four cells wide and two rows high
    it is never over. *)
Theorem startGame_spec (g : Game) (rnd1 rnd2 : nat) :
  0 <= width g -> 0 <= height g -> (rnd1 < 7)%nat -> (rnd2 < 7)%nat ->
  exists (g' : Game) (cur nxt : Piece),
    startGame rnd1 rnd2 g = Return tt g'
    /\ inPlay g'
    /\ _getRandomPiece rnd1 g = Return cur g /\ _currentPiece g' = Some cur
    /\ _getRandomPiece rnd2 g = Return nxt g /\ _nextPiece g' = Some nxt
    /\ _board g'
       = repeat (repeat (@None string) (Z.to_nat (width g)))
                (Z.to_nat (height g))
    /\ score g' = num 0 /\ level g' = 1 /\ lines g' = 0
    /\ levelMatchesLines g'
    /\ gameStarted g' = true /\ paused g' = false
    /\ width g' = width g /\ height g' = height g /\ speed g' = speed g
    /\ _gameLoop g' = Some (Z.max 100 (speed g))
    /\ log g'
       = log g
         ++ (if gameOver g' then [dispatch (game_over (num 0) 1 0)] else [])
         ++ [renderPreview;
             dispatch (game_start 1 (Z.max 100 (speed g)))]
    /\ (gameOver g' = true \/ (gameOver g' = false /\ positionValid g'))
    /\ (4 <= width g -> 2 <= height g ->
        gameOver g' = false /\ positionValid g').
Proof.
  intros Hw Hh H1 H2.
  destruct (getRandomPiece_cases H1)
    as (cur & n & Ecur & _ & Hrect & _ & Hn & Hblocks & Hbc).
  destruct (getRandomPiece_cases H2)
    as (nxt & m & Enxt & _ & Hrectm & _ & Hm & _ & Hbn).
  destruct (@rect_first (shape cur) n n Hrect ltac:(lia)) as (first & Hf & Hlen).
  assert (Hgc : goodShape (shape cur)).
  { exists n, n. split; [lia|]. split; [lia | exact Hrect]. }
  assert (Hgn : goodShape (shape nxt)).
  { exists m, m. split; [lia|]. split; [lia | exact Hrectm]. }
  destruct (@startGame_run g rnd1 rnd2 cur nxt first Hw Hh Ecur Enxt Hf)
    as (over & Hv & Hrun).
  set (empty := repeat (repeat (@None string) (Z.to_nat (width g)))
                       (Z.to_nat (height g))) in *.
  set (x := (width g - Z.of_nat (List.length first)) / 2) in *.
  assert (Hms : Z.max 100 (speed g - (1 - 1) * 80) = Z.max 100 (speed g))
    by (f_equal; lia).
  rewrite Hms in Hrun.
  set (ms := Z.max 100 (speed g)) in *.
  match type of Hrun with _ = Return tt ?s => set (g' := s) in * end.
  assert (Hwf' : board_wf g').
  { unfold board_wf. cbn [width height _board g'].
    split; [exact Hw|]. split; [exact Hh|]. split; [apply repeat_length|].
    apply Forall_forall. intros r Hr. apply repeat_spec in Hr. subst r.
    apply repeat_length. }
  assert (Hpos : over = false -> positionValid g').
  { intros ->. exists cur. split; [reflexivity | exact Hv]. }
  assert (Hroom : 4 <= width g -> 2 <= height g -> over = false).
  { intros Hw4 Hh2.
    assert (Hok : isValidPosition g' (shape cur) x 0 = Some true).
    { apply valid_true_iff; [apply Hwf'|].
      intros i j Hb. destruct (Hblocks i j Hb) as [Hi Hj].
      assert (Hx : 0 <= x /\ x + Z.of_nat n <= width g).
      { unfold x. rewrite Hlen.
        pose proof (Z.div_mod (width g - Z.of_nat n) 2 ltac:(lia)).
        pose proof (Z.mod_pos_bound (width g - Z.of_nat n) 2 ltac:(lia)).
        lia. }
      unfold freeAt. cbn [width height _board g'].
      split; [lia|]. split; [lia|]. intros _. apply empty_board_free. }
    unfold isValidPosition in Hok. cbn [width height _board g'] in Hok.
    rewrite Hv in Hok. now destruct over. }
  exists g', cur, nxt.
  split; [exact Hrun|].
  split.
  { split; [exact Hwf'|].
    split; [exists cur | exists nxt];
      (split; [reflexivity | split; assumption]). }
  split; [apply Ecur|]. split; [reflexivity|].
  split; [apply Enxt|]. split; [reflexivity|].
  split; [reflexivity|].
  split; [reflexivity|]. split; [reflexivity|]. split; [reflexivity|].
  split; [unfold levelMatchesLines; cbn [_linesForNextLevel level lines g'];
          lia|].
  split; [reflexivity|]. split; [reflexivity|].
  split; [reflexivity|]. split; [reflexivity|]. split; [reflexivity|].
  split; [reflexivity|].
  split.
  { cbn [log gameOver g']. destruct over; now rewrite <- !app_assoc. }
  split.
  { destruct over; [now left|]. right. split; [reflexivity | now apply Hpos]. }
  intros Hw4 Hh2. pose proof (Hroom Hw4 Hh2) as Ho.
  split; [exact Ho | now apply Hpos].
Qed.

Lemma startGame_spec_witness :
  exists g' : Game,
    startGame 2 5 new = Return tt g'
    /\ inPlay g' /\ gameOver g' = false /\ positionValid g'.
Proof.
  destruct (@startGame_spec new 2%nat 5%nat ltac:(cbn; lia) ltac:(cbn; lia)
              ltac:(lia) ltac:(lia))
    as (g' & cur & nxt & Hrun & Hin & _ & _ & _ & _ & _ & _ & _ & _ & _ & _ & _
        & _ & _ & _ & _ & _ & _ & Hroom).
  exists g'. split; [exact Hrun|]. split; [exact Hin|].
  apply Hroom; cbn; lia.
Defined.

Lemma reset_run (g : Game) :
  reset g
  = Return tt
      (mkGame (width g) (height g) (speed g) (num 0) 1 0 false false false
              (repeat (repeat (@None string) (Z.to_nat (width g)))
                      (Z.to_nat (height g)))
              None (_currentX g) (_currentY g) None None
              (_linesForNextLevel g)
              ((log g ++ [render]) ++ [renderPreview])).
Proof.
  unfold reset. unfold bind at 1. rewrite stopGameLoop_run.
  destruct g as [w h sp sc lv ln pa go gs bd cp cx cy np gl lf lg].
  vm_compute. reflexivity.
Qed.

(** A new game carries nothing over from the one before.  What [startGame]
    leaves depends only on the size of the board, the configured speed and
    the two draws (and the log it appends to), so starting after [reset] ends
    in the same game as starting at once, with the two repaints of [reset]
    in between.  [reset] itself never throws: it stops the timer, empties the
    board, drops both pieces and clears the flags and the counters. *)
Theorem reset_then_start (g : Game) (rnd1 rnd2 : nat) :
  0 <= width g -> 0 <= height g -> (rnd1 < 7)%nat -> (rnd2 < 7)%nat ->
  (forall g2 : Game,
      width g2 = width g -> height g2 = height g -> speed g2 = speed g ->
      log g2 = log g ->
      startGame rnd1 rnd2 g2 = startGame rnd1 rnd2 g)
  /\ (exists gr : Game,
         reset g = Return tt gr
         /\ _board gr = repeat (repeat (@None string) (Z.to_nat (width g)))
                               (Z.to_nat (height g))
         /\ _currentPiece gr = None /\ _nextPiece gr = None
         /\ _gameLoop gr = None
         /\ gameStarted gr = false /\ paused gr = false /\ gameOver gr = false
         /\ score gr = num 0 /\ level gr = 1 /\ lines gr = 0
         /\ log gr = log g ++ [render; renderPreview])
  /\ (reset ;; startGame rnd1 rnd2) g
     = startGame rnd1 rnd2 (set_log (log g ++ [render; renderPreview]) g).
Proof.
  intros Hw Hh H1 H2.
  destruct (getRandomPiece_cases H1)
    as (cur & n & Ecur & _ & Hrect & _ & Hn & _).
  destruct (getRandomPiece_cases H2) as (nxt & m & Enxt & _).
  destruct (@rect_first (shape cur) n n Hrect ltac:(lia)) as (first & Hf & _).
  assert (Hsame : forall ga gb : Game,
             0 <= width ga -> 0 <= height ga ->
             width gb = width ga -> height gb = height ga ->
             speed gb = speed ga -> log gb = log ga ->
             startGame rnd1 rnd2 gb = startGame rnd1 rnd2 ga).
  { intros ga gb Hwa Hha Ew Eh Es El.
    destruct (@startGame_run ga rnd1 rnd2 cur nxt first Hwa Hha Ecur Enxt Hf)
      as (oa & Hva & Hra).
    destruct (@startGame_run gb rnd1 rnd2 cur nxt first
                ltac:(now rewrite Ew) ltac:(now rewrite Eh) Ecur Enxt Hf)
      as (ob & Hvb & Hrb).
    rewrite Hra, Hrb. rewrite Ew, Eh in Hvb. rewrite Hva in Hvb.
    assert (oa = ob) by (destruct oa, ob; cbn in Hvb; congruence).
    subst ob. now rewrite Ew, Eh, Es, El. }
  split; [|split].
  - intros g2 Ew Eh Es El. now apply Hsame.
  - eexists. split; [apply reset_run|].
    cbn [_board _currentPiece _nextPiece _gameLoop gameStarted paused gameOver
         score level lines log].
    repeat (split; [reflexivity|]). now rewrite <- app_assoc.
  - unfold bind. rewrite reset_run. apply Hsame.
    + exact Hw.
    + exact Hh.
    + reflexivity.
    + reflexivity.
    + reflexivity.
    + cbn [log set_log]. now rewrite <- app_assoc.
Qed.

Lemma reset_then_start_witness :
  (reset ;; startGame 2 5) Samples.playing
  = startGame 2 5 (set_log [render; renderPreview] Samples.playing).
Proof.
  exact (proj2 (proj2 (@reset_then_start Samples.playing 2%nat 5%nat
                         ltac:(cbn; lia) ltac:(cbn; lia) ltac:(lia)
                         ltac:(lia)))).
Defined.

(** ** The keyboard *)

Lemma moves_in_play (g : Game) :
  inPlay g ->
  let kept (g' : Game) :=
    inPlay g' /\ sameGame g g' /\ _currentY g <= _currentY g' in
  (exists g', _moveLeft g = Return tt g' /\ kept g')
  /\ (exists g', _moveRight g = Return tt g' /\ kept g')
  /\ (exists g' moved, _moveDown g = Return moved g' /\ kept g')
  /\ (exists g', _rotate g = Return tt g' /\ kept g').
Proof.
  intros Hin kept. pose proof Hin as (Hwf & (p & Hp & Hgp & Hbp) & Hnext).
  assert (Hself : kept g).
  { split; [exact Hin|]. split; [apply sameGame_refl | lia]. }
  assert (Hmoved : forall g', board_wf g' -> _currentPiece g' = Some p ->
                     _nextPiece g' = _nextPiece g -> inPlay g').
  { intros g' Hwf' Hp' Hn'. split; [exact Hwf'|]. split; [now exists p|].
    now rewrite Hn'. }
  split; [|split; [|split]].
  - rewrite (moveLeft_run Hwf Hp). destruct (fits g (shape p) (-1)).
    + eexists. split; [reflexivity|]. split; [now apply Hmoved|].
      split; [now repeat split | cbn; lia].
    + now exists g.
  - rewrite (moveRight_run Hwf Hp). destruct (fits g (shape p) 1).
    + eexists. split; [reflexivity|]. split; [now apply Hmoved|].
      split; [now repeat split | cbn; lia].
    + now exists g.
  - rewrite (moveDown_run Hwf Hp).
    destruct (fits (set_currentY (_currentY g + 1) g) (shape p) 0).
    + eexists. exists true. split; [reflexivity|].
      split; [now apply Hmoved|]. split; [now repeat split | cbn; lia].
    + now exists g, false.
  - destruct Hgp as (r & c & Hr & Hc & Hrect).
    destruct (rotate_rect Hrect Hr) as (rotated & Er & Hrect').
    pose proof (@rotate_hasBlock (shape p) rotated r c Hrect Hr Er Hbp)
      as Hbr.
    rewrite (rotate_run Hwf Hp Er).
    assert (Hcommit : forall kick, kept (commitRotation rotated kick g)).
    { intros kick. split; [|split; [now repeat split | cbn; lia]].
      split; [exact Hwf|]. split; [|exact Hnext].
      exists (withShape rotated p). split; [cbn; now rewrite Hp|].
      split; [|exact Hbr].
      exists c, r. split; [exact Hc|]. split; [exact Hr | exact Hrect']. }
    destruct (fits g rotated 0).
    + eexists. split; [reflexivity | apply Hcommit].
    + destruct (find (fits g rotated) [-1; 1; -2; 2]) as [kick|].
      * eexists. split; [reflexivity | apply Hcommit].
      * now exists g.
Qed.

(** Keys that do nothing: before the game has started and after it is over
    every key but Enter and the space bar leaves the state as it is, and so
    does, while the game is paused, every key but p, P and Escape. *)
Theorem keys_ignored (key : string) (fuel rnd1 rnd2 : nat) (g : Game) :
  (gameStarted g = false \/ gameOver g = true ->
   isKey key ["Enter"; " "]%string = false ->
   _handleKeyDown key fuel rnd1 rnd2 g = Return tt g)
  /\ (gameStarted g = true -> gameOver g = false -> paused g = true ->
      isKey key ["p"; "P"; "Escape"]%string = false ->
      _handleKeyDown key fuel rnd1 rnd2 g = Return tt g).
Proof.
  split.
  - intros H Hk. unfold _handleKeyDown. unfold bind at 1. unfold read at 1.
    rewrite Hk.
    destruct H as [-> | ->]; [reflexivity | now rewrite orb_true_r].
  - intros Hs Ho Hp Hk. unfold _handleKeyDown.
    unfold bind at 1. unfold read at 1.
    now rewrite Hs, Ho, Hp, Hk.
Qed.

Lemma keys_ignored_witness :
  _handleKeyDown "ArrowLeft" 30 0 0 (set_paused true Samples.playing)
  = Return tt (set_paused true Samples.playing).
Proof.
  exact (proj2 (keys_ignored "ArrowLeft" 30 0 0 (set_paused true Samples.playing))
           eq_refl eq_refl eq_refl eq_refl).
Defined.

(** During a game no key makes the handler throw or run out of rounds: on
    a started game in play that is not over, with more rounds for the loops
    than the board has rows and than there are rows below the piece, every
    key returns a started game in play, and the painting that the key ends
    with returns on that game. *)
Theorem keyDown_keeps_in_play
        (key : string) (fuel rnd1 rnd2 : nat) (g : Game) :
  inPlay g ->
  gameStarted g = true -> gameOver g = false ->
  (Z.to_nat (height g) < fuel)%nat ->
  (Z.to_nat (height g - _currentY g) < fuel)%nat ->
  (rnd1 < 7)%nat ->
  exists g' : Game,
    _handleKeyDown key fuel rnd1 rnd2 g = Return tt g'
    /\ inPlay g' /\ gameStarted g' = true /\ paints fuel g'.
Proof.
  intros Hin Hs Ho Hfuel0 Hfuel Hrnd.
  pose proof (moves_in_play Hin) as Hmoves. cbv zeta in Hmoves.
  destruct Hmoves
    as ((gl & El & Hinl & Hsl & Hyl) & (gr & Er & Hinr & Hsr & Hyr)
        & (gd & moved & Ed & Hind & Hsd & Hyd) & (gt & Et & Hint & Hst & Hyt)).
  assert (Hkept : forall g', inPlay g' -> sameGame g g' ->
                    _currentY g <= _currentY g' ->
                    inPlay g' /\ gameStarted g' = true /\ paints fuel g').
  { intros g' Hin' Hsame Hy'. split; [exact Hin'|].
    destruct Hsame as (_ & Hh & _ & _ & _ & _ & _ & _ & Hst' & _).
    split; [now rewrite Hst'|].
    apply paints_in_play; [exact Hin'|]. rewrite Hh. lia. }
  unfold _handleKeyDown. unfold bind at 1. unfold read at 1.
  rewrite Hs, Ho. cbn [negb orb].
  destruct (isKey key ["p"; "P"; "Escape"]%string).
  { rewrite (togglePause_run g Hs Ho). eexists. split; [reflexivity|].
    split; [exact Hin|]. split; [exact Hs|].
    apply paints_in_play; [exact Hin | exact Hfuel]. }
  destruct (paused g).
  { exists g. split; [reflexivity|]. split; [exact Hin|]. split; [exact Hs|].
    now apply paints_in_play. }
  destruct (isKey key ["ArrowLeft"; "a"; "A"]%string).
  { exists gl. split; [exact El | now apply Hkept]. }
  destruct (isKey key ["ArrowRight"; "d"; "D"]%string).
  { exists gr. split; [exact Er | now apply Hkept]. }
  destruct (isKey key ["ArrowDown"; "s"; "S"]%string).
  { unfold bind at 1. rewrite Ed.
    destruct (Hkept gd Hind Hsd Hyd) as (_ & Hsd' & _).
    pose proof Hind as (Hwfd & (pd & Hpd & _ & Hbd) & _).
    assert (Hfd : (Z.to_nat (height gd - _currentY gd) < fuel)%nat).
    { destruct Hsd as (_ & Hh & _). rewrite Hh. lia. }
    destruct moved; eexists; (split; [reflexivity|]);
      (split; [exact Hind|]); (split; [exact Hsd'|]);
      apply (@render_body_run _ pd fuel); assumption. }
  destruct (isKey key ["ArrowUp"; "w"; "W"; "x"; "X"]%string).
  { exists gt. split; [exact Et | now apply Hkept]. }
  destruct (isKey key [" "]%string).
  { destruct (@hardDrop_settles g fuel rnd1 Hin Hfuel0 Hfuel Hrnd)
      as (g' & Hrun & Hin' & _ & Hs' & _ & Hpaint).
    exists g'. split; [exact Hrun|]. split; [exact Hin'|].
    split; [now rewrite Hs' | exact Hpaint]. }
  exists g. split; [reflexivity|]. split; [exact Hin|]. split; [exact Hs|].
  now apply paints_in_play.
Qed.

Lemma keyDown_keeps_in_play_witness :
  exists g' : Game,
    _handleKeyDown " " 30 4 0 Samples.playing = Return tt g'
    /\ inPlay g' /\ gameStarted g' = true /\ paints 30 g'.
Proof.
  apply (@keyDown_keeps_in_play " " 30%nat 4%nat 0%nat Samples.playing
           playing_in_play eq_refl eq_refl ltac:(cbn; lia) ltac:(cbn; lia)
           ltac:(lia)).
Defined.

End GameTetrisMore.
